(** * NewAgentDemo: the variant generator and the answer matcher

    A shallow embedding of the text-variant service
    ([services/textVariantService.js]), of the answer matcher of
    [backend/routes/demo.js] ([findMatchingAnswer], [calculateSimilarity])
    and of the question-update handler of the admin routes
    ([PUT /admin/questions/:id]), with the properties their
    specification states about them.

    Conventions of the embedding.
    - A JavaScript string is a [string] of 8-bit code units (the Latin-1
      range of UTF-16).  Character classes ([\s], [\w], [\b]) and case
      mapping are those of ECMAScript restricted to that range.
    - [Math.random()] is a stream of rationals; a stream is _fair_ when
      every draw lies in [[0,1)], as the language guarantees.
    - A number produced by the code (a draw, a score, a confidence) is a
      rational; the only arithmetic the code performs on them is a
      division of two small naturals, the floor of a draw times an array
      length, and comparisons with decimal literals, on which doubles and
      rationals agree.
    - A raised exception is an explicit outcome ([Throw]); [try]/[catch]
      is [catch]. *)

From Stdlib Require Import String Ascii List Bool Arith ZArith QArith Qround Lia.
From Stdlib Require Import DecimalString.
Import ListNotations.

Open Scope string_scope.
Open Scope list_scope.
Open Scope nat_scope.

(* ------------------------------------------------------------------ *)
(** ** Characters and strings, as the JavaScript runtime treats them   *)
(* ------------------------------------------------------------------ *)

Module Js.

Definition code (c : ascii) : nat := nat_of_ascii c.

Definition between (lo hi n : nat) : bool := (lo <=? n) && (n <=? hi).

(** [\s]: TAB, LF, VT, FF, CR, SP and NBSP. *)
Definition isSpace (c : ascii) : bool :=
  let n := code c in between 9 13 n || (n =? 32) || (n =? 160).

(** [\w]: [[A-Za-z0-9_]]. *)
Definition isWord (c : ascii) : bool :=
  let n := code c in
  between 48 57 n || between 65 90 n || (n =? 95) || between 97 122 n.

Definition lowerChar (c : ascii) : ascii :=
  let n := code c in
  if between 65 90 n || (between 192 222 n && negb (n =? 215))
  then ascii_of_nat (n + 32) else c.

(** Upper-casing one code unit.  The three Latin-1 letters whose upper
    case lies outside the 8-bit range (micro sign, sharp s, y with
    diaeresis) are left as they are. *)
Definition upperChar (c : ascii) : ascii :=
  let n := code c in
  if between 97 122 n || (between 224 254 n && negb (n =? 247))
  then ascii_of_nat (n - 32) else c.

Fixpoint toLowerCase (s : string) : string :=
  match s with
  | EmptyString => EmptyString
  | String c s' => String (lowerChar c) (toLowerCase s')
  end.

Fixpoint toUpperCase (s : string) : string :=
  match s with
  | EmptyString => EmptyString
  | String c s' => String (upperChar c) (toUpperCase s')
  end.

Fixpoint rev_onto (acc s : string) : string :=
  match s with
  | EmptyString => acc
  | String c s' => rev_onto (String c acc) s'
  end.

Definition rev (s : string) : string := rev_onto EmptyString s.

Fixpoint trimStart (s : string) : string :=
  match s with
  | EmptyString => EmptyString
  | String c s' => if isSpace c then trimStart s' else s
  end.

Definition trim (s : string) : string := rev (trimStart (rev (trimStart s))).

(** [s.startsWith(p)]. *)
Definition startsWith (s p : string) : bool := String.prefix p s.

(** [s.includes(t)]. *)
Fixpoint includes (s t : string) : bool :=
  String.prefix t s ||
  match s with
  | EmptyString => false
  | String _ s' => includes s' t
  end.

Fixpoint drop (n : nat) (s : string) : string :=
  match n, s with
  | O, _ => s
  | S _, EmptyString => EmptyString
  | S n', String _ s' => drop n' s'
  end.

Fixpoint take (n : nat) (s : string) : string :=
  match n, s with
  | O, _ => EmptyString
  | S _, EmptyString => EmptyString
  | S n', String c s' => String c (take n' s')
  end.

(** [s.split(/\s+/)]: the pieces between the maximal runs of white
    space; a run at either end leaves an empty piece there, and the
    empty string gives one empty piece.  [cur] is the piece being read,
    reversed; [inRun] tells that the previous character was a space. *)
Fixpoint splitSpaces (cur : string) (inRun : bool) (s : string) : list string :=
  match s with
  | EmptyString => [rev cur]
  | String c s' =>
      if isSpace c
      then if inRun then splitSpaces cur true s'
           else rev cur :: splitSpaces EmptyString true s'
      else splitSpaces (String c cur) false s'
  end.

Definition split_ws (s : string) : list string := splitSpaces EmptyString false s.

(** [s.split(sep)] for a non-empty string [sep]: the pieces between
    its successive occurrences.  [skip] counts the characters of the
    occurrence being passed. *)
Fixpoint splitAt (sep cur : string) (skip : nat) (s : string) : list string :=
  match s with
  | EmptyString => [rev cur]
  | String c s' =>
      match skip with
      | S k => splitAt sep cur k s'
      | O => if String.prefix sep s
             then rev cur :: splitAt sep EmptyString (String.length sep - 1) s'
             else splitAt sep (String c cur) 0 s'
      end
  end.

Definition split (sep s : string) : list string := splitAt sep EmptyString 0 s.

(** [array.join(sep)]. *)
Definition join (sep : string) (array : list string) : string :=
  String.concat sep array.

(** *** Regular expressions

    The service uses a handful of regular expressions, all with the
    flags [gi] or [i] and all matching non-empty strings only.  A
    pattern is given by what it does at one position of the subject:
    [matchAt prev s] is the replacement and the length of the match
    when the pattern matches at the beginning of [s], [prev] being the
    character before (for [\b]). *)

(** Equality of characters under the flag [i] (for ASCII patterns). *)
Definition eqChar_i (a b : ascii) : bool := Ascii.eqb (upperChar a) (upperChar b).

Fixpoint prefix_i (pat s : string) : bool :=
  match pat, s with
  | EmptyString, _ => true
  | String _ _, EmptyString => false
  | String a pat', String b s' => eqChar_i a b && prefix_i pat' s'
  end.

Definition isWordAt (c : option ascii) : bool :=
  match c with Some c => isWord c | None => false end.

(** [\b] between two neighbouring positions. *)
Definition boundary (before after : option ascii) : bool :=
  xorb (isWordAt before) (isWordAt after).

Definition first (s : string) : option ascii :=
  match s with EmptyString => None | String c _ => Some c end.

Fixpoint last (prev : option ascii) (s : string) : option ascii :=
  match s with EmptyString => prev | String c s' => last (Some c) s' end.

Definition Pattern : Type := option ascii -> string -> option (string * nat).

(** [subject.replace(regex, ...)] with the flag [g]. *)
Fixpoint replaceAll (matchAt : Pattern) (prev : option ascii) (skip : nat)
    (s : string) : string :=
  match s with
  | EmptyString => EmptyString
  | String c s' =>
      match skip with
      | S k => replaceAll matchAt (Some c) k s'
      | O =>
          match matchAt prev s with
          | Some (replacement, len) =>
              (replacement ++ replaceAll matchAt (Some c) (len - 1) s')%string
          | None => String c (replaceAll matchAt (Some c) 0 s')
          end
      end
  end.

(** [/pat/gi] for a literal [pat]. *)
Definition literal_i (pat replacement : string) : Pattern :=
  fun _ s => if prefix_i pat s then Some (replacement, String.length pat) else None.

(** [/\bpat\b/gi] for a literal [pat]. *)
Definition word_i (pat replacement : string) : Pattern :=
  fun prev s =>
    let n := String.length pat in
    if prefix_i pat s
       && boundary prev (first s)
       && boundary (last prev (take n s)) (first (drop n s))
    then Some (replacement, n) else None.

Definition replaceLiteral_i (pat replacement s : string) : string :=
  replaceAll (literal_i pat replacement) None 0 s.

Definition replaceWord_i (pat replacement s : string) : string :=
  replaceAll (word_i pat replacement) None 0 s.

(** [s.replace(/^pat/i, replacement)]. *)
Definition replacePrefix_i (pat replacement s : string) : string :=
  if prefix_i pat s then (replacement ++ drop (String.length pat) s)%string else s.

(** The longest run of [\w] at the beginning of [s]. *)
Fixpoint wordRun (s : string) : string :=
  match s with
  | EmptyString => EmptyString
  | String c s' => if isWord c then String c (wordRun s') else EmptyString
  end.

(** [/subject (can|will|should) (\w+)/gi]; the replacement is
    [before ++ $2 ++ after]. *)
Definition modal_i (subject before after : string) : Pattern :=
  fun _ s =>
    let try (modal : string) : option (string * nat) :=
      let head := (subject ++ " " ++ modal ++ " ")%string in
      if prefix_i head s then
        let verb := wordRun (drop (String.length head) s) in
        if 0 <? String.length verb
        then Some ((before ++ verb ++ after)%string,
                   String.length head + String.length verb)
        else None
      else None in
    match try "can" with
    | Some m => Some m
    | None => match try "will" with
              | Some m => Some m
              | None => try "should"
              end
    end.

(** The longest prefix of [run] that [\w+s] matches under the flag [i]:
    it ends with the last [s] or [S] of [run] that is not its first
    character.  [n] is the number of characters read so far. *)
Fixpoint lastS (run : string) (n : nat) (found : option nat) : option nat :=
  match run with
  | EmptyString => found
  | String c run' =>
      lastS run' (S n)
            (if (0 <? n) && eqChar_i c "s"%char then Some (S n) else found)
  end.

(** [/The system (\w+s)/gi]; the replacement is [before ++ $1 ++ after]. *)
Definition systemVerb_i (before after : string) : Pattern :=
  fun _ s =>
    let head := "The system " in
    if prefix_i head s then
      let run := wordRun (drop (String.length head) s) in
      match lastS run 0 None with
      | Some n => Some ((before ++ take n run ++ after)%string,
                        String.length head + n)
      | None => None
      end
    else None.

(** The replacement text of [subject.replace(pattern, template)] for a
    string [pattern]: [$$], [$&], [$`] and [$'] are expanded. *)
Fixpoint substitution (matched before after template : string) : string :=
  match template with
  | EmptyString => EmptyString
  | String c rest =>
      if Ascii.eqb c "$"%char then
        match rest with
        | EmptyString => String c EmptyString
        | String d rest' =>
            if Ascii.eqb d "$"%char then
              String "$"%char (substitution matched before after rest')
            else if Ascii.eqb d "&"%char then
              (matched ++ substitution matched before after rest')%string
            else if Ascii.eqb d "`"%char then
              (before ++ substitution matched before after rest')%string
            else if Ascii.eqb d "'"%char then
              (after ++ substitution matched before after rest')%string
            else String c (substitution matched before after rest)
        end
      else String c (substitution matched before after rest)
  end.

(** The first occurrence of [pat] in [s]: what precedes it (read so
    far, reversed, in [seen]) and what follows it. *)
Fixpoint occurrence (pat seen s : string) : option (string * string) :=
  if String.prefix pat s then Some (rev seen, drop (String.length pat) s)
  else match s with
       | EmptyString => None
       | String c s' => occurrence pat (String c seen) s'
       end.

(** [s.replace(pat, template)] for a string [pat]. *)
Definition replaceFirst (pat template s : string) : string :=
  match occurrence pat EmptyString s with
  | Some (before, after) =>
      (before ++ substitution pat before after template ++ after)%string
  | None => s
  end.

Fixpoint hasChar (c : ascii) (s : string) : bool :=
  match s with
  | EmptyString => false
  | String d s' => Ascii.eqb c d || hasChar c s'
  end.

(** [s.replace(/<[^>]*>/g, '')]; [inTag] tells that a tag is being
    passed. *)
Fixpoint removeTags (inTag : bool) (s : string) : string :=
  match s with
  | EmptyString => EmptyString
  | String c s' =>
      if inTag then removeTags (negb (Ascii.eqb c ">"%char)) s'
      else if Ascii.eqb c "<"%char && hasChar ">"%char s' then removeTags true s'
      else String c (removeTags false s')
  end.

(** [s.charAt(0).toUpperCase() + s.slice(1)]. *)
Definition capitalize (s : string) : string :=
  match s with
  | EmptyString => EmptyString
  | String c s' => String (upperChar c) s'
  end.

End Js.

(* ------------------------------------------------------------------ *)
(** ** The similarity scorer ([calculateSimilarity], demo.js)          *)
(* ------------------------------------------------------------------ *)

(** The tokens of a string: [str.split(/\s+/).filter(word => word.length > 2)]. *)
Definition words_of (str : string) : list string :=
  filter (fun word => 2 <? String.length word) (Js.split_ws str).

(** The test of the inner loop. *)
Definition word_hit (word1 word2 : string) : bool :=
  Js.includes word1 word2 || Js.includes word2 word1.

(** The two nested loops: [matches] is incremented once for every word of
    [words1] for which the inner loop reaches its [break]. *)
Definition count_matches (words1 words2 : list string) : nat :=
  fold_left
    (fun matches word1 =>
       if existsb (fun word2 => word_hit word1 word2) words2
       then S matches else matches)
    words1 0.

Definition calculateSimilarity (str1 str2 : string) : Q :=
  let words1 := words_of str1 in
  let words2 := words_of str2 in
  if (List.length words1 =? 0) || (List.length words2 =? 0) then 0%Q
  else
    let totalWords := Nat.max (List.length words1) (List.length words2) in
    let matches := count_matches words1 words2 in
    (Z.of_nat matches # Pos.of_nat totalWords)%Q.

(* ------------------------------------------------------------------ *)
(** ** Exceptions and the random source                                *)
(* ------------------------------------------------------------------ *)

Inductive exn : Type :=
| TypeError       (* a property read or a method call on a non-object *)
| DatabaseError.  (* a rejected query *)

Inductive Res (A : Type) : Type :=
| Ok (a : A)
| Throw (e : exn).
Arguments Ok {A} a.
Arguments Throw {A} e.

(** The draws [Math.random()] is still to return. *)
Definition Rand : Type := nat -> Q.

Definition fair (r : Rand) : Prop := forall n, (0 <= r n)%Q /\ (r n < 1)%Q.

Definition next (r : Rand) : Rand := fun n => r (S n).

(** A computation that may draw random numbers and may throw. *)
Definition M (A : Type) : Type := Rand -> Res A * Rand.

Definition ret {A} (a : A) : M A := fun r => (Ok a, r).

Definition throw {A} (e : exn) : M A := fun r => (Throw e, r).

Definition bind {A B} (m : M A) (k : A -> M B) : M B :=
  fun r => match m r with
           | (Ok a, r') => k a r'
           | (Throw e, r') => (Throw e, r')
           end.

(** [try { m } catch (error) { h error }]. *)
Definition catch {A} (m : M A) (h : exn -> M A) : M A :=
  fun r => match m r with
           | (Ok a, r') => (Ok a, r')
           | (Throw e, r') => h e r'
           end.

Definition lift {A} (x : Res A) : M A := fun r => (x, r).

Notation "x <- m ;; k" := (bind m (fun x => k))
  (at level 61, m at next level, right associativity).

Definition Math_random : M Q := fun r => (Ok (r 0), next r).

Definition Math_floor (x : Q) : Z := Qfloor x.

(** [a > b] on numbers. *)
Definition Qgtb (a b : Q) : bool := negb (Qle_bool a b).

(** [array[i]]: [undefined] ([None]) outside the array. *)
Definition at_index {A} (array : list A) (i : Z) : option A :=
  if (i <? 0)%Z then None else nth_error array (Z.to_nat i).

(** A loop over an array that threads an accumulator through its body
    ([for ... of], [forEach]); a throwing iteration ends the loop. *)
Fixpoint forEachM {A S} (body : S -> A -> M S) (array : list A) (s : S) : M S :=
  match array with
  | [] => ret s
  | x :: rest => s' <- body s x ;; forEachM body rest s'
  end.

(* ------------------------------------------------------------------ *)
(** ** The stored data (models/index.js)                               *)
(* ------------------------------------------------------------------ *)

(** Primary keys are UUIDs; only their equality matters. *)
Definition uuid : Type := nat.

(** [DataTypes.ENUM('Draft', 'Final')]. *)
Inductive Status : Type := Draft | Final.

Definition isFinal (s : Status) : bool :=
  match s with Final => true | Draft => false end.

Record Question : Type := {
  q_id : uuid;
  q_agent_id : uuid;
  question_text : string;
  q_status : Status }.

Record Answer : Type := {
  a_id : uuid;
  a_question_id : uuid;
  answer_text : string;
  answer_html : string;
  a_status : Status }.

Record QuestionVariant : Type := {
  qv_id : uuid;
  qv_question_id : uuid;
  qv_variant_text : string;
  qv_is_approved : bool }.

Record AnswerVariant : Type := {
  av_id : uuid;
  av_answer_id : uuid;
  av_variant_text : string;
  av_variant_html : string;
  av_is_approved : bool }.

(** The four tables, and the source of fresh primary keys
    ([defaultValue: UUIDV4]). *)
Record Database : Type := {
  Questions : list Question;
  Answers : list Answer;
  QuestionVariants : list QuestionVariant;
  AnswerVariants : list AnswerVariant;
  next_uuid : uuid }.

(** The backing store either answers queries or rejects them. *)
Inductive Storage : Type :=
| Unavailable
| Available (db : Database).

(** Rows as a query with [include] returns them: an answer with its
    variants, a question with its answer ([hasOne]) and its variants. *)
Record AnswerWith : Type := {
  aw_row : Answer;
  aw_variants : list AnswerVariant }.

Record QuestionWith : Type := {
  qw_row : Question;
  qw_answer : option AnswerWith;
  qw_variants : list QuestionVariant }.

(** The query of [findMatchingAnswer]:
    questions [where agent_id = agentId and status = 'Final'],
    inner-joined with their answer [where status = 'Final'],
    left-joined with the approved variants of both. *)
Definition approvedAnswerVariants (db : Database) (a : Answer) : list AnswerVariant :=
  filter (fun v => (av_answer_id v =? a_id a) && av_is_approved v) (AnswerVariants db).

Definition approvedQuestionVariants (db : Database) (q : Question) : list QuestionVariant :=
  filter (fun v => (qv_question_id v =? q_id q) && qv_is_approved v) (QuestionVariants db).

Definition finalAnswerOf (db : Database) (q : Question) : option Answer :=
  find (fun a => (a_question_id a =? q_id q) && isFinal (a_status a)) (Answers db).

Definition loadFinal (db : Database) (agentId : uuid) : list QuestionWith :=
  flat_map
    (fun q =>
       if (q_agent_id q =? agentId) && isFinal (q_status q) then
         match finalAnswerOf db q with
         | Some a =>
             [ {| qw_row := q;
                  qw_answer := Some {| aw_row := a;
                                       aw_variants := approvedAnswerVariants db a |};
                  qw_variants := approvedQuestionVariants db q |} ]
         | None => []
         end
       else [])
    (Questions db).

Definition Question_findAll_final (st : Storage) (agentId : uuid) : Res (list QuestionWith) :=
  match st with
  | Unavailable => Throw DatabaseError
  | Available db => Ok (loadFinal db agentId)
  end.

(* ------------------------------------------------------------------ *)
(** ** The answer matcher ([findMatchingAnswer], demo.js)              *)
(* ------------------------------------------------------------------ *)

Record Payload : Type := {
  question_id : option uuid;
  answer_id : option uuid;
  text : string;
  html : string;
  score : Q }.

Definition noInformation : string :=
  "I'm sorry, I don't have information about that topic. Could you please rephrase your question or ask about something else?".

Definition technicalDifficulties : string :=
  "I'm experiencing technical difficulties. Please try again later.".

Definition fallback : Payload :=
  {| question_id := None; answer_id := None;
     text := noInformation; html := noInformation; score := 0 |}.

Definition technicalFallback : Payload :=
  {| question_id := None; answer_id := None;
     text := technicalDifficulties; html := technicalDifficulties; score := 0 |}.

(** The running best: [bestMatch] and [bestScore]. *)
Definition Best : Type := (option Payload * Q)%type.

(** The answer a matching variant resolves to: a random approved answer
    variant if there is one, the answer itself otherwise. *)
Definition selectedAnswer (answer : AnswerWith) : M (string * string) :=
  let answerVariants := aw_variants answer in
  if 0 <? List.length answerVariants then
    x <- Math_random ;;
    match at_index answerVariants
            (Math_floor (x * inject_Z (Z.of_nat (List.length answerVariants)))) with
    | Some randomVariant =>
        ret (av_variant_text randomVariant, av_variant_html randomVariant)
    | None => throw TypeError
    end
  else ret (answer_text (aw_row answer), answer_html (aw_row answer)).

Definition checkVariant (lowerMessage : string) (question : QuestionWith)
    (answer : AnswerWith) (best : Best) (variant : QuestionVariant) : M Best :=
  let variantScore :=
    calculateSimilarity lowerMessage (Js.toLowerCase (qv_variant_text variant)) in
  if Qgtb variantScore (snd best) then
    selected <- selectedAnswer answer ;;
    ret (Some {| question_id := Some (q_id (qw_row question));
                 answer_id := Some (a_id (aw_row answer));
                 text := fst selected;
                 html := snd selected;
                 score := variantScore |},
         variantScore)
  else ret best.

Definition checkQuestion (lowerMessage : string) (best : Best)
    (question : QuestionWith) : M Best :=
  match qw_answer question with
  | None => ret best
  | Some answer =>
      let originalScore :=
        calculateSimilarity lowerMessage
          (Js.toLowerCase (question_text (qw_row question))) in
      let best1 : Best :=
        if Qgtb originalScore (snd best) then
          (Some {| question_id := Some (q_id (qw_row question));
                   answer_id := Some (a_id (aw_row answer));
                   text := answer_text (aw_row answer);
                   html := answer_html (aw_row answer);
                   score := originalScore |},
           originalScore)
        else best in
      forEachM (checkVariant lowerMessage question answer) (qw_variants question) best1
  end.

(** The body of the [try] block. *)
Definition findMatchingAnswer_try (st : Storage) (agentId : uuid)
    (userMessage : string) : M Payload :=
  let lowerMessage := Js.trim (Js.toLowerCase userMessage) in
  questions <- lift (Question_findAll_final st agentId) ;;
  best <- forEachM (checkQuestion lowerMessage) questions (None, 0%Q) ;;
  match fst best with
  | Some bestMatch =>
      if Qgtb (snd best) (3 # 10) then ret bestMatch else ret fallback
  | None => ret fallback
  end.

Definition findMatchingAnswer (st : Storage) (agentId : uuid)
    (userMessage : string) : M Payload :=
  catch (findMatchingAnswer_try st agentId userMessage)
        (fun _ => ret technicalFallback).

(* ------------------------------------------------------------------ *)
(** ** The paraphrase rules (textVariantService.js)                    *)
(* ------------------------------------------------------------------ *)

(** An argument of the service: a string, or [null]/[undefined]. *)
Inductive value : Type :=
| VNull
| VStr (s : string).

Definition truthy (v : value) : bool :=
  match v with
  | VNull => false
  | VStr s => negb (String.eqb s "")
  end.

(** [a === b] on arguments. *)
Definition value_eqb (a b : value) : bool :=
  match a, b with
  | VNull, VNull => true
  | VStr x, VStr y => String.eqb x y
  | _, _ => false
  end.

(** [a || b] where [b] is a string. *)
Definition orElse (a : value) (b : string) : string :=
  match a with
  | VStr s => if String.eqb s "" then b else s
  | VNull => b
  end.

(** What a rule returns: [{ text, html, confidence }]; two rules leave
    [confidence] out. *)
Record Paraphrase : Type := {
  p_text : string;
  p_html : value;
  p_confidence : option Q }.

(** [htmlContent ? htmlContent.replace(text, result) : result]. *)
Definition htmlFor (htmlContent : value) (text result : string) : string :=
  match htmlContent with
  | VStr h => if String.eqb h "" then result else Js.replaceFirst text result h
  | VNull => result
  end.

(** [stripHtml]: the method call throws on [null] and [undefined]. *)
Definition stripHtml (html : value) : M string :=
  match html with
  | VStr h => ret (Js.trim (Js.removeTags false h))
  | VNull => throw TypeError
  end.

(** [array[Math.floor(Math.random() * array.length)]] inside a template
    literal, where [undefined] prints as such. *)
Definition pick (array : list string) : M string :=
  x <- Math_random ;;
  ret match at_index array
              (Math_floor (x * inject_Z (Z.of_nat (List.length array)))) with
      | Some chosen => chosen
      | None => "undefined"
      end.

(** [Object.entries(map).forEach(([original, replacement]) => ...)] where
    every entry is applied with the chance the rule gives it: the draw is
    made for every entry, and the entry is applied when it exceeds
    [threshold]. *)
Definition replaceSome (threshold : Q) (map : list (string * string))
    (text : string) : M string :=
  forEachM
    (fun result entry =>
       x <- Math_random ;;
       ret (if Qgtb x threshold
            then Js.replaceWord_i (fst entry) (snd entry) result
            else result))
    map text.

Definition synonymMap : list (string * string) :=
  [ ("how", "in what way"); ("what", "which"); ("why", "for what reason");
    ("when", "at what time"); ("where", "in which location");
    ("can", "is it possible to"); ("will", "shall"); ("would", "could");
    ("should", "ought to"); ("help", "assist"); ("show", "display");
    ("explain", "describe"); ("tell", "inform"); ("find", "locate");
    ("get", "obtain"); ("make", "create"); ("use", "utilize");
    ("need", "require"); ("want", "desire");
    ("process", "procedure"); ("method", "approach"); ("system", "platform");
    ("feature", "functionality"); ("option", "choice");
    ("setting", "configuration"); ("data", "information"); ("user", "person");
    ("admin", "administrator"); ("manage", "handle") ].

Definition synonymReplacement (text type : string) (htmlContent : value) : M Paraphrase :=
  result <- replaceSome (7 # 10) synonymMap text ;;
  ret {| p_text := result;
         p_html := VStr (htmlFor htmlContent text result);
         p_confidence := Some (9 # 10) |}.

Definition sentenceRestructuring (text type : string) (htmlContent : value) : M Paraphrase :=
  let result :=
    if String.eqb type "question" then
      if Js.startsWith (Js.toLowerCase text) "how do i" then
        Js.replacePrefix_i "how do i" "What is the process to" text
      else if Js.startsWith (Js.toLowerCase text) "what is" then
        Js.replacePrefix_i "what is" "Could you explain what" text
      else if Js.startsWith (Js.toLowerCase text) "can i" then
        Js.replacePrefix_i "can i" "Is it possible for me to" text
      else if Js.startsWith (Js.toLowerCase text) "where" then
        Js.replacePrefix_i "where" "In what location" text
      else text
    else
      match Js.split ". " text with
      | first :: second :: rest => Js.join ". " (second :: first :: rest)
      | _ => text
      end in
  ret {| p_text := result;
         p_html := VStr (htmlFor htmlContent text result);
         p_confidence := Some (8 # 10) |}.

Definition formalToInformal : list (string * string) :=
  [ ("utilize", "use"); ("commence", "start"); ("terminate", "end");
    ("facilitate", "help"); ("endeavor", "try"); ("accomplish", "do");
    ("subsequently", "then"); ("prior to", "before"); ("in order to", "to") ].

Definition informalToFormal : list (string * string) :=
  [ ("use", "utilize"); ("start", "commence"); ("end", "terminate");
    ("help", "facilitate"); ("try", "endeavor"); ("do", "accomplish");
    ("then", "subsequently"); ("before", "prior to"); ("to", "in order to") ].

Definition formalInformalSwitch (text type : string) (htmlContent : value) : M Paraphrase :=
  x <- Math_random ;;
  let mapToUse := if Qgtb x (5 # 10) then formalToInformal else informalToFormal in
  let result :=
    fold_left (fun result entry => Js.replaceWord_i (fst entry) (snd entry) result)
              mapToUse text in
  ret {| p_text := result;
         p_html := VStr (htmlFor htmlContent text result);
         p_confidence := Some (85 # 100) |}.

Definition activeToPassive : list Js.Pattern :=
  [ Js.modal_i "I" "The " " process can be";
    Js.modal_i "You" "The " " action can be performed";
    Js.systemVerb_i "It is " " by the system" ].

Definition activePassiveSwitch (text type : string) (htmlContent : value) : M Paraphrase :=
  result <- forEachM
              (fun result pattern =>
                 x <- Math_random ;;
                 ret (if Qgtb x (6 # 10)
                      then Js.replaceAll pattern None 0 result
                      else result))
              activeToPassive text ;;
  ret {| p_text := result;
         p_html := VStr (htmlFor htmlContent text result);
         p_confidence := Some (7 # 10) |}.

Definition questionStarters : list string :=
  [ "Could you please explain"; "I would like to know";
    "Can you help me understand"; "I need information about";
    "Please tell me" ].

Definition questionOpeners : list string :=
  [ "how"; "what"; "when"; "where"; "why"; "can"; "could"; "would"; "should" ].

Definition questionStyleVariation (text type : string) (htmlContent : value) : M Paraphrase :=
  if negb (String.eqb type "question") then
    ret {| p_text := text; p_html := htmlContent; p_confidence := None |}
  else
    result <- (if negb (existsb (fun opener => Js.prefix_i opener text) questionOpeners)
               then starter <- pick questionStarters ;;
                    ret (starter ++ " " ++ Js.toLowerCase text)%string
               else ret text) ;;
    ret {| p_text := result;
           p_html := VStr (htmlFor htmlContent text result);
           p_confidence := Some (8 # 10) |}.

Definition contractions : list (string * string) :=
  [ ("can't", "cannot"); ("won't", "will not"); ("don't", "do not");
    ("doesn't", "does not"); ("isn't", "is not"); ("aren't", "are not");
    ("wasn't", "was not"); ("weren't", "were not"); ("haven't", "have not");
    ("hasn't", "has not"); ("shouldn't", "should not");
    ("wouldn't", "would not"); ("couldn't", "could not") ].

Definition expansions : list (string * string) :=
  map (fun entry => (snd entry, fst entry)) contractions.

Definition expandContract (text type : string) (htmlContent : value) : M Paraphrase :=
  x <- Math_random ;;
  let mapToUse := if Qgtb x (5 # 10) then contractions else expansions in
  let result :=
    fold_left (fun result entry => Js.replaceLiteral_i (fst entry) (snd entry) result)
              mapToUse text in
  ret {| p_text := result;
         p_html := VStr (htmlFor htmlContent text result);
         p_confidence := Some (9 # 10) |}.

Definition interrogatives : list string := [ "how"; "what"; "when"; "where"; "why" ].

Definition changeOrder (text type : string) (htmlContent : value) : M Paraphrase :=
  let result :=
    if String.eqb type "question" then
      let words := Js.split " " text in
      if 3 <? List.length words then
        match words with
        | questionWord :: second :: third :: rest =>
            if existsb (String.eqb (Js.toLowerCase questionWord)) interrogatives
            then Js.capitalize
                   (Js.join " " (second :: third :: Js.toLowerCase questionWord :: rest))
            else text
        | _ => text
        end
      else text
    else text in
  ret {| p_text := result;
         p_html := VStr (htmlFor htmlContent text result);
         p_confidence := Some (6 # 10) |}.

Definition emphasisWords : list string :=
  [ "particularly"; "specifically"; "especially"; "exactly"; "precisely" ].

Definition shiftEmphasis (text type : string) (htmlContent : value) : M Paraphrase :=
  emphasis <- pick emphasisWords ;;
  let result :=
    if String.eqb type "question" then
      Js.replaceLiteral_i "what" ("what " ++ emphasis)
        (Js.replaceLiteral_i "how" ("how " ++ emphasis) text)
    else text in
  let htmlResult :=
    if truthy htmlContent then VStr (htmlFor htmlContent text result) else htmlContent in
  ret {| p_text := result;
         p_html := VStr (orElse htmlResult result);
         p_confidence := Some (7 # 10) |}.

Definition perspectiveMap : list (string * string) :=
  [ ("I", "you"); ("me", "you"); ("my", "your"); ("mine", "yours");
    ("you", "one"); ("your", "one's"); ("yours", "one's") ].

Definition changePerspective (text type : string) (htmlContent : value) : M Paraphrase :=
  result <- replaceSome (7 # 10) perspectiveMap text ;;
  ret {| p_text := result;
         p_html := VStr (htmlFor htmlContent text result);
         p_confidence := Some (6 # 10) |}.

Definition contexts : list string :=
  [ "In this system,"; "For this application,"; "When using this platform,";
    "In the context of this demo," ].

Definition contextualVariation (text type : string) (htmlContent : value) : M Paraphrase :=
  result <- (if String.eqb type "question" then
               x <- Math_random ;;
               if Qgtb x (5 # 10) then
                 context <- pick contexts ;;
                 ret (context ++ " " ++ Js.toLowerCase text)%string
               else ret text
             else ret text) ;;
  ret {| p_text := result;
         p_html := VStr (htmlFor htmlContent text result);
         p_confidence := Some (8 # 10) |}.

Definition applyParaphraseTechnique (text : value) (technique type : string)
    (htmlContent : value) : M Paraphrase :=
  cleanText <- stripHtml text ;;
  if String.eqb technique "synonymReplacement" then
    synonymReplacement cleanText type htmlContent
  else if String.eqb technique "sentenceRestructuring" then
    sentenceRestructuring cleanText type htmlContent
  else if String.eqb technique "formalInformal" then
    formalInformalSwitch cleanText type htmlContent
  else if String.eqb technique "activePassive" then
    activePassiveSwitch cleanText type htmlContent
  else if String.eqb technique "questionStyle" then
    questionStyleVariation cleanText type htmlContent
  else if String.eqb technique "expandContract" then
    expandContract cleanText type htmlContent
  else if String.eqb technique "orderChange" then
    changeOrder cleanText type htmlContent
  else if String.eqb technique "emphasisShift" then
    shiftEmphasis cleanText type htmlContent
  else if String.eqb technique "perspectiveChange" then
    changePerspective cleanText type htmlContent
  else if String.eqb technique "contextualVariation" then
    contextualVariation cleanText type htmlContent
  else ret {| p_text := cleanText; p_html := htmlContent; p_confidence := None |}.

(* ------------------------------------------------------------------ *)
(** ** The variant generator ([generateVariants])                      *)
(* ------------------------------------------------------------------ *)

(** The [id] of an entry: [index + 1], or [`creative_${index + 1}`]. *)
Inductive VariantId : Type :=
| NumberId (n : nat)
| StringId (s : string).

Module Variant.
Record t : Type := {
  id : VariantId;
  text : string;
  html : string;
  technique : string;
  confidence : Q }.
End Variant.

Definition techniques : list string :=
  [ "synonymReplacement"; "sentenceRestructuring"; "formalInformal";
    "activePassive"; "questionStyle"; "expandContract"; "orderChange";
    "emphasisShift"; "perspectiveChange"; "contextualVariation" ].

Definition combinations : list (list string) :=
  [ [ "synonymReplacement"; "formalInformal" ];
    [ "sentenceRestructuring"; "expandContract" ];
    [ "questionStyle"; "emphasisShift" ];
    [ "contextualVariation"; "synonymReplacement" ] ].

(** The elements of an array with their indices, as [forEach] passes them. *)
Definition indexed {A} (array : list A) : list (nat * A) :=
  combine (seq 0 (List.length array)) array.

(** A number in a template literal. *)
Definition decimal (n : nat) : string := NilEmpty.string_of_uint (Nat.to_uint n).

(** [variant && variant !== originalText]: [variant] is the object the
    rule returned and [originalText] a string or [null]; an object is
    truthy, and [!==] between an object and a primitive holds. *)
Definition keepVariant (variant : Paraphrase) (originalText : value) : bool := true.

(** [x || 0.8] for an optional, non-zero confidence. *)
Definition confidenceOr (c : option Q) (d : Q) : Q :=
  match c with Some q => q | None => d end.

Section Generator.

(** The catalogue of rules, addressed by name. *)
Variable applyRule : value -> string -> string -> value -> M Paraphrase.

(** The body of the first [forEach]. *)
Definition pushVariant (originalText : value) (type : string) (htmlContent : value)
    (variants : list Variant.t) (entry : nat * string) : M (list Variant.t) :=
  let index := fst entry in
  let technique := snd entry in
  variant <- applyRule originalText technique type htmlContent ;;
  if keepVariant variant originalText then
    ret (variants ++
         [ {| Variant.id := NumberId (index + 1);
              Variant.text := p_text variant;
              Variant.html := orElse (p_html variant) (p_text variant);
              Variant.technique := technique;
              Variant.confidence := confidenceOr (p_confidence variant) (8 # 10) |} ])
  else ret variants.

(** One combination: the rules are chained on [{ text, html }]. *)
Definition chainRules (type : string) (combination : list string)
    (start : value * value) : M (value * value) :=
  forEachM
    (fun result technique =>
       next <- applyRule (fst result) technique type (snd result) ;;
       ret (VStr (p_text next), p_html next))
    combination start.

(** The body of the [forEach] of [generateCreativeVariants].
    [result.text] is [null] only while it still is [originalText], and
    then nothing is pushed. *)
Definition pushCreative (originalText : value) (type : string) (htmlContent : value)
    (variants : list Variant.t) (entry : nat * list string) : M (list Variant.t) :=
  let index := fst entry in
  let combination := snd entry in
  result <- chainRules type combination (originalText, htmlContent) ;;
  match fst result with
  | VStr resultText =>
      if negb (value_eqb (VStr resultText) originalText) then
        ret (variants ++
             [ {| Variant.id := StringId ("creative_" ++ decimal (index + 1));
                  Variant.text := resultText;
                  Variant.html := orElse (snd result) resultText;
                  Variant.technique := "combined_" ++ Js.join "_" combination;
                  Variant.confidence := 7 # 10 |} ])
      else ret variants
  | VNull => ret variants
  end.

Definition generateCreativeVariantsWith (originalText : value) (type : string)
    (htmlContent : value) : M (list Variant.t) :=
  forEachM (pushCreative originalText type htmlContent) (indexed combinations) [].

(** The body of the [try] block. *)
Definition generateVariants_try (originalText : value) (type : string)
    (htmlContent : value) : M (list Variant.t) :=
  variants <- forEachM (pushVariant originalText type htmlContent)
                       (indexed techniques) [] ;;
  creativeVariants <- generateCreativeVariantsWith originalText type htmlContent ;;
  ret (firstn 12 (variants ++ creativeVariants)).

Definition generateVariantsWith (originalText : value) (type : string)
    (htmlContent : value) : M (list Variant.t) :=
  catch (generateVariants_try originalText type htmlContent) (fun _ => ret []).

End Generator.

Definition generateCreativeVariants : value -> string -> value -> M (list Variant.t) :=
  generateCreativeVariantsWith applyParaphraseTechnique.

Definition generateVariants : value -> string -> value -> M (list Variant.t) :=
  generateVariantsWith applyParaphraseTechnique.

(* ------------------------------------------------------------------ *)
(** ** Updating a question ([PUT /admin/questions/:id])                *)
(* ------------------------------------------------------------------ *)

(** The request: [req.params.id] and the fields of [req.body] the
    handler reads; [status] may be absent. *)
Record UpdateRequest : Type := {
  params_id : uuid;
  body_question_text : string;
  body_answer_text : string;
  body_answer_html : string;
  body_status : value }.

(** A value offered to a column of type [ENUM('Draft', 'Final')]; any
    other string is rejected by the store. *)
Definition enumStatus (s : string) : option Status :=
  if String.eqb s "Draft" then Some Draft
  else if String.eqb s "Final" then Some Final
  else None.

(** [Question.findByPk(id, { include: answer })]. *)
Definition Question_findByPk (db : Database) (id : uuid) : option (Question * option Answer) :=
  match find (fun q => q_id q =? id) (Questions db) with
  | Some q => Some (q, find (fun a => a_question_id a =? q_id q) (Answers db))
  | None => None
  end.

(** [question.update({ question_text, status })]. *)
Definition Question_update (db : Database) (id : uuid) (new_text : string)
    (new_status : Status) : Database :=
  {| Questions :=
       map (fun q => if q_id q =? id
                     then {| q_id := q_id q; q_agent_id := q_agent_id q;
                             question_text := new_text; q_status := new_status |}
                     else q)
           (Questions db);
     Answers := Answers db;
     QuestionVariants := QuestionVariants db;
     AnswerVariants := AnswerVariants db;
     next_uuid := next_uuid db |}.

(** [answer.update({ answer_text, answer_html, status })]. *)
Definition Answer_update (db : Database) (id : uuid) (new_text new_html : string)
    (new_status : Status) : Database :=
  {| Questions := Questions db;
     Answers :=
       map (fun a => if a_id a =? id
                     then {| a_id := a_id a; a_question_id := a_question_id a;
                             answer_text := new_text; answer_html := new_html;
                             a_status := new_status |}
                     else a)
           (Answers db);
     QuestionVariants := QuestionVariants db;
     AnswerVariants := AnswerVariants db;
     next_uuid := next_uuid db |}.

(** [QuestionVariant.destroy({ where: { question_id } })]. *)
Definition QuestionVariant_destroy (db : Database) (question : uuid) : Database :=
  {| Questions := Questions db;
     Answers := Answers db;
     QuestionVariants :=
       filter (fun v => negb (qv_question_id v =? question)) (QuestionVariants db);
     AnswerVariants := AnswerVariants db;
     next_uuid := next_uuid db |}.

(** [AnswerVariant.destroy({ where: { answer_id } })]. *)
Definition AnswerVariant_destroy (db : Database) (answer : uuid) : Database :=
  {| Questions := Questions db;
     Answers := Answers db;
     QuestionVariants := QuestionVariants db;
     AnswerVariants :=
       filter (fun v => negb (av_answer_id v =? answer)) (AnswerVariants db);
     next_uuid := next_uuid db |}.

(** [QuestionVariant.create({ question_id, variant_text })]; [is_approved]
    takes its default. *)
Definition QuestionVariant_create (db : Database) (question : uuid)
    (variant_text : string) : Database :=
  {| Questions := Questions db;
     Answers := Answers db;
     QuestionVariants :=
       QuestionVariants db ++
       [ {| qv_id := next_uuid db; qv_question_id := question;
            qv_variant_text := variant_text; qv_is_approved := true |} ];
     AnswerVariants := AnswerVariants db;
     next_uuid := S (next_uuid db) |}.

(** [AnswerVariant.create({ answer_id, variant_text, variant_html })]. *)
Definition AnswerVariant_create (db : Database) (answer : uuid)
    (variant_text variant_html : string) : Database :=
  {| Questions := Questions db;
     Answers := Answers db;
     QuestionVariants := QuestionVariants db;
     AnswerVariants :=
       AnswerVariants db ++
       [ {| av_id := next_uuid db; av_answer_id := answer;
            av_variant_text := variant_text; av_variant_html := variant_html;
            av_is_approved := true |} ];
     next_uuid := S (next_uuid db) |}.

(** The handler answers with an HTTP status code and leaves the store in
    some state.  The three validators trim their field and require it
    non-empty; an exception anywhere in the [try] block gives [500] and
    leaves what was written before it.  The middlewares in front of the
    handler (authentication, audit log) write none of the four tables. *)
Definition updateQuestion (req : UpdateRequest) (st : Storage) (r : Rand)
    : nat * Storage * Rand :=
  let question_text := Js.trim (body_question_text req) in
  let answer_text := Js.trim (body_answer_text req) in
  let answer_html := Js.trim (body_answer_html req) in
  let status := body_status req in
  if (String.length question_text <? 1) || (String.length answer_text <? 1)
     || (String.length answer_html <? 1)
  then (400, st, r)
  else
    match st with
    | Unavailable => (500, st, r)
    | Available db =>
        match Question_findByPk db (params_id req) with
        | None => (404, st, r)
        | Some (question, answer) =>
            (* status || 'Draft' *)
            match enumStatus (orElse status "Draft") with
            | None => (500, st, r)
            | Some new_status =>
                let db1 := Question_update db (q_id question) question_text new_status in
                match answer with
                | None => (500, Available db1, r)
                | Some answer =>
                    let db2 := Answer_update db1 (a_id answer) answer_text answer_html
                                             new_status in
                    let db3 := QuestionVariant_destroy db2 (q_id question) in
                    let db4 := AnswerVariant_destroy db3 (a_id answer) in
                    match generateVariants (VStr question_text) "question" VNull r with
                    | (Throw _, r1) => (500, Available db4, r1)
                    | (Ok questionVariants, r1) =>
                        let db5 :=
                          fold_left
                            (fun d variant =>
                               QuestionVariant_create d (q_id question)
                                                      (Variant.text variant))
                            questionVariants db4 in
                        match generateVariants (VStr answer_text) "answer"
                                               (VStr answer_html) r1 with
                        | (Throw _, r2) => (500, Available db5, r2)
                        | (Ok answerVariants, r2) =>
                            let db6 :=
                              fold_left
                                (fun d variant =>
                                   AnswerVariant_create d (a_id answer)
                                                        (Variant.text variant)
                                                        (Variant.html variant))
                                answerVariants db5 in
                            (200, Available db6, r2)
                        end
                    end
                end
            end
        end
    end.

(* ------------------------------------------------------------------ *)
(** ** Keeping the markup ([preserveHtmlFormatting])                   *)
(* ------------------------------------------------------------------ *)

(** [preserveHtmlFormatting(originalHtml, originalText, newText)]. *)
Definition preserveHtmlFormatting (originalHtml : value) (originalText newText : string)
    : string :=
  if negb (truthy originalHtml) || value_eqb originalHtml (VStr originalText) then newText
  else match originalHtml with
       | VStr h => Js.replaceFirst originalText newText h
       | VNull => newText
       end.

(* ------------------------------------------------------------------ *)
(** ** Creating a question and publishing it (admin routes)            *)
(* ------------------------------------------------------------------ *)

(** The fields of an agent the handlers read or write. *)
Record Agent : Type := {
  ag_id : uuid;
  ag_status : Status;
  access_count : nat }.

(** [POST /admin/agents/:agentId/questions]. *)
Record CreateRequest : Type := {
  params_agentId : uuid;
  new_question_text : string;
  new_answer_text : string;
  new_answer_html : string }.

(** [Question.create({ agent_id, question_text, created_by })]; [status]
    takes its default. *)
Definition Question_create (db : Database) (agent : uuid) (text : string) : Database :=
  {| Questions :=
       Questions db ++
       [ {| q_id := next_uuid db; q_agent_id := agent;
            question_text := text; q_status := Draft |} ];
     Answers := Answers db;
     QuestionVariants := QuestionVariants db;
     AnswerVariants := AnswerVariants db;
     next_uuid := S (next_uuid db) |}.

(** [Answer.create({ question_id, answer_text, answer_html, created_by })]. *)
Definition Answer_create (db : Database) (question : uuid) (text html : string) : Database :=
  {| Questions := Questions db;
     Answers :=
       Answers db ++
       [ {| a_id := next_uuid db; a_question_id := question;
            answer_text := text; answer_html := html; a_status := Draft |} ];
     QuestionVariants := QuestionVariants db;
     AnswerVariants := AnswerVariants db;
     next_uuid := S (next_uuid db) |}.

(** The handler: the same three validators as for an update, the agent
    must exist, then the question, its answer and the variants of both
    are created.  [agents] is the table of agents. *)
Definition createQuestion (req : CreateRequest) (agents : list Agent) (st : Storage)
    (r : Rand) : nat * Storage * Rand :=
  let question_text := Js.trim (new_question_text req) in
  let answer_text := Js.trim (new_answer_text req) in
  let answer_html := Js.trim (new_answer_html req) in
  let agentId := params_agentId req in
  if (String.length question_text <? 1) || (String.length answer_text <? 1)
     || (String.length answer_html <? 1)
  then (400, st, r)
  else
    match st with
    | Unavailable => (500, st, r)
    | Available db =>
        match find (fun a => ag_id a =? agentId) agents with
        | None => (404, st, r)
        | Some _ =>
            let question_id := next_uuid db in
            let db1 := Question_create db agentId question_text in
            let answer_id := next_uuid db1 in
            let db2 := Answer_create db1 question_id answer_text answer_html in
            match generateVariants (VStr question_text) "question" VNull r with
            | (Throw _, r1) => (500, Available db2, r1)
            | (Ok questionVariants, r1) =>
                let db3 :=
                  fold_left
                    (fun d variant =>
                       QuestionVariant_create d question_id (Variant.text variant))
                    questionVariants db2 in
                match generateVariants (VStr answer_text) "answer" (VStr answer_html) r1 with
                | (Throw _, r2) => (500, Available db3, r2)
                | (Ok answerVariants, r2) =>
                    let db4 :=
                      fold_left
                        (fun d variant =>
                           AnswerVariant_create d answer_id (Variant.text variant)
                                                (Variant.html variant))
                        answerVariants db3 in
                    (201, Available db4, r2)
                end
            end
        end
    end.

(** [PUT /admin/questions/:id/status]. *)
Record StatusRequest : Type := {
  status_params_id : uuid;
  status_body_status : value }.

(** [body('status').isIn(['Draft', 'Final'])]: an absent field is
    validated as the empty string. *)
Definition validStatus (status : value) : option Status :=
  match status with
  | VStr s => enumStatus s
  | VNull => None
  end.

(** [question.update({ status })] and [answer.update({ status })]. *)
Definition Question_setStatus (db : Database) (id : uuid) (new_status : Status) : Database :=
  {| Questions :=
       map (fun q => if q_id q =? id
                     then {| q_id := q_id q; q_agent_id := q_agent_id q;
                             question_text := question_text q; q_status := new_status |}
                     else q)
           (Questions db);
     Answers := Answers db;
     QuestionVariants := QuestionVariants db;
     AnswerVariants := AnswerVariants db;
     next_uuid := next_uuid db |}.

Definition Answer_setStatus (db : Database) (id : uuid) (new_status : Status) : Database :=
  {| Questions := Questions db;
     Answers :=
       map (fun a => if a_id a =? id
                     then {| a_id := a_id a; a_question_id := a_question_id a;
                             answer_text := answer_text a; answer_html := answer_html a;
                             a_status := new_status |}
                     else a)
           (Answers db);
     QuestionVariants := QuestionVariants db;
     AnswerVariants := AnswerVariants db;
     next_uuid := next_uuid db |}.

Definition updateQuestionStatus (req : StatusRequest) (st : Storage) : nat * Storage :=
  match validStatus (status_body_status req) with
  | None => (400, st)
  | Some status =>
      match st with
      | Unavailable => (500, st)
      | Available db =>
          match Question_findByPk db (status_params_id req) with
          | None => (404, st)
          | Some (question, answer) =>
              let db1 := Question_setStatus db (q_id question) status in
              match answer with
              | Some answer => (200, Available (Answer_setStatus db1 (a_id answer) status))
              | None => (200, Available db1)
              end
          end
      end
  end.

(* ------------------------------------------------------------------ *)
(** ** Chat sessions (demo routes)                                     *)
(* ------------------------------------------------------------------ *)

(** The fields of a session and of a message the handlers read or
    write; the dates are left out. *)
Record ChatSession : Type := {
  cs_id : uuid;
  cs_user_id : uuid;
  cs_agent_id : uuid;
  is_active : bool }.

(** [DataTypes.ENUM('user', 'agent')]. *)
Inductive MessageType : Type := FromUser | FromAgent.

Record ChatMessage : Type := {
  cm_id : uuid;
  cm_session_id : uuid;
  message_type : MessageType;
  message_text : string;
  message_html : option string;
  cm_question_id : option uuid;
  cm_answer_id : option uuid }.

(** The tables of the demo routes, next to the questions and answers. *)
Record ChatStore : Type := {
  Agents : list Agent;
  ChatSessions : list ChatSession;
  ChatMessages : list ChatMessage;
  content : Database;
  chat_uuid : uuid }.

Inductive ChatStorage : Type :=
| ChatDown
| ChatUp (s : ChatStore).

Definition ownActive (user agent : uuid) (c : ChatSession) : bool :=
  (cs_user_id c =? user) && (cs_agent_id c =? agent) && is_active c.

Definition deactivate (c : ChatSession) : ChatSession :=
  {| cs_id := cs_id c; cs_user_id := cs_user_id c; cs_agent_id := cs_agent_id c;
     is_active := false |}.

(** [POST /demo/agents/:id/chat/start] for the user [user]: the status
    code, the id of the new session, the store. *)
Definition startChat (user agentId : uuid) (st : ChatStorage)
    : nat * option uuid * ChatStorage :=
  match st with
  | ChatDown => (500, None, st)
  | ChatUp s =>
      match find (fun a => (ag_id a =? agentId) && isFinal (ag_status a)) (Agents s) with
      | None => (404, None, st)
      | Some agent =>
          let ended :=
            map (fun c => if ownActive user agentId c then deactivate c else c)
                (ChatSessions s) in
          let session :=
            {| cs_id := chat_uuid s; cs_user_id := user; cs_agent_id := agentId;
               is_active := true |} in
          let counted :=
            map (fun a => if ag_id a =? ag_id agent
                          then {| ag_id := ag_id a; ag_status := ag_status a;
                                  access_count := access_count a + 1 |}
                          else a)
                (Agents s) in
          (200, Some (cs_id session),
           ChatUp {| Agents := counted;
                     ChatSessions := ended ++ [session];
                     ChatMessages := ChatMessages s;
                     content := content s;
                     chat_uuid := S (chat_uuid s) |})
      end
  end.

Definition ChatMessage_create (s : ChatStore) (m : uuid -> ChatMessage) : ChatStore :=
  {| Agents := Agents s;
     ChatSessions := ChatSessions s;
     ChatMessages := ChatMessages s ++ [m (chat_uuid s)];
     content := content s;
     chat_uuid := S (chat_uuid s) |}.

(** [POST /demo/chat/:sessionId/message].  The session is loaded with its
    agent; the read of [session.agent.id] throws when there is none, after
    the message of the user has been saved. *)
Definition sendMessage (user sessionId : uuid) (message : value) (st : ChatStorage)
    (r : Rand) : nat * ChatStorage * Rand :=
  match message with
  | VNull => (400, st, r)
  | VStr m =>
      if negb (truthy message) || (String.length (Js.trim m) =? 0) then (400, st, r)
      else
        match st with
        | ChatDown => (500, st, r)
        | ChatUp s =>
            match find (fun c => (cs_id c =? sessionId) && (cs_user_id c =? user)
                                 && is_active c)
                       (ChatSessions s) with
            | None => (404, st, r)
            | Some session =>
                let s1 :=
                  ChatMessage_create s
                    (fun id => {| cm_id := id; cm_session_id := sessionId;
                                  message_type := FromUser;
                                  message_text := Js.trim m;
                                  message_html := None;
                                  cm_question_id := None;
                                  cm_answer_id := None |}) in
                match find (fun a => ag_id a =? cs_agent_id session) (Agents s) with
                | None => (500, ChatUp s1, r)
                | Some agent =>
                    match findMatchingAnswer (Available (content s)) (ag_id agent)
                                             (Js.trim m) r with
                    | (Throw _, r') => (500, ChatUp s1, r')
                    | (Ok response, r') =>
                        (200,
                         ChatUp
                           (ChatMessage_create s1
                              (fun id => {| cm_id := id; cm_session_id := sessionId;
                                            message_type := FromAgent;
                                            message_text := text response;
                                            message_html := Some (html response);
                                            cm_question_id := question_id response;
                                            cm_answer_id := answer_id response |})),
                         r')
                    end
                end
            end
        end
  end.


(* ------------------------------------------------------------------ *)
(** ** The guards in front of the routes (middleware/auth.js)          *)
(* ------------------------------------------------------------------ *)

(** The fields of [req.user] the guards read. *)
Record User : Type := {
  user_id : uuid;
  role : string;
  user_is_active : bool }.

(** What a guard reads of the request: the result of
    [req.isAuthenticated()], when the method is there, and [req.user]. *)
Record Request : Type := {
  isAuthenticated : option bool;
  req_user : option User }.

(** A guard calls [next()] or answers with a status code. *)
Inductive Verdict : Type :=
| Next
| Responded (code : nat).

Definition ensureAuthenticated (req : Request) : Verdict :=
  match isAuthenticated req with
  | Some true => Next
  | _ => Responded 401
  end.

Definition ensureAdmin (req : Request) : Verdict :=
  match req_user req with
  | None => Responded 401
  | Some u =>
      if negb (String.eqb (role u) "Administrator") then Responded 403 else Next
  end.

Definition ensureDemoUser (req : Request) : Verdict :=
  match req_user req with
  | None => Responded 401
  | Some u =>
      if negb (String.eqb (role u) "Demo User") then Responded 403 else Next
  end.

Definition ensureUser (req : Request) : Verdict :=
  match req_user req with
  | None => Responded 401
  | Some u =>
      let allowedRoles := [ "Administrator"; "Demo User" ] in
      if negb (existsb (String.eqb (role u)) allowedRoles) then Responded 403 else Next
  end.

Definition ensureActiveUser (req : Request) : Verdict :=
  match req_user req with
  | None => Responded 401
  | Some u => if negb (user_is_active u) then Responded 403 else Next
  end.

(* ================================================================== *)
(** * Notions used in the statements                                   *)
(* ================================================================== *)

(* ------------------------------------------------------------------ *)
(** ** Draw sequences *)
(* ------------------------------------------------------------------ *)

(** The draws that are all [0], and all [1/2]. *)
Definition zeros : Rand := fun _ => 0%Q.

Definition halves : Rand := fun _ => (1 # 2)%Q.


(* ------------------------------------------------------------------ *)
(** ** The matcher as a search over candidates *)
(* ------------------------------------------------------------------ *)

(** A candidate: a question with its answer, taken by its own text
    ([None]) or by one of its approved variants. *)
Record Candidate : Type := {
  c_question : QuestionWith;
  c_answer : AnswerWith;
  c_variant : option QuestionVariant }.

Definition candidateText (c : Candidate) : string :=
  match c_variant c with
  | None => question_text (qw_row (c_question c))
  | Some v => qv_variant_text v
  end.

(** The candidates of a question, in the order the loops visit them. *)
Definition candidatesOf (q : QuestionWith) : list Candidate :=
  match qw_answer q with
  | None => []
  | Some a =>
      {| c_question := q; c_answer := a; c_variant := None |}
      :: map (fun v => {| c_question := q; c_answer := a; c_variant := Some v |})
             (qw_variants q)
  end.

Definition candidates (questions : list QuestionWith) : list Candidate :=
  flat_map candidatesOf questions.

Definition scoreOf (lowerMessage : string) (c : Candidate) : Q :=
  calculateSimilarity lowerMessage (Js.toLowerCase (candidateText c)).

(** The answers a candidate may resolve to: the answer itself, unless the
    candidate is a variant and the answer has approved variants; then any
    of these. *)
Definition resolvesTo (c : Candidate) (t h : string) : Prop :=
  match c_variant c, aw_variants (c_answer c) with
  | Some _, _ :: _ =>
      exists av, In av (aw_variants (c_answer c))
                 /\ t = av_variant_text av /\ h = av_variant_html av
  | _, _ =>
      t = answer_text (aw_row (c_answer c)) /\ h = answer_html (aw_row (c_answer c))
  end.

Definition resolves (lowerMessage : string) (c : Candidate) (p : Payload) : Prop :=
  question_id p = Some (q_id (qw_row (c_question c))) /\
  answer_id p = Some (a_id (aw_row (c_answer c))) /\
  score p = scoreOf lowerMessage c /\
  resolvesTo c (text p) (html p).

(** The first candidate of the highest score, if that score is positive:
    what the running best of the loops is, without the answer texts. *)
Definition better (lowerMessage : string) (w : option Candidate * Q) (c : Candidate)
    : option Candidate * Q :=
  if Qgtb (scoreOf lowerMessage c) (snd w) then (Some c, scoreOf lowerMessage c) else w.

Definition winner (lowerMessage : string) (cands : list Candidate) : option Candidate * Q :=
  fold_left (better lowerMessage) cands (None, 0%Q).

(** One iteration of the loops, on a candidate. *)
Definition stepCandidate (lowerMessage : string) (best : Best) (c : Candidate) : M Best :=
  match c_variant c with
  | None =>
      let originalScore := scoreOf lowerMessage c in
      ret (if Qgtb originalScore (snd best) then
             (Some {| question_id := Some (q_id (qw_row (c_question c)));
                      answer_id := Some (a_id (aw_row (c_answer c)));
                      text := answer_text (aw_row (c_answer c));
                      html := answer_html (aw_row (c_answer c));
                      score := originalScore |},
              originalScore)
           else best)
  | Some v => checkVariant lowerMessage (c_question c) (c_answer c) best v
  end.

(** The running best of the loops tracks the winner. *)
Definition tracks (lowerMessage : string) (best : Best) (w : option Candidate * Q) : Prop :=
  snd best = snd w /\
  match fst w with
  | None => fst best = None
  | Some c => exists p, fst best = Some p /\ resolves lowerMessage c p
  end.

(** [c] is the first candidate of [cands] with the highest score. *)
Definition firstBest (lowerMessage : string) (cands : list Candidate) (c : Candidate) : Prop :=
  exists pre post,
    cands = pre ++ c :: post /\
    (forall d, In d pre -> (scoreOf lowerMessage d < scoreOf lowerMessage c)%Q) /\
    (forall d, In d post -> (scoreOf lowerMessage d <= scoreOf lowerMessage c)%Q).

Definition winnerOf (lowerMessage : string) (seen : list Candidate) (w : option Candidate * Q) : Prop :=
  match fst w with
  | None => snd w = 0%Q /\ forall d, In d seen -> (scoreOf lowerMessage d <= 0)%Q
  | Some c => snd w = scoreOf lowerMessage c /\ (0 < scoreOf lowerMessage c)%Q /\
      firstBest lowerMessage seen c
  end.

(** What [findMatchingAnswer] returns on a store that answers, in terms
    of the winner among the candidates. *)
Definition outcome (db : Database) (agentId : uuid) (userMessage : string)
    (p : Payload) : Prop :=
  let lowerMessage := Js.trim (Js.toLowerCase userMessage) in
  let w := winner lowerMessage (candidates (loadFinal db agentId)) in
  match fst w with
  | Some c => if Qgtb (snd w) (3 # 10) then resolves lowerMessage c p else p = fallback
  | None => p = fallback
  end.


(* ------------------------------------------------------------------ *)
(** ** Views of the store *)
(* ------------------------------------------------------------------ *)

(** The store without its draft questions and its draft answers. *)
Definition finalView (db : Database) : Database :=
  {| Questions := filter (fun q => isFinal (q_status q)) (Questions db);
     Answers := filter (fun a => isFinal (a_status a)) (Answers db);
     QuestionVariants := QuestionVariants db;
     AnswerVariants := AnswerVariants db;
     next_uuid := next_uuid db |}.

(** No question of the agent is published with a published answer. *)
Definition nothingFinal (db : Database) (agentId : uuid) : Prop :=
  forall q, In q (Questions db) -> q_agent_id q = agentId ->
    q_status q = Draft \/
    forall a, In a (Answers db) -> a_question_id a = q_id q -> a_status a = Draft.

(** The store without the question [id]. *)
Definition withoutQuestion (id : uuid) (db : Database) : Database :=
  {| Questions := filter (fun q => negb (q_id q =? id)) (Questions db);
     Answers := Answers db;
     QuestionVariants := QuestionVariants db;
     AnswerVariants := AnswerVariants db;
     next_uuid := next_uuid db |}.


(* ------------------------------------------------------------------ *)
(** ** Stores and requests of the scenarios *)
(* ------------------------------------------------------------------ *)

(** The store of the specification's scenario B: one published question
    with its answer, for the agent [7]. *)
Definition returnsDb : Database :=
  {| Questions :=
       [ {| q_id := 1; q_agent_id := 7;
            question_text := "What is your return policy?"; q_status := Final |} ];
     Answers :=
       [ {| a_id := 2; a_question_id := 1;
            answer_text := "You can return items within 30 days.";
            answer_html := "<p>You can return items within 30 days.</p>";
            a_status := Final |} ];
     QuestionVariants :=
       [ {| qv_id := 3; qv_question_id := 1;
            qv_variant_text := "Could you explain what your return policy?";
            qv_is_approved := true |};
         {| qv_id := 4; qv_question_id := 1;
            qv_variant_text := "which is your return policy?";
            qv_is_approved := true |} ];
     AnswerVariants :=
       [ {| av_id := 5; av_answer_id := 2;
            av_variant_text := "One can return items within 30 days.";
            av_variant_html := "<p>One can return items within 30 days.</p>";
            av_is_approved := true |};
         {| av_id := 6; av_answer_id := 2;
            av_variant_text := "The return action can be performed within 30 days.";
            av_variant_html := "<p>The return action can be performed within 30 days.</p>";
            av_is_approved := true |} ];
     next_uuid := 7 |}.

(** A draft question that matches the utterance word for word, and a
    published question whose answer is a draft. *)
Definition draftsDb : Database :=
  {| Questions :=
       [ {| q_id := 1; q_agent_id := 7;
            question_text := "What is your return policy?"; q_status := Draft |};
         {| q_id := 3; q_agent_id := 7;
            question_text := "What is your return policy?"; q_status := Final |} ];
     Answers :=
       [ {| a_id := 2; a_question_id := 1;
            answer_text := "You can return items within 30 days.";
            answer_html := "<p>You can return items within 30 days.</p>";
            a_status := Final |};
         {| a_id := 4; a_question_id := 3;
            answer_text := "You can return items within 30 days.";
            answer_html := "<p>You can return items within 30 days.</p>";
            a_status := Draft |} ];
     QuestionVariants :=
       [ {| qv_id := 5; qv_question_id := 1;
            qv_variant_text := "What is your return policy?";
            qv_is_approved := true |} ];
     AnswerVariants := [];
     next_uuid := 6 |}.

(** An edit of the question of [returnsDb] that carries no status. *)
Definition editRequest : UpdateRequest :=
  {| params_id := 1;
     body_question_text := "Where is your return policy?";
     body_answer_text := "You can return items within 30 days.";
     body_answer_html := "<p>You can return items within 30 days.</p>";
     body_status := VNull |}.

Definition editedDb : Database :=
  match updateQuestion editRequest (Available returnsDb) zeros with
  | (_, Available db, _) => db
  | (_, Unavailable, _) => returnsDb
  end.


(* ------------------------------------------------------------------ *)
(** ** Runs of the generator *)
(* ------------------------------------------------------------------ *)

(** A computation that returns normally, whatever the draws. *)
Definition returns {A} (m : M A) : Prop :=
  forall r, exists a r', m r = (Ok a, r').

Definition isString (v : value) : Prop := exists s, v = VStr s.




Definition catalogueIds : list VariantId :=
  map (fun entry => NumberId (fst entry + 1)) (indexed techniques).

(** Some rule throws during a run: in the first loop, after the rules
    before it ([pre]) have pushed their entries ([acc]); or in the second
    loop, inside a combination, after the first loop and the
    combinations before it have pushed theirs. *)
Inductive RuleThrows (applyRule : value -> string -> string -> value -> M Paraphrase)
    (originalText : value) (type : string) (htmlContent : value) (r : Rand) : Prop :=
| ThrowsInCatalogue
    (pre post : list (nat * string)) (entry : nat * string)
    (acc : list Variant.t) (r1 r2 : Rand) (e : exn) :
    indexed techniques = pre ++ entry :: post ->
    forEachM (pushVariant applyRule originalText type htmlContent) pre [] r = (Ok acc, r1) ->
    applyRule originalText (snd entry) type htmlContent r1 = (Throw e, r2) ->
    RuleThrows applyRule originalText type htmlContent r
| ThrowsInCombination
    (variants : list Variant.t) (r1 : Rand)
    (pre post : list (nat * list string)) (entry : nat * list string)
    (acc : list Variant.t) (r2 : Rand)
    (before after : list string) (technique : string)
    (result : value * value) (r3 r4 : Rand) (e : exn) :
    forEachM (pushVariant applyRule originalText type htmlContent)
             (indexed techniques) [] r = (Ok variants, r1) ->
    indexed combinations = pre ++ entry :: post ->
    forEachM (pushCreative applyRule originalText type htmlContent) pre [] r1 = (Ok acc, r2) ->
    snd entry = before ++ technique :: after ->
    chainRules applyRule type before (originalText, htmlContent) r2 = (Ok result, r3) ->
    applyRule (fst result) technique type (snd result) r3 = (Throw e, r4) ->
    RuleThrows applyRule originalText type htmlContent r.

(** A catalogue whose third rule throws: the two entries pushed before
    are lost. *)
Definition failingThird (text : value) (technique type : string) (htmlContent : value)
    : M Paraphrase :=
  if String.eqb technique "formalInformal" then throw TypeError
  else applyParaphraseTechnique text technique type htmlContent.



(* ------------------------------------------------------------------ *)
(** ** Shapes of strings                                               *)
(* ------------------------------------------------------------------ *)

(** The string does not begin with white space. *)
Definition noLead (s : string) : bool :=
  match s with
  | EmptyString => true
  | String c _ => negb (Js.isSpace c)
  end.

(** No [<] of the string is followed, anywhere, by a [>]: the string
    holds no tag. *)
Fixpoint tagFree (s : string) : bool :=
  match s with
  | EmptyString => true
  | String c s' =>
      (negb (Ascii.eqb c "<"%char) || negb (Js.hasChar ">"%char s')) && tagFree s'
  end.

(* ------------------------------------------------------------------ *)
(** ** The entries of the generator                                    *)
(* ------------------------------------------------------------------ *)

(** The entry the first loop pushes for the rule of index [index], and
    the entry the second loop pushes for a combination. *)
Definition catalogueEntry (index : nat) (technique : string) (variant : Paraphrase)
    : Variant.t :=
  {| Variant.id := NumberId (index + 1);
     Variant.text := p_text variant;
     Variant.html := orElse (p_html variant) (p_text variant);
     Variant.technique := technique;
     Variant.confidence := confidenceOr (p_confidence variant) (8 # 10) |}.

Definition creativeEntry (index : nat) (combination : list string)
    (resultText : string) (resultHtml : value) : Variant.t :=
  {| Variant.id := StringId ("creative_" ++ decimal (index + 1));
     Variant.text := resultText;
     Variant.html := orElse resultHtml resultText;
     Variant.technique := "combined_" ++ Js.join "_" combination;
     Variant.confidence := 7 # 10 |}.

(** The entry comes from the second loop. *)
Definition isCreative (v : Variant.t) : bool :=
  match Variant.id v with
  | StringId _ => true
  | NumberId _ => false
  end.

(** What every rule returns for the clean text [clean] and the markup
    [h]: a confidence between 0.6 and 0.9 (0.8 when it gives none), and a
    markup that is [h] with the clean text replaced, or [h] itself. *)
Definition ruleShape (clean : string) (h : value) (p : Paraphrase) : Prop :=
  ((6 # 10 <= confidenceOr (p_confidence p) (8 # 10))%Q /\
   (confidenceOr (p_confidence p) (8 # 10) <= 9 # 10)%Q) /\
  (p_html p = VStr (htmlFor h clean (p_text p)) \/
   p_html p = h \/
   p_html p = VStr (orElse (if truthy h then VStr (htmlFor h clean (p_text p)) else h)
                           (p_text p))).

(* ------------------------------------------------------------------ *)
(** ** More views of the store                                         *)
(* ------------------------------------------------------------------ *)

(** The store without the variants that are not approved. *)
Definition approvedView (db : Database) : Database :=
  {| Questions := Questions db;
     Answers := Answers db;
     QuestionVariants := filter qv_is_approved (QuestionVariants db);
     AnswerVariants := filter av_is_approved (AnswerVariants db);
     next_uuid := next_uuid db |}.

(** The store with the questions of one agent only. *)
Definition agentView (agentId : uuid) (db : Database) : Database :=
  {| Questions := filter (fun q => q_agent_id q =? agentId) (Questions db);
     Answers := Answers db;
     QuestionVariants := QuestionVariants db;
     AnswerVariants := AnswerVariants db;
     next_uuid := next_uuid db |}.

(** The payload points into the store: to a published question of the
    agent, to its published answer, and to the text of that answer or of
    one of its approved variants. *)
Definition pointsInto (db : Database) (agentId : uuid) (p : Payload) : Prop :=
  exists q a,
    In q (Questions db) /\ q_agent_id q = agentId /\ q_status q = Final /\
    In a (Answers db) /\ a_question_id a = q_id q /\ a_status a = Final /\
    question_id p = Some (q_id q) /\ answer_id p = Some (a_id a) /\
    ((text p = answer_text a /\ html p = answer_html a) \/
     exists av,
       In av (AnswerVariants db) /\ av_answer_id av = a_id a /\ av_is_approved av = true /\
       text p = av_variant_text av /\ html p = av_variant_html av).

(* ------------------------------------------------------------------ *)
(** ** Keys                                                            *)
(* ------------------------------------------------------------------ *)

(** The keys in use are older than the next fresh key. *)
Definition wellKeyed (db : Database) : Prop :=
  (forall q, In q (Questions db) -> q_id q < next_uuid db) /\
  (forall a, In a (Answers db) -> a_id a < next_uuid db /\ a_question_id a < next_uuid db).

(** A request to create a question, and a store with one agent, used
    below. *)
Definition createRequest : CreateRequest :=
  {| params_agentId := 7;
     new_question_text := "How do I reset my password?";
     new_answer_text := "Use the reset link.";
     new_answer_html := "<p>Use the reset link.</p>" |}.

Definition oneAgent : list Agent :=
  [ {| ag_id := 7; ag_status := Final; access_count := 0 |} ].

Definition chatStore : ChatStore :=
  {| Agents := oneAgent;
     ChatSessions :=
       [ {| cs_id := 20; cs_user_id := 3; cs_agent_id := 7; is_active := true |};
         {| cs_id := 21; cs_user_id := 4; cs_agent_id := 7; is_active := true |} ];
     ChatMessages := [];
     content := returnsDb;
     chat_uuid := 22 |}.


(* ================================================================== *)
(** * Properties                                                       *)
(* ================================================================== *)


(* ------------------------------------------------------------------ *)
(** ** The scorer                                                      *)
(* ------------------------------------------------------------------ *)

Section Scorer.

Lemma count_matches_from (words1 words2 : list string) (n : nat) :
  fold_left
    (fun matches word1 =>
       if existsb (fun word2 => word_hit word1 word2) words2
       then S matches else matches)
    words1 n
  = n + List.length (filter (fun w => existsb (word_hit w) words2) words1).
Proof.
  revert n; induction words1 as [|w ws IH]; intro n; simpl.
  - lia.
  - rewrite IH. destruct (existsb _ words2); simpl; lia.
Qed.

Lemma count_matches_filter (words1 words2 : list string) :
  count_matches words1 words2
  = List.length (filter (fun w => existsb (word_hit w) words2) words1).
Proof. unfold count_matches. now rewrite count_matches_from. Qed.

Lemma count_matches_le (words1 words2 : list string) :
  count_matches words1 words2 <= List.length words1.
Proof. rewrite count_matches_filter. apply filter_length_le. Qed.

Lemma word_hit_sym (a b : string) : word_hit a b = word_hit b a.
Proof. unfold word_hit. apply orb_comm. Qed.

Lemma count_matches_pos (words1 words2 : list string) :
  0 < count_matches words1 words2 <->
  exists x y, In x words1 /\ In y words2 /\ word_hit x y = true.
Proof.
  rewrite count_matches_filter. split.
  - intro H.
    destruct (filter (fun w => existsb (word_hit w) words2) words1) as [|x l] eqn:E;
      [simpl in H; lia|].
    assert (Hx : In x (filter (fun w => existsb (word_hit w) words2) words1))
      by (rewrite E; now left).
    apply filter_In in Hx. destruct Hx as [Hx1 Hx2].
    apply existsb_exists in Hx2. destruct Hx2 as [y [Hy1 Hy2]].
    now exists x, y.
  - intros [x [y [Hx [Hy Hxy]]]].
    assert (Hin : In x (filter (fun w => existsb (word_hit w) words2) words1)).
    { apply filter_In. split; [assumption|].
      apply existsb_exists. now exists y. }
    destruct (filter (fun w => existsb (word_hit w) words2) words1);
      [contradiction | simpl; lia].
Qed.

Lemma Zpos_of_nat (n : nat) : 0 < n -> Z.pos (Pos.of_nat n) = Z.of_nat n.
Proof.
  intro H. rewrite <- positive_nat_Z. now rewrite Nat2Pos.id by lia.
Qed.

(** The score is positive exactly when some token of one string hits
    some token of the other. *)
Lemma calculateSimilarity_pos (a b : string) :
  (0 < calculateSimilarity a b)%Q <->
  exists x y, In x (words_of a) /\ In y (words_of b) /\ word_hit x y = true.
Proof.
  unfold calculateSimilarity.
  destruct (words_of a) as [|x xs] eqn:Ea; cbn [List.length Nat.eqb orb].
  - split; [intro H; discriminate H | intros [x [y [[] _]]]].
  - destruct (words_of b) as [|y ys] eqn:Eb; cbn [List.length Nat.eqb orb].
    + split; [intro H; discriminate H | intros [x' [y' [_ [[] _]]]]].
    + cbv zeta. rewrite <- count_matches_pos.
      unfold Qlt; simpl Qnum; simpl Qden. lia.
Qed.

End Scorer.

(** C5 (as stated): the score is not symmetric.  With the tokens
    [abc], [abcd] on one side and [abc] on the other, both tokens of the
    first string contain the token of the second, which gives 2/2 one
    way and 1/2 the other way. *)
Lemma calculateSimilarity_not_symmetric :
  ~ (forall a b : string, (calculateSimilarity a b == calculateSimilarity b a)%Q).
Proof.
  intro H. specialize (H "abc abcd" "abc").
  vm_compute in H. discriminate H.
Qed.

(** C5 (amended): the score is symmetric in being zero or positive: it is
    positive for [(a, b)] exactly when it is positive for [(b, a)]. *)
Theorem calculateSimilarity_positive_sym (a b : string) :
  (0 < calculateSimilarity a b)%Q <-> (0 < calculateSimilarity b a)%Q.
Proof.
  rewrite !calculateSimilarity_pos.
  split; intros [x [y [Hx [Hy Hxy]]]]; exists y, x;
    (repeat split; try assumption); now rewrite word_hit_sym.
Qed.

(** C6: the score lies in [[0, 1]], and it is [0] as soon as one of the
    two strings has no token of more than two characters; the empty
    string is such a string. *)
Theorem calculateSimilarity_range (a b : string) :
  ((0 <= calculateSimilarity a b)%Q /\ (calculateSimilarity a b <= 1)%Q) /\
  ((words_of a = [] \/ words_of b = []) -> calculateSimilarity a b = 0%Q) /\
  words_of "" = [].
Proof.
  split; [|split].
  - unfold calculateSimilarity.
    destruct (words_of a) as [|x xs] eqn:Ea; cbn [List.length Nat.eqb orb];
      [split; discriminate|].
    destruct (words_of b) as [|y ys] eqn:Eb; cbn [List.length Nat.eqb orb];
      [split; discriminate|].
    cbv zeta.
    pose proof (count_matches_le (x :: xs) (y :: ys)) as Hle.
    cbn [List.length] in Hle.
    unfold Qle; cbn [Qnum Qden].
    rewrite Zpos_of_nat by lia. lia.
  - intros [H | H]; unfold calculateSimilarity; rewrite H; simpl; [reflexivity|].
    now rewrite orb_true_r.
  - reflexivity.
Qed.

Lemma calculateSimilarity_range_witness :
  calculateSimilarity "" "return policy" = 0%Q /\
  calculateSimilarity "return policy" "to be or" = 0%Q.
Proof.
  split.
  - apply (calculateSimilarity_range "" "return policy"). left. reflexivity.
  - apply (calculateSimilarity_range "return policy" "to be or"). right. reflexivity.
Defined.

(* ------------------------------------------------------------------ *)
(** ** Loops, comparisons and fair draws                               *)
(* ------------------------------------------------------------------ *)

Lemma Qgtb_true (a b : Q) : Qgtb a b = true <-> (b < a)%Q.
Proof.
  unfold Qgtb. rewrite negb_true_iff. split; intro H.
  - apply Qnot_le_lt. intro Hle. apply Qle_bool_iff in Hle. congruence.
  - destruct (Qle_bool a b) eqn:E; [|reflexivity].
    apply Qle_bool_iff in E. exfalso. exact (Qlt_not_le _ _ H E).
Qed.

Lemma Qgtb_false (a b : Q) : Qgtb a b = false <-> (a <= b)%Q.
Proof.
  unfold Qgtb. rewrite negb_false_iff. apply Qle_bool_iff.
Qed.

Lemma fair_next (r : Rand) : fair r -> fair (next r).
Proof. intros H n. apply H. Qed.

Lemma forEachM_app {A S} (body : S -> A -> M S) (l1 l2 : list A) (s : S) (r : Rand) :
  forEachM body (l1 ++ l2) s r
  = match forEachM body l1 s r with
    | (Ok s', r') => forEachM body l2 s' r'
    | (Throw e, r') => (Throw e, r')
    end.
Proof.
  revert s r; induction l1 as [|x l1 IH]; intros s r; simpl.
  - reflexivity.
  - unfold bind. destruct (body s x r) as [[s'|e] r']; [apply IH | reflexivity].
Qed.

(** [Math.floor(x * n)] is an index of an array of [n > 0] elements when
    [x] is a fair draw. *)
Lemma floor_index (x : Q) (n : nat) :
  (0 <= x)%Q -> (x < 1)%Q -> 0 < n ->
  (0 <= Math_floor (x * inject_Z (Z.of_nat n)) < Z.of_nat n)%Z.
Proof.
  intros H0 H1 Hn. unfold Math_floor.
  assert (Hpos : (0 < inject_Z (Z.of_nat n))%Q).
  { change 0%Q with (inject_Z 0). rewrite <- Zlt_Qlt. lia. }
  split.
  - rewrite <- (Qfloor_Z 0). apply Qfloor_resp_le.
    change (inject_Z 0) with 0%Q.
    apply Qmult_le_0_compat; [assumption | now apply Qlt_le_weak].
  - rewrite Zlt_Qlt.
    apply Qle_lt_trans with (x * inject_Z (Z.of_nat n))%Q; [apply Qfloor_le|].
    rewrite <- (Qmult_1_l (inject_Z (Z.of_nat n))) at 2.
    now apply Qmult_lt_r.
Qed.

Lemma at_index_fair {A} (array : list A) (x : Q) :
  (0 <= x)%Q -> (x < 1)%Q -> 0 < List.length array ->
  exists a, at_index array (Math_floor (x * inject_Z (Z.of_nat (List.length array)))) = Some a
            /\ In a array.
Proof.
  intros H0 H1 Hn.
  destruct (floor_index x (List.length array) H0 H1 Hn) as [Hlo Hhi].
  unfold at_index.
  destruct (Z.ltb_spec (Math_floor (x * inject_Z (Z.of_nat (List.length array)))) 0);
    [lia|].
  destruct (nth_error array
              (Z.to_nat (Math_floor (x * inject_Z (Z.of_nat (List.length array))))))
    as [a|] eqn:E.
  - exists a. split; [reflexivity | eapply nth_error_In; eassumption].
  - apply nth_error_None in E. lia.
Qed.

(* ------------------------------------------------------------------ *)
(** ** The matcher as a search over candidates                         *)
(* ------------------------------------------------------------------ *)

Section Search.

Variable lowerMessage : string.

Lemma forEachM_map {A B S} (body : S -> B -> M S) (f : A -> B) (l : list A) (s : S) (r : Rand) :
  forEachM body (map f l) s r = forEachM (fun s a => body s (f a)) l s r.
Proof.
  revert s r; induction l as [|x l IH]; intros s r; simpl; [reflexivity|].
  unfold bind. destruct (body s (f x) r) as [[s'|e] r']; [apply IH | reflexivity].
Qed.

Lemma checkQuestion_candidates (q : QuestionWith) (best : Best) (r : Rand) :
  checkQuestion lowerMessage best q r
  = forEachM (stepCandidate lowerMessage) (candidatesOf q) best r.
Proof.
  unfold checkQuestion, candidatesOf.
  destruct (qw_answer q) as [a|]; [|reflexivity].
  cbn [forEachM]. unfold bind at 1. cbn [stepCandidate c_variant ret].
  rewrite forEachM_map. reflexivity.
Qed.

(** The nested loops are one loop over the candidates. *)
Lemma questions_loop_candidates (qs : list QuestionWith) (best : Best) (r : Rand) :
  forEachM (checkQuestion lowerMessage) qs best r
  = forEachM (stepCandidate lowerMessage) (candidates qs) best r.
Proof.
  revert best r; induction qs as [|q qs IH]; intros best r; [reflexivity|].
  cbn [forEachM candidates flat_map]. unfold bind.
  rewrite forEachM_app, checkQuestion_candidates.
  destruct (forEachM (stepCandidate lowerMessage) (candidatesOf q) best r)
    as [[best'|e] r']; [apply IH | reflexivity].
Qed.

Lemma selectedAnswer_fair (answer : AnswerWith) (r : Rand) :
  fair r ->
  exists t h r',
    selectedAnswer answer r = (Ok (t, h), r') /\ fair r' /\
    match aw_variants answer with
    | _ :: _ => exists av, In av (aw_variants answer)
                           /\ t = av_variant_text av /\ h = av_variant_html av
    | [] => t = answer_text (aw_row answer) /\ h = answer_html (aw_row answer)
    end.
Proof.
  intro Hr. unfold selectedAnswer.
  destruct (aw_variants answer) as [|v vs] eqn:E.
  - exists (answer_text (aw_row answer)), (answer_html (aw_row answer)), r.
    simpl. auto.
  - assert (Hlen : (0 <? List.length (v :: vs)) = true) by reflexivity.
    rewrite Hlen. unfold bind, Math_random.
    destruct (Hr 0) as [H0 H1].
    destruct (at_index_fair (v :: vs) (r 0) H0 H1) as [av [Hat Hin]];
      [simpl; lia|].
    rewrite Hat.
    exists (av_variant_text av), (av_variant_html av), (next r).
    split; [reflexivity|]. split; [now apply fair_next|].
    exists av. auto.
Qed.

Lemma stepCandidate_tracks (best : Best) (w : option Candidate * Q) (c : Candidate)
    (r : Rand) :
  fair r -> tracks lowerMessage best w ->
  exists best' r',
    stepCandidate lowerMessage best c r = (Ok best', r') /\ fair r' /\
    tracks lowerMessage best' (better lowerMessage w c).
Proof.
  intros Hr [Hs Hw]. unfold stepCandidate, better.
  destruct (c_variant c) as [v|] eqn:Ev.
  - unfold checkVariant.
    replace (calculateSimilarity lowerMessage (Js.toLowerCase (qv_variant_text v)))
      with (scoreOf lowerMessage c)
      by (unfold scoreOf, candidateText; now rewrite Ev).
    rewrite Hs.
    destruct (Qgtb (scoreOf lowerMessage c) (snd w)) eqn:G.
    + destruct (selectedAnswer_fair (c_answer c) r Hr) as [t [h [r' [Hsel [Hr' Hres]]]]].
      unfold bind. rewrite Hsel. cbn [ret fst snd].
      eexists; exists r'. split; [reflexivity|]. split; [assumption|].
      split; [reflexivity|]. cbn [fst].
      eexists; split; [reflexivity|].
      unfold resolves; cbn [question_id answer_id score text html].
      split; [reflexivity|]. split; [reflexivity|]. split; [reflexivity|].
      unfold resolvesTo. rewrite Ev.
      destruct (aw_variants (c_answer c)); assumption.
    + exists best, r. split; [reflexivity|]. split; [assumption|].
      split; assumption.
  - cbn [ret]. rewrite Hs.
    destruct (Qgtb (scoreOf lowerMessage c) (snd w)) eqn:G.
    + eexists; exists r. split; [reflexivity|]. split; [assumption|].
      split; [reflexivity|]. cbn [fst].
      eexists; split; [reflexivity|].
      unfold resolves; cbn [question_id answer_id score text html].
      split; [reflexivity|]. split; [reflexivity|]. split; [reflexivity|].
      unfold resolvesTo. rewrite Ev. split; reflexivity.
    + exists best, r. split; [reflexivity|]. split; [assumption|].
      split; assumption.
Qed.

Lemma candidates_loop_tracks (cands : list Candidate) (best : Best)
    (w : option Candidate * Q) (r : Rand) :
  fair r -> tracks lowerMessage best w ->
  exists best' r',
    forEachM (stepCandidate lowerMessage) cands best r = (Ok best', r') /\ fair r' /\
    tracks lowerMessage best' (fold_left (better lowerMessage) cands w).
Proof.
  revert best w r; induction cands as [|c cands IH]; intros best w r Hr Ht.
  - exists best, r. auto.
  - destruct (stepCandidate_tracks best w c r Hr Ht) as [b1 [r1 [E1 [Hr1 Ht1]]]].
    destruct (IH b1 _ r1 Hr1 Ht1) as [b2 [r2 [E2 [Hr2 Ht2]]]].
    exists b2, r2. cbn [forEachM fold_left]. unfold bind. rewrite E1.
    auto.
Qed.

End Search.

(* ------------------------------------------------------------------ *)
(** ** What the winner is                                              *)
(* ------------------------------------------------------------------ *)

Section Winner.

Variable lowerMessage : string.

Local Notation "'sc'" := (scoreOf lowerMessage).

Lemma firstBest_bound (cands : list Candidate) (c d : Candidate) :
  firstBest lowerMessage cands c -> In d cands -> (sc d <= sc c)%Q.
Proof.
  intros [pre [post [E [Hpre Hpost]]]] Hd. subst cands.
  apply in_app_or in Hd. destruct Hd as [Hd | [Hd | Hd]].
  - apply Qlt_le_weak. now apply Hpre.
  - subst d. apply Qle_refl.
  - now apply Hpost.
Qed.

Lemma better_winnerOf (seen : list Candidate) (w : option Candidate * Q) (c : Candidate) :
  winnerOf lowerMessage seen w ->
  winnerOf lowerMessage (seen ++ [c]) (better lowerMessage w c).
Proof.
  intro H. unfold better.
  destruct (Qgtb (sc c) (snd w)) eqn:G.
  - apply Qgtb_true in G. unfold winnerOf in *. cbn [fst snd].
    destruct (fst w) as [c0|].
    + destruct H as [Hs [Hpos Hfb]]. rewrite Hs in G.
      split; [reflexivity|]. split; [eapply Qlt_trans; eassumption|].
      exists seen, []. split; [reflexivity|]. split.
      * intros d Hd. eapply Qle_lt_trans; [|exact G].
        eapply firstBest_bound; eassumption.
      * intros d [].
    + destruct H as [Hs Hall]. rewrite Hs in G.
      split; [reflexivity|]. split; [assumption|].
      exists seen, []. split; [reflexivity|]. split.
      * intros d Hd. eapply Qle_lt_trans; [now apply Hall | exact G].
      * intros d [].
  - apply Qgtb_false in G. unfold winnerOf in *.
    destruct (fst w) as [c0|].
    + destruct H as [Hs [Hpos [pre [post [E [Hpre Hpost]]]]]]. rewrite Hs in G.
      split; [assumption|]. split; [assumption|].
      exists pre, (post ++ [c]). split.
      * rewrite E. rewrite <- app_assoc. reflexivity.
      * split; [assumption|].
        intros d Hd. apply in_app_or in Hd. destruct Hd as [Hd | [Hd | []]].
        -- now apply Hpost.
        -- now subst d.
    + destruct H as [Hs Hall]. rewrite Hs in G.
      split; [assumption|].
      intros d Hd. apply in_app_or in Hd. destruct Hd as [Hd | [Hd | []]].
      * now apply Hall.
      * now subst d.
Qed.

Lemma fold_better_winnerOf (cands seen : list Candidate) (w : option Candidate * Q) :
  winnerOf lowerMessage seen w ->
  winnerOf lowerMessage (seen ++ cands) (fold_left (better lowerMessage) cands w).
Proof.
  revert seen w; induction cands as [|c cands IH]; intros seen w H.
  - now rewrite app_nil_r.
  - cbn [fold_left].
    replace (seen ++ c :: cands) with ((seen ++ [c]) ++ cands)
      by (rewrite <- app_assoc; reflexivity).
    apply IH. now apply better_winnerOf.
Qed.

Lemma winner_winnerOf (cands : list Candidate) :
  winnerOf lowerMessage cands (winner lowerMessage cands).
Proof.
  apply (fold_better_winnerOf cands [] (None, 0%Q)).
  split; [reflexivity | intros d []].
Qed.

End Winner.

Lemma findMatchingAnswer_outcome (db : Database) (agentId : uuid)
    (userMessage : string) (r : Rand) :
  fair r ->
  exists p r',
    findMatchingAnswer (Available db) agentId userMessage r = (Ok p, r') /\
    fair r' /\ outcome db agentId userMessage p.
Proof.
  intro Hr. unfold findMatchingAnswer, catch, findMatchingAnswer_try, outcome.
  cbv zeta. unfold bind at 1. cbn [Question_findAll_final lift].
  unfold bind at 1. rewrite questions_loop_candidates.
  set (lowerMessage := Js.trim (Js.toLowerCase userMessage)).
  set (cands := candidates (loadFinal db agentId)).
  destruct (candidates_loop_tracks lowerMessage cands (None, 0%Q) (None, 0%Q) r Hr)
    as [best [r' [E [Hr' [Hs Ht]]]]]; [split; reflexivity|].
  fold (winner lowerMessage cands) in Hs, Ht.
  rewrite E.
  destruct (fst (winner lowerMessage cands)) as [c|].
  - destruct Ht as [p [Hp Hres]]. rewrite Hp, Hs.
    destruct (Qgtb (snd (winner lowerMessage cands)) (3 # 10)).
    + exists p, r'. auto.
    + exists fallback, r'. auto.
  - rewrite Ht. exists fallback, r'. auto.
Qed.


Lemma halves_fair : fair halves.
Proof. intro n; unfold halves, Qle, Qlt; simpl; lia. Qed.


(** Scenarios B and C of the specification. *)
Example scenario_B :
  fst (findMatchingAnswer (Available returnsDb) 7 "what's the return policy" zeros)
  = Ok {| question_id := Some 1; answer_id := Some 2;
          text := "You can return items within 30 days.";
          html := "<p>You can return items within 30 days.</p>";
          score := 3 # 4 |}.
Proof. vm_compute. reflexivity. Qed.

Example scenario_C :
  fst (findMatchingAnswer (Available returnsDb) 7 "tell me about quantum computing" zeros)
  = Ok fallback.
Proof. vm_compute. reflexivity. Qed.

(** C7: the matcher returns a payload whatever happens: the value of the
    [try] block when it completes, and the technical-difficulties
    fallback, whose ids are null, when anything in it throws; a store
    that rejects the query is such a case. *)
Theorem findMatchingAnswer_never_throws (st : Storage) (agentId : uuid)
    (userMessage : string) (r : Rand) :
  (exists p r',
      findMatchingAnswer st agentId userMessage r = (Ok p, r') /\
      (findMatchingAnswer_try st agentId userMessage r = (Ok p, r')
       \/ ((exists e, findMatchingAnswer_try st agentId userMessage r = (Throw e, r'))
           /\ p = technicalFallback))) /\
  findMatchingAnswer Unavailable agentId userMessage r = (Ok technicalFallback, r) /\
  question_id technicalFallback = None /\ answer_id technicalFallback = None.
Proof.
  split; [|split; [reflexivity | split; reflexivity]].
  unfold findMatchingAnswer, catch.
  destruct (findMatchingAnswer_try st agentId userMessage r) as [[p|e] r'].
  - exists p, r'. auto.
  - exists technicalFallback, r'. split; [reflexivity|]. right. split; [|reflexivity].
    exists e. reflexivity.
Qed.



(** The two runs of the witness do differ in the text they return. *)
Example random_choice_changes_text :
  option_map text
    (match fst (findMatchingAnswer (Available returnsDb) 7 "which is the return policy" zeros)
     with Ok p => Some p | Throw _ => None end)
  = Some "One can return items within 30 days." /\
  option_map text
    (match fst (findMatchingAnswer (Available returnsDb) 7 "which is the return policy" halves)
     with Ok p => Some p | Throw _ => None end)
  = Some "The return action can be performed within 30 days.".
Proof. split; vm_compute; reflexivity. Qed.

(* ------------------------------------------------------------------ *)
(** ** Drafts are invisible                                            *)
(* ------------------------------------------------------------------ *)

Section Drafts.

Lemma find_filter {A} (f p : A -> bool) (l : list A) :
  (forall x, f x = true -> p x = true) ->
  find f (filter p l) = find f l.
Proof.
  intro H. induction l as [|x l IH]; [reflexivity|]. simpl.
  destruct (p x) eqn:P; simpl.
  - destruct (f x); [reflexivity | exact IH].
  - destruct (f x) eqn:F; [|exact IH].
    apply H in F. congruence.
Qed.

Lemma flat_map_filter_in {A B} (f : A -> list B) (p : A -> bool) (l : list A) :
  (forall x, In x l -> p x = false -> f x = []) ->
  flat_map f (filter p l) = flat_map f l.
Proof.
  intro H. induction l as [|x l IH]; [reflexivity|]. simpl.
  destruct (p x) eqn:P; simpl.
  - rewrite IH; [reflexivity|]. intros y Hy. apply H. now right.
  - rewrite (H x (or_introl eq_refl) P), IH; [reflexivity|].
    intros y Hy. apply H. now right.
Qed.

Lemma flat_map_ext_in {A B} (f g : A -> list B) (l : list A) :
  (forall x, In x l -> f x = g x) -> flat_map f l = flat_map g l.
Proof.
  intro H. induction l as [|x l IH]; [reflexivity|]. simpl.
  rewrite (H x (or_introl eq_refl)), IH; [reflexivity|].
  intros y Hy. apply H. now right.
Qed.

Lemma finalAnswerOf_finalView (db : Database) (q : Question) :
  finalAnswerOf (finalView db) q = finalAnswerOf db q.
Proof.
  unfold finalAnswerOf, finalView; cbn [Answers].
  apply find_filter. intros a Ha. now apply andb_true_iff in Ha.
Qed.

Lemma loadFinal_finalView (db : Database) (agentId : uuid) :
  loadFinal (finalView db) agentId = loadFinal db agentId.
Proof.
  unfold loadFinal. cbn [Questions finalView].
  rewrite flat_map_filter_in.
  - apply flat_map_ext_in. intros q _.
    rewrite finalAnswerOf_finalView. reflexivity.
  - intros q _ Hq. rewrite Hq, andb_false_r. reflexivity.
Qed.

Lemma loadFinal_nothingFinal (db : Database) (agentId : uuid) :
  nothingFinal db agentId -> loadFinal db agentId = [].
Proof.
  intro H. unfold loadFinal.
  assert (G : forall l, (forall q, In q l -> In q (Questions db)) ->
            flat_map
              (fun q =>
                 if (q_agent_id q =? agentId) && isFinal (q_status q) then
                   match finalAnswerOf db q with
                   | Some a =>
                       [ {| qw_row := q;
                            qw_answer := Some {| aw_row := a;
                                                 aw_variants := approvedAnswerVariants db a |};
                            qw_variants := approvedQuestionVariants db q |} ]
                   | None => []
                   end
                 else []) l = []).
  { induction l as [|q l IH]; intro Hl; [reflexivity|]. simpl.
    rewrite IH by (intros; apply Hl; now right). rewrite app_nil_r.
    destruct (Nat.eqb_spec (q_agent_id q) agentId) as [Ea|]; [|reflexivity].
    destruct (q_status q) eqn:Es; [reflexivity|]. simpl.
    destruct (finalAnswerOf db q) as [a|] eqn:Ef; [|reflexivity].
    exfalso. unfold finalAnswerOf in Ef.
    apply find_some in Ef. destruct Ef as [Hin Ha].
    apply andb_true_iff in Ha. destruct Ha as [Hq Hs].
    apply Nat.eqb_eq in Hq.
    destruct (H q (Hl q (or_introl eq_refl)) Ea) as [D | D]; [congruence|].
    rewrite (D a Hin Hq) in Hs. discriminate. }
  apply G. auto.
Qed.

End Drafts.

(** C4: the matcher sees the published questions with a published
    answer and nothing else: its result on a store is its result on the
    store without the draft questions and the draft answers; and when an
    agent has no published question with a published answer, the result
    is the no-information fallback, whatever the drafts say. *)
Theorem drafts_are_invisible (db : Database) (agentId : uuid)
    (userMessage : string) (r : Rand) :
  findMatchingAnswer (Available db) agentId userMessage r
  = findMatchingAnswer (Available (finalView db)) agentId userMessage r
  /\
  (nothingFinal db agentId ->
   findMatchingAnswer (Available db) agentId userMessage r = (Ok fallback, r)).
Proof.
  split.
  - unfold findMatchingAnswer, catch, findMatchingAnswer_try. cbv zeta.
    unfold bind at 1 3. cbn [Question_findAll_final lift].
    now rewrite loadFinal_finalView.
  - intro H.
    unfold findMatchingAnswer, catch, findMatchingAnswer_try. cbv zeta.
    unfold bind at 1. cbn [Question_findAll_final lift].
    rewrite (loadFinal_nothingFinal db agentId H). reflexivity.
Qed.

Lemma draftsDb_nothingFinal : nothingFinal draftsDb 7.
Proof.
  intros q Hq _. simpl in Hq.
  destruct Hq as [Hq | [Hq | []]]; subst q; [left; reflexivity|].
  right. intros a Ha Hid. simpl in Ha.
  destruct Ha as [Ha | [Ha | []]]; subst a; [discriminate Hid | reflexivity].
Qed.

Lemma drafts_are_invisible_witness :
  calculateSimilarity "what is your return policy?"
    (Js.toLowerCase "What is your return policy?") = (4 # 4)%Q /\
  findMatchingAnswer (Available draftsDb) 7 "What is your return policy?" zeros
  = (Ok fallback, zeros).
Proof.
  split; [reflexivity|].
  exact (proj2 (drafts_are_invisible draftsDb 7 "What is your return policy?" zeros)
               draftsDb_nothingFinal).
Defined.

(* ------------------------------------------------------------------ *)
(** ** The rules return                                                *)
(* ------------------------------------------------------------------ *)

Section Returns.

Lemma returns_ret {A} (a : A) : returns (ret a).
Proof. intro r. now exists a, r. Qed.

Lemma returns_bind {A B} (m : M A) (k : A -> M B) :
  returns m -> (forall a, returns (k a)) -> returns (x <- m ;; k x).
Proof.
  intros Hm Hk r. destruct (Hm r) as [a [r1 E1]].
  destruct (Hk a r1) as [b [r2 E2]].
  exists b, r2. unfold bind. now rewrite E1.
Qed.

Lemma returns_random : returns Math_random.
Proof. intro r. now exists (r 0), (next r). Qed.

Lemma returns_forEachM {A S} (body : S -> A -> M S) (array : list A) (s : S) :
  (forall s x, returns (body s x)) -> returns (forEachM body array s).
Proof.
  intro H. revert s; induction array as [|x array IH]; intro s; cbn [forEachM].
  - apply returns_ret.
  - apply returns_bind; [apply H | exact IH].
Qed.

Lemma returns_if {A} (b : bool) (m1 m2 : M A) :
  returns m1 -> returns m2 -> returns (if b then m1 else m2).
Proof. now destruct b. Qed.

Lemma returns_pick (array : list string) : returns (pick array).
Proof.
  unfold pick. apply returns_bind; [apply returns_random | intro; apply returns_ret].
Qed.

Lemma returns_replaceSome (threshold : Q) (map : list (string * string)) (text : string) :
  returns (replaceSome threshold map text).
Proof.
  unfold replaceSome. apply returns_forEachM. intros s x.
  apply returns_bind; [apply returns_random | intro; apply returns_ret].
Qed.

End Returns.

Ltac returns_step :=
  lazymatch goal with
  | |- returns (ret _) => apply returns_ret
  | |- returns Math_random => apply returns_random
  | |- returns (pick _) => apply returns_pick
  | |- returns (replaceSome _ _ _) => apply returns_replaceSome
  | |- returns (bind _ _) => apply returns_bind; [|intro]
  | |- returns (forEachM _ _ _) => apply returns_forEachM; intros
  | |- returns (if _ then _ else _) => apply returns_if
  | |- returns (let _ := _ in _) => cbv zeta
  end.

Section RulesReturn.

Variables (text type : string) (htmlContent : value).

Lemma synonymReplacement_returns : returns (synonymReplacement text type htmlContent).
Proof. unfold synonymReplacement. repeat returns_step. Qed.

Lemma sentenceRestructuring_returns : returns (sentenceRestructuring text type htmlContent).
Proof. unfold sentenceRestructuring. repeat returns_step. Qed.

Lemma formalInformalSwitch_returns : returns (formalInformalSwitch text type htmlContent).
Proof. unfold formalInformalSwitch. repeat returns_step. Qed.

Lemma activePassiveSwitch_returns : returns (activePassiveSwitch text type htmlContent).
Proof. unfold activePassiveSwitch. repeat returns_step. Qed.

Lemma questionStyleVariation_returns : returns (questionStyleVariation text type htmlContent).
Proof. unfold questionStyleVariation. repeat returns_step. Qed.

Lemma expandContract_returns : returns (expandContract text type htmlContent).
Proof. unfold expandContract. repeat returns_step. Qed.

Lemma changeOrder_returns : returns (changeOrder text type htmlContent).
Proof. unfold changeOrder. repeat returns_step. Qed.

Lemma shiftEmphasis_returns : returns (shiftEmphasis text type htmlContent).
Proof. unfold shiftEmphasis. repeat returns_step. Qed.

Lemma changePerspective_returns : returns (changePerspective text type htmlContent).
Proof. unfold changePerspective. repeat returns_step. Qed.

Lemma contextualVariation_returns : returns (contextualVariation text type htmlContent).
Proof. unfold contextualVariation. repeat returns_step. Qed.

End RulesReturn.

(** On a string, every rule of the catalogue returns. *)
Lemma applyParaphraseTechnique_returns (s technique type : string) (htmlContent : value) :
  returns (applyParaphraseTechnique (VStr s) technique type htmlContent).
Proof.
  unfold applyParaphraseTechnique, stripHtml.
  apply returns_bind; [apply returns_ret | intro cleanText].
  repeat (lazymatch goal with
          | |- returns (if _ then _ else _) => apply returns_if
          end);
    lazymatch goal with
    | |- returns (synonymReplacement _ _ _) => apply synonymReplacement_returns
    | |- returns (sentenceRestructuring _ _ _) => apply sentenceRestructuring_returns
    | |- returns (formalInformalSwitch _ _ _) => apply formalInformalSwitch_returns
    | |- returns (activePassiveSwitch _ _ _) => apply activePassiveSwitch_returns
    | |- returns (questionStyleVariation _ _ _) => apply questionStyleVariation_returns
    | |- returns (expandContract _ _ _) => apply expandContract_returns
    | |- returns (changeOrder _ _ _) => apply changeOrder_returns
    | |- returns (shiftEmphasis _ _ _) => apply shiftEmphasis_returns
    | |- returns (changePerspective _ _ _) => apply changePerspective_returns
    | |- returns (contextualVariation _ _ _) => apply contextualVariation_returns
    | |- returns (ret _) => apply returns_ret
    end.
Qed.

(* ------------------------------------------------------------------ *)
(** ** The generator, for any catalogue of rules                       *)
(* ------------------------------------------------------------------ *)

Section SubseqFacts.

Context {A : Type}.







End SubseqFacts.

Section AnyRules.

Variable applyRule : value -> string -> string -> value -> M Paraphrase.
Variables (originalText : value) (type : string) (htmlContent : value).

Local Notation "'push'" := (pushVariant applyRule originalText type htmlContent).
Local Notation "'pushC'" := (pushCreative applyRule originalText type htmlContent).

(** The first loop pushes one entry for every rule it runs. *)
Lemma catalogue_loop_entries (entries : list (nat * string)) (acc : list Variant.t)
    (r : Rand) (vs : list Variant.t) (r' : Rand) :
  forEachM push entries acc r = (Ok vs, r') ->
  exists new,
    vs = acc ++ new /\
    map Variant.technique new = map snd entries /\
    map Variant.id new = map (fun entry => NumberId (fst entry + 1)) entries.
Proof.
  revert acc r; induction entries as [|[i t] entries IH]; intros acc r H.
  - cbn in H. inversion H; subst. exists []. now rewrite app_nil_r.
  - cbn [forEachM] in H. unfold bind at 1 in H.
    unfold pushVariant at 1 in H. unfold bind at 1 in H. cbn [fst snd] in H.
    destruct (applyRule originalText t type htmlContent r) as [[p|e] r1];
      [|discriminate H].
    cbn [keepVariant ret] in H.
    apply IH in H. destruct H as [new [E [Ht Hi]]].
    eexists (_ :: new). split.
    + rewrite E. rewrite <- app_assoc. reflexivity.
    + cbn [map Variant.technique Variant.id fst snd]. now rewrite Ht, Hi.
Qed.


(** [generateVariants] returns: the [catch] sees to it. *)
Lemma generateVariantsWith_returns :
  returns (generateVariantsWith applyRule originalText type htmlContent).
Proof.
  intro r. unfold generateVariantsWith, catch.
  destruct (generateVariants_try applyRule originalText type htmlContent r)
    as [[vs|e] r'].
  - now exists vs, r'.
  - now exists [], r'.
Qed.



End AnyRules.

(* ------------------------------------------------------------------ *)
(** ** A rule that throws                                              *)
(* ------------------------------------------------------------------ *)

(** C8: [generateVariants] returns a list whatever the rules do, and
    when a rule throws, in either loop, it returns the empty list: the
    entries pushed before are dropped. *)
Theorem generateVariants_swallows_rule_failure
    (applyRule : value -> string -> string -> value -> M Paraphrase)
    (originalText : value) (type : string) (htmlContent : value) (r : Rand) :
  (exists vs r', generateVariantsWith applyRule originalText type htmlContent r = (Ok vs, r'))
  /\
  (RuleThrows applyRule originalText type htmlContent r ->
   exists r', generateVariantsWith applyRule originalText type htmlContent r = (Ok [], r')).
Proof.
  split; [apply generateVariantsWith_returns|].
  intro H. unfold generateVariantsWith, catch, generateVariants_try.
  destruct H as [pre post entry acc r1 r2 e Hsplit Hpre Hthrow
                |variants r1 pre post entry acc r2 before after technique result r3 r4 e
                   Hcat Hsplit Hpre Hcomb Hchain Hthrow].
  - unfold bind at 1. rewrite Hsplit, forEachM_app, Hpre.
    cbn [forEachM]. unfold bind at 1. unfold pushVariant at 1. unfold bind at 1.
    rewrite Hthrow. now exists r2.
  - unfold bind at 1. rewrite Hcat.
    unfold bind at 1. unfold generateCreativeVariantsWith.
    rewrite Hsplit, forEachM_app, Hpre.
    cbn [forEachM]. unfold bind at 1. unfold pushCreative at 1. unfold bind at 1.
    unfold chainRules at 1. rewrite Hcomb, forEachM_app.
    unfold chainRules in Hchain. rewrite Hchain.
    cbn [forEachM]. unfold bind at 1 2. rewrite Hthrow. now exists r4.
Qed.

(** A source text that is not a string makes the first rule throw. *)
Lemma generateVariants_swallows_rule_failure_witness :
  exists r', generateVariants VNull "question" VNull zeros = (Ok [], r').
Proof.
  apply (generateVariants_swallows_rule_failure
           applyParaphraseTechnique VNull "question" VNull zeros).
  apply (ThrowsInCatalogue applyParaphraseTechnique VNull "question" VNull zeros
           [] (tl (indexed techniques)) (0, "synonymReplacement") [] zeros zeros TypeError);
    reflexivity.
Defined.

Example failingThird_loses_entries :
  fst (forEachM (pushVariant failingThird (VStr "How do I reset my password?") "question" VNull)
                (firstn 2 (indexed techniques)) [] zeros)
  = Ok [ {| Variant.id := NumberId 1;
            Variant.text := "How do I reset my password?";
            Variant.html := "How do I reset my password?";
            Variant.technique := "synonymReplacement";
            Variant.confidence := 9 # 10 |};
         {| Variant.id := NumberId 2;
            Variant.text := "What is the process to reset my password?";
            Variant.html := "What is the process to reset my password?";
            Variant.technique := "sentenceRestructuring";
            Variant.confidence := 8 # 10 |} ]
  /\
  fst (generateVariantsWith failingThird (VStr "How do I reset my password?") "question"
                            VNull zeros)
  = Ok [].
Proof. split; vm_compute; reflexivity. Qed.

(* ------------------------------------------------------------------ *)
(** ** The entries of a run                                            *)
(* ------------------------------------------------------------------ *)







(* ------------------------------------------------------------------ *)
(** ** Entries that repeat the source                                  *)
(* ------------------------------------------------------------------ *)

Section Unchanged.

Lemma forEachM_returns_inv {A S} (P : S -> Prop) (body : S -> A -> M S)
    (array : list A) (s : S) (r : Rand) :
  P s ->
  (forall s x r, P s -> exists s' r', body s x r = (Ok s', r') /\ P s') ->
  exists s' r', forEachM body array s r = (Ok s', r') /\ P s'.
Proof.
  intros Hs Hbody. revert s r Hs; induction array as [|x array IH]; intros s r Hs.
  - exists s, r. auto.
  - destruct (Hbody s x r Hs) as [s1 [r1 [E1 H1]]].
    destruct (IH s1 r1 H1) as [s2 [r2 [E2 H2]]].
    exists s2, r2. cbn [forEachM]. unfold bind. rewrite E1. auto.
Qed.

(** On a string, neither loop throws. *)
Lemma catalogue_loop_returns (s type : string) (htmlContent : value)
    (entries : list (nat * string)) (acc : list Variant.t) :
  returns (forEachM (pushVariant applyParaphraseTechnique (VStr s) type htmlContent)
                    entries acc).
Proof.
  apply returns_forEachM. intros vs [i t]. unfold pushVariant.
  apply returns_bind; [apply applyParaphraseTechnique_returns|].
  intro p. apply returns_if; apply returns_ret.
Qed.

Lemma chainRules_returns (s type : string) (htmlContent : value)
    (combination : list string) :
  returns (chainRules applyParaphraseTechnique type combination (VStr s, htmlContent)).
Proof.
  intro r. unfold chainRules.
  destruct (forEachM_returns_inv (fun result : value * value => isString (fst result))
              (fun result technique =>
                 next <- applyParaphraseTechnique (fst result) technique type (snd result) ;;
                 ret (VStr (p_text next), p_html next))
              combination (VStr s, htmlContent) r)
    as [res [r' [E _]]].
  - now exists s.
  - intros [t h] x r0 [s0 Hs0]. cbn [fst snd] in *. subst t.
    destruct (applyParaphraseTechnique_returns s0 x type h r0) as [p [r1 E1]].
    exists (VStr (p_text p), p_html p), r1. unfold bind. rewrite E1.
    split; [reflexivity | now exists (p_text p)].
  - now exists res, r'.
Qed.

Lemma creative_loop_returns (s type : string) (htmlContent : value) :
  returns (generateCreativeVariantsWith applyParaphraseTechnique (VStr s) type htmlContent).
Proof.
  unfold generateCreativeVariantsWith. apply returns_forEachM.
  intros vs [i k]. unfold pushCreative.
  apply returns_bind; [apply chainRules_returns|].
  intros [t h]. cbn [fst snd]. destruct t; [apply returns_ret|].
  apply returns_if; apply returns_ret.
Qed.

(** Every rule the first loop runs leaves its entry. *)
Lemma catalogue_loop_applies
    (applyRule : value -> string -> string -> value -> M Paraphrase)
    (originalText : value) (type : string) (htmlContent : value)
    (entries : list (nat * string)) (acc : list Variant.t) (r : Rand)
    (vs : list Variant.t) (r' : Rand) (i : nat) (t : string) :
  forEachM (pushVariant applyRule originalText type htmlContent) entries acc r = (Ok vs, r') ->
  In (i, t) entries ->
  exists p r1 r2 v,
    applyRule originalText t type htmlContent r1 = (Ok p, r2) /\
    In v vs /\ Variant.technique v = t /\ Variant.text v = p_text p.
Proof.
  revert acc r; induction entries as [|[j u] entries IH]; intros acc r H Hin;
    [contradiction|].
  cbn [forEachM] in H. unfold bind at 1 in H.
  unfold pushVariant at 1 in H. unfold bind at 1 in H. cbn [fst snd] in H.
  destruct (applyRule originalText u type htmlContent r) as [[p|e] r1] eqn:E;
    [|discriminate H].
  cbn [keepVariant ret] in H.
  destruct Hin as [Hin | Hin].
  - inversion Hin; subst j u.
    apply catalogue_loop_entries in H. destruct H as [new [N _]].
    exists p, r, r1.
    exists {| Variant.id := NumberId (i + 1);
              Variant.text := p_text p;
              Variant.html := orElse (p_html p) (p_text p);
              Variant.technique := t;
              Variant.confidence := confidenceOr (p_confidence p) (8 # 10) |}.
    split; [exact E|]. split; [|split; reflexivity].
    rewrite N. apply in_or_app. left. apply in_or_app. right. now left.
  - exact (IH _ _ H Hin).
Qed.

(** What the rule [questionStyle] does to a text that is not a
    question. *)
Lemma questionStyle_on_answers (s type : string) (htmlContent : value)
    (r : Rand) (p : Paraphrase) (r' : Rand) :
  type <> "question" ->
  applyParaphraseTechnique (VStr s) "questionStyle" type htmlContent r = (Ok p, r') ->
  p_text p = Js.trim (Js.removeTags false s).
Proof.
  intros Ht H. unfold applyParaphraseTechnique, stripHtml, bind, ret in H.
  cbn [String.eqb Ascii.eqb Bool.eqb andb] in H.
  unfold questionStyleVariation in H.
  apply String.eqb_neq in Ht. rewrite Ht in H. cbn [negb ret] in H.
  unfold ret in H. inversion H. reflexivity.
Qed.

End Unchanged.

(** C1 (where the code departs from it): a run returns at most twelve
    entries, but a rule whose output equals its input does contribute an
    entry.  For a text that is not a question and that contains neither
    markup nor surrounding white space, the entry of the rule
    [questionStyle] is returned with the source text itself as its text,
    whatever the draws. *)
Theorem generateVariants_returns_the_source
    (s type : string) (htmlContent : value) (r : Rand) :
  type <> "question" ->
  Js.trim (Js.removeTags false s) = s ->
  exists vs r',
    generateVariants (VStr s) type htmlContent r = (Ok vs, r') /\
    List.length vs <= 12 /\
    exists v, In v vs /\ Variant.technique v = "questionStyle" /\ Variant.text v = s.
Proof.
  intros Ht Hs.
  destruct (catalogue_loop_returns s type htmlContent (indexed techniques) [] r)
    as [cat [r1 E1]].
  destruct (creative_loop_returns s type htmlContent r1) as [cre [r2 E2]].
  assert (E : generateVariants (VStr s) type htmlContent r
              = (Ok (firstn 12 (cat ++ cre)), r2)).
  { unfold generateVariants, generateVariantsWith, catch, generateVariants_try.
    unfold bind at 1. rewrite E1. unfold bind at 1. rewrite E2. reflexivity. }
  exists (firstn 12 (cat ++ cre)), r2. split; [exact E|].
  split; [apply firstn_le_length|].
  destruct (catalogue_loop_applies _ _ _ _ _ _ _ _ _ 4 "questionStyle" E1)
    as [p [ra [rb [v [Ep [Hin [Hv Htext]]]]]]].
  { unfold indexed, techniques. simpl. auto 10. }
  exists v. split; [|split; [exact Hv|]].
  - apply catalogue_loop_entries in E1. destruct E1 as [new [N [T _]]].
    cbn [app] in N. subst new.
    assert (L : List.length cat = 10).
    { rewrite <- (length_map Variant.technique), T. reflexivity. }
    rewrite firstn_app, L. apply in_or_app. left.
    rewrite firstn_all2 by lia. exact Hin.
  - rewrite Htext. rewrite (questionStyle_on_answers _ _ _ _ _ _ Ht Ep). exact Hs.
Qed.

Lemma generateVariants_returns_the_source_witness :
  exists vs r',
    generateVariants (VStr "hello") "answer" VNull zeros = (Ok vs, r') /\
    List.length vs <= 12 /\
    exists v, In v vs /\ Variant.technique v = "questionStyle" /\ Variant.text v = "hello".
Proof.
  apply (generateVariants_returns_the_source "hello" "answer" VNull zeros).
  - discriminate.
  - reflexivity.
Defined.

(** At that input every entry repeats the source. *)
Example generateVariants_hello :
  option_map (map Variant.text)
    (match fst (generateVariants (VStr "hello") "answer" VNull zeros) with
     | Ok vs => Some vs | Throw _ => None end)
  = Some [ "hello"; "hello"; "hello"; "hello"; "hello";
           "hello"; "hello"; "hello"; "hello"; "hello" ].
Proof. vm_compute. reflexivity. Qed.

(* ------------------------------------------------------------------ *)
(** ** An update without a status                                      *)
(* ------------------------------------------------------------------ *)

Section Update.

Lemma find_map_stable {A} (g : A -> bool) (f : A -> A) (l : list A) :
  (forall x, g (f x) = g x) ->
  find g (map f l) = option_map f (find g l).
Proof.
  intro H. induction l as [|x l IH]; [reflexivity|]. simpl.
  rewrite H. destruct (g x); [reflexivity | exact IH].
Qed.

Lemma create_question_variants_keep (question : uuid) (vs : list Variant.t) (db : Database) :
  let db' := fold_left
               (fun d variant => QuestionVariant_create d question (Variant.text variant))
               vs db in
  Questions db' = Questions db /\ Answers db' = Answers db.
Proof.
  revert db; induction vs as [|v vs IH]; intro db; [split; reflexivity|].
  cbn [fold_left]. cbv zeta in IH |- *.
  destruct (IH (QuestionVariant_create db question (Variant.text v))) as [Hq Ha].
  rewrite Hq, Ha. split; reflexivity.
Qed.

Lemma create_answer_variants_keep (answer : uuid) (vs : list Variant.t) (db : Database) :
  let db' := fold_left
               (fun d variant =>
                  AnswerVariant_create d answer (Variant.text variant) (Variant.html variant))
               vs db in
  Questions db' = Questions db /\ Answers db' = Answers db.
Proof.
  revert db; induction vs as [|v vs IH]; intro db; [split; reflexivity|].
  cbn [fold_left]. cbv zeta in IH |- *.
  destruct (IH (AnswerVariant_create db answer (Variant.text v) (Variant.html v)))
    as [Hq Ha].
  rewrite Hq, Ha. split; reflexivity.
Qed.

(** A store in which every row of the question [id] is a draft does
    not show that question to the matcher. *)
Lemma loadFinal_withoutQuestion (db : Database) (id agentId : uuid) :
  (forall q, In q (Questions db) -> q_id q = id -> q_status q = Draft) ->
  loadFinal (withoutQuestion id db) agentId = loadFinal db agentId.
Proof.
  intro H. unfold loadFinal. cbn [Questions withoutQuestion].
  rewrite flat_map_filter_in; [reflexivity|].
  intros q Hq Hid. apply negb_false_iff, Nat.eqb_eq in Hid.
  rewrite (H q Hq Hid). now rewrite andb_false_r.
Qed.

End Update.

(** C10: an update that carries no status and succeeds leaves every row
    of the question, and the answer the question is loaded with, in the
    status [Draft]; the matcher then behaves, for every agent, utterance
    and draws, as if the question were not in the store. *)
Theorem updateQuestion_without_status_resets_to_draft
    (req : UpdateRequest) (st : Storage) (r : Rand) (db' : Database) (r' : Rand) :
  body_status req = VNull ->
  updateQuestion req st r = (200, Available db', r') ->
  (forall q, In q (Questions db') -> q_id q = params_id req -> q_status q = Draft) /\
  (exists q a,
      Question_findByPk db' (params_id req) = Some (q, Some a) /\
      q_status q = Draft /\ a_status a = Draft) /\
  (forall agentId userMessage rr,
      findMatchingAnswer (Available db') agentId userMessage rr
      = findMatchingAnswer (Available (withoutQuestion (params_id req) db'))
                           agentId userMessage rr).
Proof.
  intros Hstatus H. unfold updateQuestion in H. cbv zeta in H. rewrite Hstatus in H.
  destruct (_ || _ || _); [discriminate H|].
  destruct st as [|db]; [discriminate H|].
  destruct (Question_findByPk db (params_id req)) as [[question answer]|] eqn:Ef;
    [|discriminate H].
  cbn [orElse enumStatus String.eqb Ascii.eqb Bool.eqb andb] in H.
  destruct answer as [answer|]; [|discriminate H].
  destruct (generateVariants _ "question" VNull r) as [[qvs|e] r1]; [|discriminate H].
  destruct (generateVariants _ "answer" _ r1) as [[avs|e] r2]; [|discriminate H].
  inversion H as [[Hdb Hr]]; clear H Hr.
  match goal with
  | |- context [Questions (fold_left ?f avs (fold_left ?g qvs ?d))] =>
      destruct (create_answer_variants_keep (a_id answer) avs (fold_left g qvs d))
        as [Q6 A6];
      destruct (create_question_variants_keep (q_id question) qvs d) as [Q5 A5]
  end.
  cbv zeta in Q5, A5, Q6, A6. rewrite Q5 in Q6. rewrite A5 in A6.
  cbn [Questions Answers AnswerVariant_destroy QuestionVariant_destroy
       Answer_update Question_update] in Q6, A6.
  unfold Question_findByPk in Ef.
  destruct (find (fun q => q_id q =? params_id req) (Questions db)) as [q0|] eqn:Eq;
    [|discriminate Ef].
  inversion Ef; subst q0; clear Ef.
  match goal with HA : find _ (Answers db) = Some answer |- _ => rename HA into Ea end.
  pose proof (find_some _ _ Eq) as [_ Hid]. apply Nat.eqb_eq in Hid.
  assert (Hdraft : forall q, In q (Questions
            (fold_left
               (fun d variant =>
                  AnswerVariant_create d (a_id answer) (Variant.text variant)
                                       (Variant.html variant)) avs
               (fold_left
                  (fun d variant =>
                     QuestionVariant_create d (q_id question) (Variant.text variant)) qvs
                  (AnswerVariant_destroy
                     (QuestionVariant_destroy
                        (Answer_update
                           (Question_update db (q_id question)
                              (Js.trim (body_question_text req)) Draft)
                           (a_id answer) (Js.trim (body_answer_text req))
                           (Js.trim (body_answer_html req)) Draft)
                        (q_id question)) (a_id answer))))) ->
            q_id q = params_id req -> q_status q = Draft).
  { intros q Hq Hqid. rewrite Q6 in Hq. apply in_map_iff in Hq.
    destruct Hq as [q0 [Hq0 _]].
    destruct (Nat.eqb_spec (q_id q0) (q_id question)) as [Heq | Hne].
    - subst q. reflexivity.
    - subst q. congruence. }
  split; [exact Hdraft|]. split.
  - unfold Question_findByPk. rewrite Q6, A6.
    rewrite (find_map_stable (fun q => q_id q =? params_id req));
      [|intro x; destruct (q_id x =? q_id question); reflexivity].
    rewrite Eq. cbn [option_map]. rewrite Nat.eqb_refl. cbn [q_id].
    rewrite (find_map_stable (fun a => a_question_id a =? q_id question));
      [|intro x; destruct (a_id x =? a_id answer); reflexivity].
    rewrite Ea. cbn [option_map]. rewrite Nat.eqb_refl.
    eexists; eexists. split; [reflexivity|]. split; reflexivity.
  - intros agentId userMessage rr.
    unfold findMatchingAnswer, catch, findMatchingAnswer_try. cbv zeta.
    unfold bind at 1 3. cbn [Question_findAll_final lift].
    rewrite loadFinal_withoutQuestion; [reflexivity | exact Hdraft].
Qed.

Lemma updateQuestion_without_status_resets_to_draft_witness :
  (forall q, In q (Questions editedDb) -> q_id q = 1 -> q_status q = Draft) /\
  (exists q a,
      Question_findByPk editedDb 1 = Some (q, Some a) /\
      q_status q = Draft /\ a_status a = Draft) /\
  (forall agentId userMessage rr,
      findMatchingAnswer (Available editedDb) agentId userMessage rr
      = findMatchingAnswer (Available (withoutQuestion 1 editedDb))
                           agentId userMessage rr).
Proof.
  apply (updateQuestion_without_status_resets_to_draft
           editRequest (Available returnsDb) zeros editedDb
           (snd (updateQuestion editRequest (Available returnsDb) zeros))).
  - reflexivity.
  - vm_compute. reflexivity.
Defined.

(** Before the edit the question answers the utterance of scenario B;
    after it, nothing does. *)
Example edited_question_is_not_served :
  fst (findMatchingAnswer (Available editedDb) 7 "what's the return policy" zeros)
  = Ok fallback.
Proof. vm_compute. reflexivity. Qed.

(* ================================================================== *)
(** * Further properties                                               *)
(* ================================================================== *)

(* ------------------------------------------------------------------ *)
(** ** Strings                                                         *)
(* ------------------------------------------------------------------ *)

Section Strings.

Lemma str_append_nil_r (s : string) : (s ++ "")%string = s.
Proof. induction s as [|c s IH]; simpl; [reflexivity | now rewrite IH]. Qed.

Lemma str_append_assoc (a b c : string) : ((a ++ b) ++ c)%string = (a ++ (b ++ c))%string.
Proof. induction a as [|x a IH]; simpl; [reflexivity | now rewrite IH]. Qed.

Lemma str_rev_onto_append (acc s : string) :
  Js.rev_onto acc s = (Js.rev s ++ acc)%string.
Proof.
  unfold Js.rev. revert acc; induction s as [|c s IH]; intro acc; simpl.
  - reflexivity.
  - rewrite (IH (String c acc)), (IH (String c EmptyString)), str_append_assoc.
    reflexivity.
Qed.

Lemma str_rev_cons (c : ascii) (s : string) :
  Js.rev (String c s) = (Js.rev s ++ String c EmptyString)%string.
Proof. unfold Js.rev at 1. simpl. apply str_rev_onto_append. Qed.

Lemma str_rev_append (a b : string) : Js.rev (a ++ b) = (Js.rev b ++ Js.rev a)%string.
Proof.
  induction a as [|c a IH]; simpl.
  - now rewrite str_append_nil_r.
  - now rewrite !str_rev_cons, IH, str_append_assoc.
Qed.

Lemma str_rev_involutive (s : string) : Js.rev (Js.rev s) = s.
Proof.
  induction s as [|c s IH]; [reflexivity|].
  rewrite str_rev_cons, str_rev_append, IH. reflexivity.
Qed.

Lemma noLead_trimStart (s : string) : noLead (Js.trimStart s) = true.
Proof.
  induction s as [|c s IH]; [reflexivity|]. simpl.
  destruct (Js.isSpace c) eqn:E; [exact IH | simpl; now rewrite E].
Qed.

Lemma trimStart_noLead (s : string) : noLead s = true -> Js.trimStart s = s.
Proof.
  destruct s as [|c s]; [reflexivity|]. simpl. intro H.
  apply negb_true_iff in H. now rewrite H.
Qed.

(** What [trimStart] removes, and what it keeps. *)
Lemma trimStart_split (s : string) :
  exists spaces, s = (spaces ++ Js.trimStart s)%string.
Proof.
  induction s as [|c s [sp IH]]; [now exists EmptyString|]. simpl.
  destruct (Js.isSpace c).
  - exists (String c sp). simpl. now rewrite <- IH.
  - now exists EmptyString.
Qed.

Lemma noLead_prefix (a b : string) :
  noLead (a ++ b) = true -> a <> EmptyString -> noLead a = true.
Proof. destruct a as [|c a]; [congruence | intros H _; exact H]. Qed.

Lemma str_rev_nil_inv (s : string) : Js.rev s = EmptyString -> s = EmptyString.
Proof.
  intro H. rewrite <- (str_rev_involutive s), H. reflexivity.
Qed.

(** The result of [trim] begins and ends with no white space. *)
Lemma trim_shape (s : string) :
  exists u, Js.trim s = Js.rev u /\ noLead u = true /\ noLead (Js.rev u) = true /\
            exists spaces, Js.trimStart s = (Js.rev u ++ spaces)%string.
Proof.
  unfold Js.trim. set (t := Js.trimStart s). set (u := Js.trimStart (Js.rev t)).
  exists u. split; [reflexivity|]. split; [apply noLead_trimStart|].
  destruct (trimStart_split (Js.rev t)) as [sp Hsp]. fold u in Hsp.
  assert (Ht : t = (Js.rev u ++ Js.rev sp)%string).
  { rewrite <- (str_rev_involutive t), Hsp, str_rev_append. reflexivity. }
  split; [|now exists (Js.rev sp)].
  destruct (Js.rev u) as [|c ru] eqn:E; [reflexivity|].
  apply (noLead_prefix (String c ru) (Js.rev sp)); [|discriminate].
  rewrite <- Ht. apply noLead_trimStart.
Qed.

Lemma trim_fixed (s : string) :
  noLead s = true -> noLead (Js.rev s) = true -> Js.trim s = s.
Proof.
  intros H1 H2. unfold Js.trim.
  rewrite (trimStart_noLead s H1), (trimStart_noLead _ H2). apply str_rev_involutive.
Qed.

Lemma trim_idempotent (s : string) : Js.trim (Js.trim s) = Js.trim s.
Proof.
  destruct (trim_shape s) as [u [E [Hu [Hr _]]]]. rewrite E.
  apply trim_fixed; [exact Hr | now rewrite str_rev_involutive].
Qed.

End Strings.

(* ------------------------------------------------------------------ *)
(** ** Stripping the markup                                            *)
(* ------------------------------------------------------------------ *)

Section Markup.

Lemma hasChar_removeTags (c : ascii) (s : string) (inTag : bool) :
  Js.hasChar c (Js.removeTags inTag s) = true -> Js.hasChar c s = true.
Proof.
  revert inTag; induction s as [|d s IH]; intros inTag H; [destruct inTag; exact H|].
  simpl in H. simpl. destruct inTag.
  - apply IH in H. rewrite H. apply orb_true_r.
  - destruct (Ascii.eqb d "<" && Js.hasChar ">" s).
    + apply IH in H. rewrite H. apply orb_true_r.
    + simpl in H. apply orb_true_iff in H. destruct H as [H | H].
      * now rewrite H.
      * apply IH in H. rewrite H. apply orb_true_r.
Qed.

Lemma removeTags_tagFree (s : string) (inTag : bool) :
  tagFree (Js.removeTags inTag s) = true.
Proof.
  revert inTag; induction s as [|d s IH]; intro inTag; [destruct inTag; reflexivity|].
  simpl. destruct inTag; [apply IH|].
  destruct (Ascii.eqb d "<") eqn:Ed; simpl.
  - destruct (Js.hasChar ">" s) eqn:Eh; [apply IH|].
    simpl. rewrite Ed, IH. simpl.
    destruct (Js.hasChar ">" (Js.removeTags false s)) eqn:Er; [|reflexivity].
    apply hasChar_removeTags in Er. congruence.
  - rewrite Ed, IH. reflexivity.
Qed.

Lemma tagFree_removeTags (s : string) : tagFree s = true -> Js.removeTags false s = s.
Proof.
  induction s as [|d s IH]; [reflexivity|]. simpl. intro H.
  apply andb_true_iff in H. destruct H as [H1 H2].
  destruct (Ascii.eqb d "<"); simpl in *.
  - apply negb_true_iff in H1. rewrite H1. now rewrite IH.
  - now rewrite IH.
Qed.

Lemma tagFree_trimStart (s : string) : tagFree s = true -> tagFree (Js.trimStart s) = true.
Proof.
  induction s as [|d s IH]; [reflexivity|]. intro H. simpl.
  destruct (Js.isSpace d); [|exact H].
  apply IH. simpl in H. now apply andb_true_iff in H.
Qed.

Lemma hasChar_append (c : ascii) (a b : string) :
  Js.hasChar c (a ++ b) = Js.hasChar c a || Js.hasChar c b.
Proof.
  induction a as [|d a IH]; [reflexivity|]. simpl. rewrite IH. apply orb_assoc.
Qed.

Lemma tagFree_prefix (a b : string) : tagFree (a ++ b) = true -> tagFree a = true.
Proof.
  induction a as [|d a IH]; [reflexivity|]. simpl. intro H.
  apply andb_true_iff in H. destruct H as [H1 H2]. rewrite (IH H2), andb_true_r.
  destruct (Ascii.eqb d "<"); [|reflexivity]. simpl in *.
  rewrite hasChar_append in H1. apply negb_true_iff, orb_false_iff in H1.
  destruct H1 as [H1 _]. now rewrite H1.
Qed.

Lemma tagFree_trim (s : string) : tagFree s = true -> tagFree (Js.trim s) = true.
Proof.
  intro H. destruct (trim_shape s) as [u [E [_ [_ [sp Hsp]]]]]. rewrite E.
  apply (tagFree_prefix _ sp). rewrite <- Hsp. now apply tagFree_trimStart.
Qed.

End Markup.

(** X1: [stripHtml] is idempotent: what it returns holds no tag and no
    surrounding white space, and stripping it again returns it
    unchanged. *)
Theorem stripHtml_idempotent (h : string) (r : Rand) :
  exists clean,
    stripHtml (VStr h) r = (Ok clean, r) /\
    stripHtml (VStr clean) r = (Ok clean, r) /\
    tagFree clean = true /\ Js.trim clean = clean.
Proof.
  exists (Js.trim (Js.removeTags false h)). split; [reflexivity|].
  assert (T : tagFree (Js.trim (Js.removeTags false h)) = true)
    by (apply tagFree_trim, removeTags_tagFree).
  split; [|split; [exact T | apply trim_idempotent]].
  unfold stripHtml, ret. rewrite (tagFree_removeTags _ T), trim_idempotent. reflexivity.
Qed.

(* ------------------------------------------------------------------ *)
(** ** Replacing the text inside the markup                            *)
(* ------------------------------------------------------------------ *)

Section Replace.

Lemma prefix_drop (pat s : string) :
  String.prefix pat s = true -> s = (pat ++ Js.drop (String.length pat) s)%string.
Proof.
  revert s; induction pat as [|c pat IH]; intros s H; [reflexivity|].
  destruct s as [|d s]; [discriminate H|]. simpl in H.
  destruct (ascii_dec c d) as [E|]; [|discriminate H]. subst d.
  simpl. now rewrite <- (IH s H).
Qed.

Lemma occurrence_none (pat seen s : string) :
  Js.includes s pat = false -> Js.occurrence pat seen s = None.
Proof.
  revert seen; induction s as [|c s IH]; intros seen H.
  - destruct pat; [discriminate H | reflexivity].
  - cbn [Js.includes Js.occurrence] in *.
    apply orb_false_iff in H. destruct H as [H1 H2]. rewrite H1. now apply IH.
Qed.

Lemma occurrence_some (pat seen s before after : string) :
  Js.occurrence pat seen s = Some (before, after) ->
  (Js.rev seen ++ s)%string = (before ++ pat ++ after)%string.
Proof.
  revert seen; induction s as [|c s IH]; intros seen H.
  - destruct pat as [|p pat]; [|discriminate H].
    inversion H; subst. reflexivity.
  - cbn [Js.occurrence] in H.
    destruct (String.prefix pat (String c s)) eqn:P.
    + inversion H; subst. now rewrite (prefix_drop _ _ P) at 1.
    + apply IH in H. rewrite <- H, str_rev_cons, str_append_assoc. reflexivity.
Qed.

Lemma occurrence_found (pat seen s : string) :
  Js.includes s pat = true -> exists b a, Js.occurrence pat seen s = Some (b, a).
Proof.
  revert seen; induction s as [|c s IH]; intros seen H.
  - destruct pat; [cbn; eauto | discriminate H].
  - cbn [Js.includes Js.occurrence] in *.
    destruct (String.prefix pat (String c s)); [eauto|]. now apply IH.
Qed.

Lemma substitution_plain (matched before after template : string) :
  Js.hasChar "$"%char template = false ->
  Js.substitution matched before after template = template.
Proof.
  induction template as [|c t IH]; [reflexivity|].
  cbn [Js.hasChar Js.substitution]. intro H.
  apply orb_false_iff in H. destruct H as [H1 H2].
  rewrite Ascii.eqb_sym in H1. rewrite H1. now rewrite IH.
Qed.

(** [s.replace(pat, template)] when [pat] does not occur, and when it
    does and the template holds no [$]. *)
Lemma replaceFirst_absent (pat template s : string) :
  Js.includes s pat = false -> Js.replaceFirst pat template s = s.
Proof. intro H. unfold Js.replaceFirst. now rewrite occurrence_none. Qed.

Lemma replaceFirst_present (pat template s : string) :
  Js.includes s pat = true -> Js.hasChar "$"%char template = false ->
  exists before after,
    s = (before ++ pat ++ after)%string /\
    Js.replaceFirst pat template s = (before ++ template ++ after)%string.
Proof.
  intros H D. unfold Js.replaceFirst.
  destruct (occurrence_found pat EmptyString s H) as [b [a E]]. rewrite E.
  exists b, a. split.
  - apply occurrence_some in E. exact E.
  - now rewrite substitution_plain.
Qed.

End Replace.

(** X2: [preserveHtmlFormatting], on a markup that is not empty and is
    not the text itself: when the text does not occur in the markup, the
    markup is returned unchanged (not the new text); when it occurs and
    the new text holds no [$], the new text takes the place of one
    occurrence and everything around it is kept. *)
Theorem preserveHtmlFormatting_keeps_markup (h originalText newText : string) :
  h <> "" -> h <> originalText ->
  (Js.includes h originalText = false ->
   preserveHtmlFormatting (VStr h) originalText newText = h) /\
  (Js.includes h originalText = true -> Js.hasChar "$"%char newText = false ->
   exists before after,
     h = (before ++ originalText ++ after)%string /\
     preserveHtmlFormatting (VStr h) originalText newText
     = (before ++ newText ++ after)%string).
Proof.
  intros Hne Hneq. unfold preserveHtmlFormatting, truthy, value_eqb.
  apply String.eqb_neq in Hne, Hneq. rewrite Hne, Hneq. cbn [negb orb].
  split.
  - apply replaceFirst_absent.
  - apply replaceFirst_present.
Qed.

Lemma preserveHtmlFormatting_keeps_markup_witness :
  preserveHtmlFormatting (VStr "<p>You can <b>return</b> items.</p>")
                         "You can return items." "One can return items."
  = "<p>You can <b>return</b> items.</p>"
  /\
  exists before after,
    "<p>use it</p>" = (before ++ "use it" ++ after)%string /\
    preserveHtmlFormatting (VStr "<p>use it</p>") "use it" "utilize it"
    = (before ++ "utilize it" ++ after)%string.
Proof.
  split.
  - apply (preserveHtmlFormatting_keeps_markup
             "<p>You can <b>return</b> items.</p>" "You can return items."
             "One can return items."); [discriminate | discriminate | reflexivity].
  - apply (preserveHtmlFormatting_keeps_markup "<p>use it</p>" "use it" "utilize it");
      [discriminate | discriminate | reflexivity | reflexivity].
Defined.

(* ------------------------------------------------------------------ *)
(** ** What the two loops push                                         *)
(* ------------------------------------------------------------------ *)

Section Loops.

Variable applyRule : value -> string -> string -> value -> M Paraphrase.
Variables (originalText : value) (type : string) (htmlContent : value).

Lemma bind_ok_inv {A B} (m : M A) (k : A -> M B) (r : Rand) (b : B) (r' : Rand) :
  bind m k r = (Ok b, r') ->
  exists a r1, m r = (Ok a, r1) /\ k a r1 = (Ok b, r').
Proof.
  unfold bind. destruct (m r) as [[a|e] r1]; [|discriminate]. intro H.
  now exists a, r1.
Qed.

Lemma ret_ok_inv {A} (a b : A) (r r' : Rand) : ret a r = (Ok b, r') -> b = a /\ r' = r.
Proof. unfold ret. intro H. inversion H. auto. Qed.

(** A property of the entries of the first loop that every rule's
    entry has. *)
Lemma catalogue_loop_Forall (P : Variant.t -> Prop)
    (entries : list (nat * string)) (acc : list Variant.t) (r : Rand)
    (vs : list Variant.t) (r' : Rand) :
  (forall index technique variant ra rb,
      applyRule originalText technique type htmlContent ra = (Ok variant, rb) ->
      P (catalogueEntry index technique variant)) ->
  Forall P acc ->
  forEachM (pushVariant applyRule originalText type htmlContent) entries acc r = (Ok vs, r') ->
  Forall P vs.
Proof.
  intro HP. revert acc r; induction entries as [|[i t] entries IH]; intros acc r Hacc H.
  - apply ret_ok_inv in H. destruct H as [H _]. now subst vs.
  - cbn [forEachM] in H. apply bind_ok_inv in H. destruct H as [acc1 [r1 [H1 H2]]].
    apply IH in H2; [exact H2|].
    unfold pushVariant in H1. apply bind_ok_inv in H1.
    destruct H1 as [p [r2 [Hp H1]]]. cbn [keepVariant fst snd] in H1.
    apply ret_ok_inv in H1. destruct H1 as [H1 _]. subst acc1.
    apply Forall_app. split; [exact Hacc|].
    constructor; [|constructor]. exact (HP i t p r r2 Hp).
Qed.

(** The same for the second loop: its entries have a text that is not
    the source. *)
Lemma creative_loop_Forall (P : Variant.t -> Prop)
    (entries : list (nat * list string)) (acc : list Variant.t) (r : Rand)
    (vs : list Variant.t) (r' : Rand) :
  (forall index combination resultText resultHtml,
      value_eqb (VStr resultText) originalText = false ->
      P (creativeEntry index combination resultText resultHtml)) ->
  Forall P acc ->
  forEachM (pushCreative applyRule originalText type htmlContent) entries acc r = (Ok vs, r') ->
  Forall P vs.
Proof.
  intro HP. revert acc r; induction entries as [|[i k] entries IH]; intros acc r Hacc H.
  - apply ret_ok_inv in H. destruct H as [H _]. now subst vs.
  - cbn [forEachM] in H. apply bind_ok_inv in H. destruct H as [acc1 [r1 [H1 H2]]].
    apply IH in H2; [exact H2|].
    unfold pushCreative in H1. apply bind_ok_inv in H1.
    destruct H1 as [[t h] [r2 [Hc H1]]]. cbn [fst snd] in H1.
    destruct t as [|resultText].
    + apply ret_ok_inv in H1. destruct H1 as [H1 _]. now subst acc1.
    + destruct (value_eqb (VStr resultText) originalText) eqn:E; cbn [negb] in H1;
        apply ret_ok_inv in H1; destruct H1 as [H1 _]; subst acc1; [exact Hacc|].
      apply Forall_app. split; [exact Hacc|].
      constructor; [|constructor]. exact (HP i k resultText h E).
Qed.

(** A run that returns entries has run both loops. *)
Lemma generateVariantsWith_loops (r : Rand) (vs : list Variant.t) (r' : Rand) :
  generateVariantsWith applyRule originalText type htmlContent r = (Ok vs, r') ->
  vs = [] \/
  exists cat cre r1,
    forEachM (pushVariant applyRule originalText type htmlContent)
             (indexed techniques) [] r = (Ok cat, r1) /\
    forEachM (pushCreative applyRule originalText type htmlContent)
             (indexed combinations) [] r1 = (Ok cre, r') /\
    vs = firstn 12 (cat ++ cre).
Proof.
  unfold generateVariantsWith, catch, generateVariants_try, generateCreativeVariantsWith.
  unfold bind at 1.
  destruct (forEachM (pushVariant applyRule originalText type htmlContent)
                     (indexed techniques) [] r) as [[cat|e] r1] eqn:E1;
    [|intro H; inversion H; now left].
  unfold bind at 1.
  destruct (forEachM (pushCreative applyRule originalText type htmlContent)
                     (indexed combinations) [] r1) as [[cre|e] r2] eqn:E2;
    [|intro H; inversion H; now left].
  cbn [ret]. intro H. inversion H; subst. right. exists cat, cre, r1. auto.
Qed.

Lemma Forall_firstn {A} (P : A -> Prop) (n : nat) (l : list A) :
  Forall P l -> Forall P (firstn n l).
Proof.
  intro H. revert n; induction H as [|x l Hx Hl IH]; intros [|n]; simpl;
    constructor; auto.
Qed.

(** A property that the entries of both loops have holds of every
    entry a run returns. *)
Lemma generateVariantsWith_Forall (P : Variant.t -> Prop) (r : Rand)
    (vs : list Variant.t) (r' : Rand) :
  (forall index technique variant ra rb,
      applyRule originalText technique type htmlContent ra = (Ok variant, rb) ->
      P (catalogueEntry index technique variant)) ->
  (forall index combination resultText resultHtml,
      value_eqb (VStr resultText) originalText = false ->
      P (creativeEntry index combination resultText resultHtml)) ->
  generateVariantsWith applyRule originalText type htmlContent r = (Ok vs, r') ->
  Forall P vs.
Proof.
  intros H1 H2 H. apply generateVariantsWith_loops in H.
  destruct H as [H | [cat [cre [r1 [E1 [E2 H]]]]]]; subst vs; [constructor|].
  apply Forall_firstn, Forall_app. split.
  - eapply catalogue_loop_Forall; [exact H1 | constructor | exact E1].
  - eapply creative_loop_Forall; [exact H2 | constructor | exact E2].
Qed.

End Loops.

(** X3: whatever the rules are, an entry that comes from a combination
    of rules never repeats the source: its text differs from the source
    text. *)
Theorem creative_entries_differ_from_source
    (applyRule : value -> string -> string -> value -> M Paraphrase)
    (originalText : value) (type : string) (htmlContent : value) (r : Rand) :
  exists vs r',
    generateVariantsWith applyRule originalText type htmlContent r = (Ok vs, r') /\
    Forall (fun v => isCreative v = true -> VStr (Variant.text v) <> originalText) vs.
Proof.
  destruct (generateVariantsWith_returns applyRule originalText type htmlContent r)
    as [vs [r' E]].
  exists vs, r'. split; [exact E|].
  eapply generateVariantsWith_Forall; [| |exact E].
  - intros index technique variant ra rb _ H. discriminate H.
  - intros index combination resultText resultHtml Hne _ Heq.
    rewrite <- Heq in Hne. cbn [value_eqb] in Hne.
    rewrite String.eqb_refl in Hne. discriminate Hne.
Qed.

(* ------------------------------------------------------------------ *)
(** ** What a rule returns                                             *)
(* ------------------------------------------------------------------ *)

Ltac rule_inv H :=
  repeat (cbv beta zeta in H;
          lazymatch type of H with
          | bind _ _ _ = (Ok _, _) =>
              let a := fresh "x" in
              let r1 := fresh "r" in
              let E := fresh "E" in
              apply bind_ok_inv in H; destruct H as [a [r1 [E H]]]
          | ret _ _ = (Ok _, _) => apply ret_ok_inv in H; destruct H as [H _]
          | (if ?c then _ else _) _ = (Ok _, _) => destruct c
          end).

Section RuleResults.

Variables (text type : string) (htmlContent : value).

(** Each rule, unfolded once: the right-hand side is the body of its
    definition. *)
Lemma synonymReplacement_unfold :
  synonymReplacement text type htmlContent
  = ltac:(let body := eval unfold synonymReplacement in (synonymReplacement text type htmlContent) in
          exact body).
Proof. reflexivity. Qed.

Lemma sentenceRestructuring_unfold :
  sentenceRestructuring text type htmlContent
  = ltac:(let body := eval unfold sentenceRestructuring in (sentenceRestructuring text type htmlContent) in
          exact body).
Proof. reflexivity. Qed.

Lemma formalInformalSwitch_unfold :
  formalInformalSwitch text type htmlContent
  = ltac:(let body := eval unfold formalInformalSwitch in (formalInformalSwitch text type htmlContent) in
          exact body).
Proof. reflexivity. Qed.

Lemma activePassiveSwitch_unfold :
  activePassiveSwitch text type htmlContent
  = ltac:(let body := eval unfold activePassiveSwitch in (activePassiveSwitch text type htmlContent) in
          exact body).
Proof. reflexivity. Qed.

Lemma questionStyleVariation_unfold :
  questionStyleVariation text type htmlContent
  = ltac:(let body := eval unfold questionStyleVariation in (questionStyleVariation text type htmlContent) in
          exact body).
Proof. reflexivity. Qed.

Lemma expandContract_unfold :
  expandContract text type htmlContent
  = ltac:(let body := eval unfold expandContract in (expandContract text type htmlContent) in
          exact body).
Proof. reflexivity. Qed.

Lemma changeOrder_unfold :
  changeOrder text type htmlContent
  = ltac:(let body := eval unfold changeOrder in (changeOrder text type htmlContent) in
          exact body).
Proof. reflexivity. Qed.

Lemma shiftEmphasis_unfold :
  shiftEmphasis text type htmlContent
  = ltac:(let body := eval unfold shiftEmphasis in (shiftEmphasis text type htmlContent) in
          exact body).
Proof. reflexivity. Qed.

Lemma changePerspective_unfold :
  changePerspective text type htmlContent
  = ltac:(let body := eval unfold changePerspective in (changePerspective text type htmlContent) in
          exact body).
Proof. reflexivity. Qed.

Lemma contextualVariation_unfold :
  contextualVariation text type htmlContent
  = ltac:(let body := eval unfold contextualVariation in (contextualVariation text type htmlContent) in
          exact body).
Proof. reflexivity. Qed.

Lemma synonymReplacement_shape (r : Rand) (p : Paraphrase) (r' : Rand) :
  synonymReplacement text type htmlContent r = (Ok p, r') -> ruleShape text htmlContent p.
Proof.
  rewrite synonymReplacement_unfold. intro H. rule_inv H; subst p;
    (split; [split; apply Qle_bool_iff; reflexivity | left; reflexivity]).
Qed.

Lemma sentenceRestructuring_shape (r : Rand) (p : Paraphrase) (r' : Rand) :
  sentenceRestructuring text type htmlContent r = (Ok p, r') -> ruleShape text htmlContent p.
Proof.
  rewrite sentenceRestructuring_unfold. intro H. rule_inv H; subst p;
    (split; [split; apply Qle_bool_iff; reflexivity | left; reflexivity]).
Qed.

Lemma formalInformalSwitch_shape (r : Rand) (p : Paraphrase) (r' : Rand) :
  formalInformalSwitch text type htmlContent r = (Ok p, r') -> ruleShape text htmlContent p.
Proof.
  rewrite formalInformalSwitch_unfold. intro H. rule_inv H; subst p;
    (split; [split; apply Qle_bool_iff; reflexivity | left; reflexivity]).
Qed.

Lemma activePassiveSwitch_shape (r : Rand) (p : Paraphrase) (r' : Rand) :
  activePassiveSwitch text type htmlContent r = (Ok p, r') -> ruleShape text htmlContent p.
Proof.
  rewrite activePassiveSwitch_unfold. intro H. rule_inv H; subst p;
    (split; [split; apply Qle_bool_iff; reflexivity | left; reflexivity]).
Qed.

Lemma questionStyleVariation_shape (r : Rand) (p : Paraphrase) (r' : Rand) :
  questionStyleVariation text type htmlContent r = (Ok p, r') -> ruleShape text htmlContent p.
Proof.
  rewrite questionStyleVariation_unfold. intro H. rule_inv H; subst p;
    (split; [split; apply Qle_bool_iff; reflexivity | first [right; left; reflexivity | left; reflexivity]]).
Qed.

Lemma expandContract_shape (r : Rand) (p : Paraphrase) (r' : Rand) :
  expandContract text type htmlContent r = (Ok p, r') -> ruleShape text htmlContent p.
Proof.
  rewrite expandContract_unfold. intro H. rule_inv H; subst p;
    (split; [split; apply Qle_bool_iff; reflexivity | left; reflexivity]).
Qed.

Lemma changeOrder_shape (r : Rand) (p : Paraphrase) (r' : Rand) :
  changeOrder text type htmlContent r = (Ok p, r') -> ruleShape text htmlContent p.
Proof.
  rewrite changeOrder_unfold. intro H. rule_inv H; subst p;
    (split; [split; apply Qle_bool_iff; reflexivity | left; reflexivity]).
Qed.

Lemma shiftEmphasis_shape (r : Rand) (p : Paraphrase) (r' : Rand) :
  shiftEmphasis text type htmlContent r = (Ok p, r') -> ruleShape text htmlContent p.
Proof.
  rewrite shiftEmphasis_unfold. intro H. rule_inv H; subst p;
    (split; [split; apply Qle_bool_iff; reflexivity | right; right; reflexivity]).
Qed.

Lemma changePerspective_shape (r : Rand) (p : Paraphrase) (r' : Rand) :
  changePerspective text type htmlContent r = (Ok p, r') -> ruleShape text htmlContent p.
Proof.
  rewrite changePerspective_unfold. intro H. rule_inv H; subst p;
    (split; [split; apply Qle_bool_iff; reflexivity | left; reflexivity]).
Qed.

Lemma contextualVariation_shape (r : Rand) (p : Paraphrase) (r' : Rand) :
  contextualVariation text type htmlContent r = (Ok p, r') -> ruleShape text htmlContent p.
Proof.
  rewrite contextualVariation_unfold. intro H. rule_inv H; subst p;
    (split; [split; apply Qle_bool_iff; reflexivity | left; reflexivity]).
Qed.

End RuleResults.

Lemma applyParaphraseTechnique_unfold (text : value) (technique type : string)
    (htmlContent : value) :
  applyParaphraseTechnique text technique type htmlContent
  = ltac:(let body := eval unfold applyParaphraseTechnique in
                      (applyParaphraseTechnique text technique type htmlContent) in
          exact body).
Proof. reflexivity. Qed.

(** What the catalogue returns on a string. *)
Lemma applyParaphraseTechnique_shape (s technique type : string) (htmlContent : value)
    (r : Rand) (p : Paraphrase) (r' : Rand) :
  applyParaphraseTechnique (VStr s) technique type htmlContent r = (Ok p, r') ->
  ruleShape (Js.trim (Js.removeTags false s)) htmlContent p.
Proof.
  rewrite applyParaphraseTechnique_unfold. intro H.
  apply bind_ok_inv in H. destruct H as [clean [r1 [E H]]].
  apply ret_ok_inv in E. destruct E as [E _]. subst clean.
  repeat lazymatch type of H with
         | (if ?c then _ else _) _ = (Ok _, _) => destruct c
         end;
    lazymatch type of H with
    | synonymReplacement _ _ _ _ = _ => exact (synonymReplacement_shape _ _ _ _ _ _ H)
    | sentenceRestructuring _ _ _ _ = _ => exact (sentenceRestructuring_shape _ _ _ _ _ _ H)
    | formalInformalSwitch _ _ _ _ = _ => exact (formalInformalSwitch_shape _ _ _ _ _ _ H)
    | activePassiveSwitch _ _ _ _ = _ => exact (activePassiveSwitch_shape _ _ _ _ _ _ H)
    | questionStyleVariation _ _ _ _ = _ => exact (questionStyleVariation_shape _ _ _ _ _ _ H)
    | expandContract _ _ _ _ = _ => exact (expandContract_shape _ _ _ _ _ _ H)
    | changeOrder _ _ _ _ = _ => exact (changeOrder_shape _ _ _ _ _ _ H)
    | shiftEmphasis _ _ _ _ = _ => exact (shiftEmphasis_shape _ _ _ _ _ _ H)
    | changePerspective _ _ _ _ = _ => exact (changePerspective_shape _ _ _ _ _ _ H)
    | contextualVariation _ _ _ _ = _ => exact (contextualVariation_shape _ _ _ _ _ _ H)
    | ret _ _ = _ =>
        apply ret_ok_inv in H; destruct H as [H _]; subst p;
        (split; [split; apply Qle_bool_iff; reflexivity | right; left; reflexivity])
    end.
Qed.

Lemma htmlFor_absent (h clean result : string) :
  h <> "" -> Js.includes h clean = false -> htmlFor (VStr h) clean result = h.
Proof.
  intros Hne Habs. unfold htmlFor. apply String.eqb_neq in Hne. rewrite Hne.
  now apply replaceFirst_absent.
Qed.

Lemma applyParaphraseTechnique_null (technique type : string) (htmlContent : value)
    (r : Rand) (p : Paraphrase) (r' : Rand) :
  applyParaphraseTechnique VNull technique type htmlContent r = (Ok p, r') -> False.
Proof.
  rewrite applyParaphraseTechnique_unfold. intro H.
  apply bind_ok_inv in H. destruct H as [clean [r1 [E _]]]. discriminate E.
Qed.

(** X4: every entry [generateVariants] returns carries a confidence
    between 0.6 and 0.9. *)
Theorem generateVariants_confidence_range
    (originalText : value) (type : string) (htmlContent : value) (r : Rand) :
  exists vs r',
    generateVariants originalText type htmlContent r = (Ok vs, r') /\
    Forall (fun v => (6 # 10 <= Variant.confidence v)%Q /\
                     (Variant.confidence v <= 9 # 10)%Q) vs.
Proof.
  destruct (generateVariantsWith_returns applyParaphraseTechnique
              originalText type htmlContent r) as [vs [r' E]].
  exists vs, r'. split; [exact E|].
  eapply generateVariantsWith_Forall; [| |exact E].
  - intros index technique variant ra rb H. cbn [catalogueEntry Variant.confidence].
    destruct originalText as [|s]; [now apply applyParaphraseTechnique_null in H|].
    exact (proj1 (applyParaphraseTechnique_shape _ _ _ _ _ _ _ H)).
  - intros index combination resultText resultHtml _.
    cbn [creativeEntry Variant.confidence]. split; apply Qle_bool_iff; reflexivity.
Qed.

(** X5: when the markup of an answer is not empty and does not hold the
    clean source text verbatim, every entry of the catalogue of rules is
    returned with that markup unchanged as its html, whatever its text. *)
Theorem generateVariants_keeps_foreign_markup
    (s type h : string) (r : Rand) :
  h <> "" ->
  Js.includes h (Js.trim (Js.removeTags false s)) = false ->
  exists vs r',
    generateVariants (VStr s) type (VStr h) r = (Ok vs, r') /\
    Forall (fun v => isCreative v = false -> Variant.html v = h) vs.
Proof.
  intros Hne Habs.
  destruct (generateVariantsWith_returns applyParaphraseTechnique
              (VStr s) type (VStr h) r) as [vs [r' E]].
  exists vs, r'. split; [exact E|].
  assert (Ht : truthy (VStr h) = true)
    by (unfold truthy; apply String.eqb_neq in Hne; now rewrite Hne).
  assert (Ho : forall t, orElse (VStr h) t = h)
    by (intro t; unfold orElse; apply String.eqb_neq in Hne; now rewrite Hne).
  eapply generateVariantsWith_Forall; [| |exact E].
  - intros index technique variant ra rb H _. cbn [catalogueEntry Variant.html].
    destruct (applyParaphraseTechnique_shape _ _ _ _ _ _ _ H) as [_ [Hh | [Hh | Hh]]];
      rewrite Hh; rewrite ?Ht, ?htmlFor_absent, ?Ho by assumption; reflexivity.
  - intros index combination resultText resultHtml _ H. discriminate H.
Qed.

Lemma generateVariants_keeps_foreign_markup_witness :
  exists vs r',
    generateVariants (VStr "You can return items.") "answer"
                     (VStr "<p>You can <b>return</b> items.</p>") zeros = (Ok vs, r') /\
    Forall (fun v => isCreative v = false ->
                     Variant.html v = "<p>You can <b>return</b> items.</p>") vs.
Proof.
  apply (generateVariants_keeps_foreign_markup
           "You can return items." "answer" "<p>You can <b>return</b> items.</p>" zeros).
  - discriminate.
  - reflexivity.
Defined.

(* ------------------------------------------------------------------ *)
(** ** Runs on a string                                                *)
(* ------------------------------------------------------------------ *)

(** On a string both loops complete, and the first pushes ten entries. *)
Lemma generateVariants_on_string (s type : string) (htmlContent : value) (r : Rand) :
  exists cat cre r1 r2,
    forEachM (pushVariant applyParaphraseTechnique (VStr s) type htmlContent)
             (indexed techniques) [] r = (Ok cat, r1) /\
    generateCreativeVariants (VStr s) type htmlContent r1 = (Ok cre, r2) /\
    generateVariants (VStr s) type htmlContent r = (Ok (firstn 12 (cat ++ cre)), r2) /\
    List.length cat = 10 /\
    map Variant.technique cat = techniques /\
    map Variant.id cat = catalogueIds.
Proof.
  destruct (catalogue_loop_returns s type htmlContent (indexed techniques) [] r)
    as [cat [r1 E1]].
  destruct (creative_loop_returns s type htmlContent r1) as [cre [r2 E2]].
  exists cat, cre, r1, r2. split; [exact E1|]. split; [exact E2|].
  split.
  - unfold generateVariants, generateVariantsWith, catch, generateVariants_try.
    unfold bind at 1. rewrite E1. unfold bind at 1.
    unfold generateCreativeVariants in E2. rewrite E2. reflexivity.
  - apply catalogue_loop_entries in E1. destruct E1 as [new [N [T I]]].
    cbn [app] in N. subst new.
    split; [|split; [exact T | exact I]].
    rewrite <- (length_map Variant.technique), T. reflexivity.
Qed.

(** X6: for every source text that is a string, whatever the kind, the
    markup and the draws, [generateVariants] returns between ten and
    twelve entries, and the first ten are the entries of the ten rules
    of the catalogue, in its order, with the ids 1 to 10. *)
Theorem generateVariants_ten_to_twelve
    (s type : string) (htmlContent : value) (r : Rand) :
  exists vs r',
    generateVariants (VStr s) type htmlContent r = (Ok vs, r') /\
    10 <= List.length vs <= 12 /\
    map Variant.technique (firstn 10 vs) = techniques /\
    map Variant.id (firstn 10 vs) = map NumberId (seq 1 10).
Proof.
  destruct (generateVariants_on_string s type htmlContent r)
    as [cat [cre [r1 [r2 [_ [_ [E [L [T I]]]]]]]]].
  exists (firstn 12 (cat ++ cre)), r2. split; [exact E|].
  assert (F : firstn 10 (firstn 12 (cat ++ cre)) = cat).
  { rewrite firstn_firstn. cbn [Nat.min].
    rewrite firstn_app, L, Nat.sub_diag, firstn_O, app_nil_r.
    apply firstn_all2. lia. }
  split; [|rewrite F; split; [exact T | rewrite I; reflexivity]].
  rewrite length_firstn, length_app, L. lia.
Qed.

(* ------------------------------------------------------------------ *)
(** ** Questions that open with "how do I"                             *)
(* ------------------------------------------------------------------ *)

Section HowDoI.

Lemma eqChar_i_lower (c : ascii) : Js.eqChar_i (Js.lowerChar c) c = true.
Proof.
  destruct c as [[] [] [] [] [] [] [] []]; reflexivity.
Qed.

(** A prefix of the lower-cased text is a prefix of the text under the
    flag [i]. *)
Lemma prefix_lower_prefix_i (pat s : string) :
  String.prefix pat (Js.toLowerCase s) = true -> Js.prefix_i pat s = true.
Proof.
  revert s; induction pat as [|a pat IH]; intros s H; [reflexivity|].
  destruct s as [|c s]; [discriminate H|]. cbn [Js.toLowerCase String.prefix] in H.
  destruct (ascii_dec a (Js.lowerChar c)) as [E|]; [|discriminate H].
  cbn [Js.prefix_i]. rewrite E, eqChar_i_lower. now apply IH.
Qed.

Lemma sentenceRestructuring_how_do_i (s : string) (htmlContent : value)
    (r : Rand) (p : Paraphrase) (r' : Rand) :
  Js.trim (Js.removeTags false s) = s ->
  Js.startsWith (Js.toLowerCase s) "how do i" = true ->
  applyParaphraseTechnique (VStr s) "sentenceRestructuring" "question" htmlContent r
  = (Ok p, r') ->
  p_text p = ("What is the process to" ++ Js.drop 8 s)%string.
Proof.
  intros Hclean Hstart H. rewrite applyParaphraseTechnique_unfold in H.
  apply bind_ok_inv in H. destruct H as [clean [r1 [E H]]].
  apply ret_ok_inv in E. destruct E as [E _]. rewrite Hclean in E. subst clean.
  cbn [String.eqb Ascii.eqb Bool.eqb andb] in H.
  rewrite sentenceRestructuring_unfold in H. cbv zeta in H.
  apply ret_ok_inv in H. destruct H as [H _]. subst p. cbn [p_text].
  cbn [String.eqb Ascii.eqb Bool.eqb andb]. rewrite Hstart.
  unfold Js.replacePrefix_i.
  now rewrite (prefix_lower_prefix_i _ _ Hstart).
Qed.

Lemma startsWith_lower_first (c a : ascii) (s pat : string) :
  Js.startsWith (Js.toLowerCase (String c s)) (String a pat) = true ->
  Js.lowerChar c = a.
Proof.
  unfold Js.startsWith. cbn [Js.toLowerCase String.prefix].
  destruct (ascii_dec a (Js.lowerChar c)) as [E|]; [now intros _ | discriminate].
Qed.

End HowDoI.

(** X7: a question that opens with "how do I", in any letter case, always
    gets the variant that opens with "What is the process to" instead,
    and this variant differs from the source, whatever the draws. *)
Theorem how_do_i_questions_get_a_variant
    (s : string) (htmlContent : value) (r : Rand) :
  Js.trim (Js.removeTags false s) = s ->
  Js.startsWith (Js.toLowerCase s) "how do i" = true ->
  exists vs r' v,
    generateVariants (VStr s) "question" htmlContent r = (Ok vs, r') /\
    In v vs /\
    Variant.technique v = "sentenceRestructuring" /\
    Variant.text v = ("What is the process to" ++ Js.drop 8 s)%string /\
    Variant.text v <> s.
Proof.
  intros Hclean Hstart.
  destruct (generateVariants_on_string s "question" htmlContent r)
    as [cat [cre [r1 [r2 [E1 [_ [E [L _]]]]]]]].
  destruct (catalogue_loop_applies _ _ _ _ _ _ _ _ _ 1 "sentenceRestructuring" E1)
    as [p [ra [rb [v [Ep [Hin [Hv Htext]]]]]]].
  { unfold indexed, techniques. simpl. auto. }
  exists (firstn 12 (cat ++ cre)), r2, v. split; [exact E|].
  rewrite (sentenceRestructuring_how_do_i _ _ _ _ _ Hclean Hstart Ep) in Htext.
  split; [|split; [exact Hv | split; [exact Htext|]]].
  - rewrite firstn_app, L. apply in_or_app. left.
    rewrite firstn_all2 by lia. exact Hin.
  - rewrite Htext. intro Heq.
    destruct s as [|c s']; [discriminate Hstart|].
    apply startsWith_lower_first in Hstart.
    cbn [append] in Heq. injection Heq as Hc _. subst c.
    vm_compute in Hstart. discriminate Hstart.
Qed.

Lemma how_do_i_questions_get_a_variant_witness :
  exists vs r' v,
    generateVariants (VStr "How do I reset my password?") "question" VNull halves
    = (Ok vs, r') /\
    In v vs /\
    Variant.technique v = "sentenceRestructuring" /\
    Variant.text v = "What is the process to reset my password?" /\
    Variant.text v <> "How do I reset my password?".
Proof.
  apply (how_do_i_questions_get_a_variant "How do I reset my password?" VNull halves);
    reflexivity.
Defined.

(* ------------------------------------------------------------------ *)
(** ** Splitting into sentences and joining them again                 *)
(* ------------------------------------------------------------------ *)

Lemma length_zero_empty (s : string) : String.length s = 0 -> s = "".
Proof. destruct s; [reflexivity | discriminate]. Qed.

Section Sentences.

Variable sep : string.
Hypothesis sep_not_empty : sep <> "".







End Sentences.



(* ------------------------------------------------------------------ *)
(** ** More on the scorer and the matcher                              *)
(* ------------------------------------------------------------------ *)

Section MoreMatcher.

Lemma prefix_refl (s : string) : String.prefix s s = true.
Proof.
  induction s as [|c s IH]; [reflexivity|]. simpl.
  destruct (ascii_dec c c); [exact IH | congruence].
Qed.

Lemma includes_refl (s : string) : Js.includes s s = true.
Proof.
  destruct s as [|c s]; [reflexivity|].
  cbn [Js.includes]. now rewrite prefix_refl.
Qed.

Lemma word_hit_refl (w : string) : word_hit w w = true.
Proof. unfold word_hit. now rewrite includes_refl. Qed.

Lemma count_matches_self (l : list string) : count_matches l l = List.length l.
Proof.
  rewrite count_matches_filter. f_equal.
  apply forallb_filter_id. apply forallb_forall. intros w Hw.
  apply existsb_exists. exists w. split; [exact Hw | apply word_hit_refl].
Qed.

Lemma filter_filter_and {A} (f g : A -> bool) (l : list A) :
  filter (fun x => f x && g x) (filter g l) = filter (fun x => f x && g x) l.
Proof.
  induction l as [|x l IH]; [reflexivity|]. simpl.
  destruct (g x) eqn:G; simpl.
  - rewrite G, IH. reflexivity.
  - rewrite andb_false_r. exact IH.
Qed.

Lemma loadFinal_approvedView (db : Database) (agentId : uuid) :
  loadFinal (approvedView db) agentId = loadFinal db agentId.
Proof.
  unfold loadFinal. cbn [Questions approvedView].
  apply flat_map_ext_in. intros q _.
  unfold finalAnswerOf, approvedAnswerVariants, approvedQuestionVariants.
  cbn [Answers QuestionVariants AnswerVariants approvedView].
  rewrite (filter_filter_and (fun v => qv_question_id v =? q_id q) qv_is_approved).
  destruct (find _ (Answers db)) as [a|]; [|reflexivity].
  now rewrite (filter_filter_and (fun v => av_answer_id v =? a_id a) av_is_approved).
Qed.

Lemma loadFinal_agentView (db : Database) (agentId : uuid) :
  loadFinal (agentView agentId db) agentId = loadFinal db agentId.
Proof.
  unfold loadFinal. cbn [Questions agentView].
  rewrite flat_map_filter_in; [reflexivity|].
  intros q _ Hq. now rewrite Hq.
Qed.

Lemma findMatchingAnswer_loaded (db1 db2 : Database) (agentId : uuid)
    (userMessage : string) (r : Rand) :
  loadFinal db1 agentId = loadFinal db2 agentId ->
  findMatchingAnswer (Available db1) agentId userMessage r
  = findMatchingAnswer (Available db2) agentId userMessage r.
Proof.
  intro H. unfold findMatchingAnswer, catch, findMatchingAnswer_try. cbv zeta.
  unfold bind at 1 3. cbn [Question_findAll_final lift]. now rewrite H.
Qed.

(** What is loaded comes from the tables. *)
Lemma loadFinal_In (db : Database) (agentId : uuid) (qw : QuestionWith) :
  In qw (loadFinal db agentId) ->
  exists a,
    qw_answer qw = Some {| aw_row := a; aw_variants := approvedAnswerVariants db a |} /\
    In (qw_row qw) (Questions db) /\ q_agent_id (qw_row qw) = agentId /\
    q_status (qw_row qw) = Final /\
    In a (Answers db) /\ a_question_id a = q_id (qw_row qw) /\ a_status a = Final.
Proof.
  unfold loadFinal. intro H. apply in_flat_map in H. destruct H as [q [Hq H]].
  destruct ((q_agent_id q =? agentId) && isFinal (q_status q)) eqn:C; [|contradiction].
  apply andb_true_iff in C. destruct C as [Ca Cs]. apply Nat.eqb_eq in Ca.
  destruct (finalAnswerOf db q) as [a|] eqn:F; [|contradiction].
  destruct H as [H | []]. subst qw. cbn [qw_answer qw_row].
  unfold finalAnswerOf in F. apply find_some in F. destruct F as [Ha Hc].
  apply andb_true_iff in Hc. destruct Hc as [Hc1 Hc2]. apply Nat.eqb_eq in Hc1.
  exists a. repeat split; try assumption.
  - destruct (q_status q); [discriminate Cs | reflexivity].
  - destruct (a_status a); [discriminate Hc2 | reflexivity].
Qed.

Lemma candidates_In (qs : list QuestionWith) (c : Candidate) :
  In c (candidates qs) ->
  In (c_question c) qs /\ qw_answer (c_question c) = Some (c_answer c).
Proof.
  unfold candidates. intro H. apply in_flat_map in H. destruct H as [q [Hq H]].
  unfold candidatesOf in H. destruct (qw_answer q) as [a|] eqn:E; [|contradiction].
  destruct H as [H | H].
  - subst c. cbn. auto.
  - apply in_map_iff in H. destruct H as [v [H _]]. subst c. cbn. auto.
Qed.

End MoreMatcher.

(** X9: a string that has a word of more than two characters scores 1
    against itself. *)
Theorem calculateSimilarity_self (a : string) :
  words_of a <> [] -> (calculateSimilarity a a == 1)%Q.
Proof.
  intro H. unfold calculateSimilarity.
  destruct (words_of a) as [|w ws] eqn:E; [congruence|].
  cbn [List.length Nat.eqb orb]. cbv zeta.
  rewrite count_matches_self, Nat.max_id.
  unfold Qeq. cbn [Qnum Qden List.length].
  rewrite Zpos_of_nat by lia. lia.
Qed.

Lemma calculateSimilarity_self_witness :
  (calculateSimilarity "what is your return policy?" "what is your return policy?" == 1)%Q.
Proof.
  apply (calculateSimilarity_self "what is your return policy?"). discriminate.
Defined.

(** X10: a variant that is not approved is invisible to the matcher: the
    result on a store is the result on the store without its
    unapproved question variants and answer variants. *)
Theorem unapproved_variants_are_invisible (db : Database) (agentId : uuid)
    (userMessage : string) (r : Rand) :
  findMatchingAnswer (Available db) agentId userMessage r
  = findMatchingAnswer (Available (approvedView db)) agentId userMessage r.
Proof.
  apply findMatchingAnswer_loaded. symmetry. apply loadFinal_approvedView.
Qed.

(** X11: the questions of the other agents are invisible to the
    matcher: the result for an agent is the result on the store with the
    questions of that agent only. *)
Theorem other_agents_are_invisible (db : Database) (agentId : uuid)
    (userMessage : string) (r : Rand) :
  findMatchingAnswer (Available db) agentId userMessage r
  = findMatchingAnswer (Available (agentView agentId db)) agentId userMessage r.
Proof.
  apply findMatchingAnswer_loaded. symmetry. apply loadFinal_agentView.
Qed.

(** A payload the matcher returns with fair draws is the fallback, or
    it points into the store and scores above 0.3. *)
Lemma findMatchingAnswer_pointed (db : Database) (agentId : uuid)
    (userMessage : string) (r : Rand) (p : Payload) (r' : Rand) :
  fair r ->
  findMatchingAnswer (Available db) agentId userMessage r = (Ok p, r') ->
  p = fallback \/ (pointsInto db agentId p /\ (3 # 10 < score p)%Q).
Proof.
  intros Hr Hrun.
  destruct (findMatchingAnswer_outcome db agentId userMessage r Hr)
    as [p0 [r0 [E [_ Ho]]]].
  rewrite E in Hrun. inversion Hrun; subst p0 r0; clear Hrun.
  unfold outcome in Ho. cbv zeta in Ho.
  set (lowerMessage := Js.trim (Js.toLowerCase userMessage)) in *.
  set (cands := candidates (loadFinal db agentId)) in *.
  pose proof (winner_winnerOf lowerMessage cands) as Hw. unfold winnerOf in Hw.
  destruct (fst (winner lowerMessage cands)) as [c|]; [|now left].
  destruct Hw as [Hs [_ [pre [post [Hc _]]]]].
  destruct (Qgtb (snd (winner lowerMessage cands)) (3 # 10)) eqn:G; [|now left].
  right. apply Qgtb_true in G.
  destruct Ho as [Hq [Ha [Hsc Hres]]].
  split; [|rewrite Hsc, <- Hs; exact G].
  assert (Hin : In c cands) by (rewrite Hc; apply in_or_app; right; now left).
  apply candidates_In in Hin. destruct Hin as [Hload Hans].
  apply loadFinal_In in Hload.
  destruct Hload as [a [Hqa [Hq1 [Hq2 [Hq3 [Ha1 [Ha2 Ha3]]]]]]].
  rewrite Hans in Hqa. inversion Hqa as [Hca]. clear Hqa.
  exists (qw_row (c_question c)), a.
  unfold resolvesTo in Hres.
  rewrite Hca in Ha, Hres. cbn [aw_row aw_variants] in Ha, Hres.
  repeat (split; [assumption|]).
  assert (Hav : forall av, In av (approvedAnswerVariants db a) ->
                  In av (AnswerVariants db) /\ av_answer_id av = a_id a /\
                  av_is_approved av = true).
  { intros av H. unfold approvedAnswerVariants in H. apply filter_In in H.
    destruct H as [H1 H2]. apply andb_true_iff in H2. destruct H2 as [H2 H3].
    apply Nat.eqb_eq in H2. auto. }
  destruct (c_variant c) as [v|]; [|now left].
  destruct (approvedAnswerVariants db a) as [|av0 avs] eqn:Ev; [now left|].
  destruct Hres as [av [Hin [Ht Hh]]]. right. exists av.
  destruct (Hav av Hin) as [H1 [H2 H3]]. auto.
Qed.


(** X12: with fair draws, a payload that is not the fallback points into
    the store: its question is a published question of the agent, its
    answer is the published answer of that question, its text and html
    are those of the answer or of one approved variant of it, and its
    score exceeds 0.3. *)
Theorem findMatchingAnswer_points_into_the_store (db : Database) (agentId : uuid)
    (userMessage : string) (r : Rand) :
  fair r ->
  exists p r',
    findMatchingAnswer (Available db) agentId userMessage r = (Ok p, r') /\
    (p = fallback \/ (pointsInto db agentId p /\ (3 # 10 < score p)%Q)).
Proof.
  intro Hr.
  destruct (findMatchingAnswer_outcome db agentId userMessage r Hr)
    as [p [r' [E _]]].
  exists p, r'. split; [exact E|].
  exact (findMatchingAnswer_pointed db agentId userMessage r p r' Hr E).
Qed.

Lemma findMatchingAnswer_points_into_the_store_witness :
  exists p r',
    findMatchingAnswer (Available returnsDb) 7 "which is the return policy" halves
    = (Ok p, r') /\
    (p = fallback \/ (pointsInto returnsDb 7 p /\ (3 # 10 < score p)%Q)).
Proof.
  exact (findMatchingAnswer_points_into_the_store
           returnsDb 7 "which is the return policy" halves halves_fair).
Defined.

Section ShortUtterance.

Variable lowerMessage : string.
Hypothesis no_word : words_of lowerMessage = [].

Lemma calculateSimilarity_no_word (str2 : string) :
  calculateSimilarity lowerMessage str2 = 0%Q.
Proof. unfold calculateSimilarity. now rewrite no_word. Qed.

(** Without a word to score, the running best never moves, and nothing
    is drawn. *)
Lemma candidates_loop_no_word (cands : list Candidate) (r : Rand) :
  forEachM (stepCandidate lowerMessage) cands (None, 0%Q) r = (Ok (None, 0%Q), r).
Proof.
  induction cands as [|c cands IH]; [reflexivity|].
  cbn [forEachM]. unfold bind.
  assert (E : stepCandidate lowerMessage (None, 0%Q) c r = (Ok (None, 0%Q), r)).
  { unfold stepCandidate, checkVariant, scoreOf.
    destruct (c_variant c); rewrite calculateSimilarity_no_word; reflexivity. }
  rewrite E. exact IH.
Qed.

End ShortUtterance.

(** X13: an utterance without a word of more than two characters (the
    empty utterance, "hi", "ok") gets the no-information fallback from
    every store that answers, and no draw is made. *)
Theorem short_utterance_gets_the_fallback (db : Database) (agentId : uuid)
    (userMessage : string) (r : Rand) :
  words_of (Js.trim (Js.toLowerCase userMessage)) = [] ->
  findMatchingAnswer (Available db) agentId userMessage r = (Ok fallback, r).
Proof.
  intro H. unfold findMatchingAnswer, catch, findMatchingAnswer_try. cbv zeta.
  unfold bind at 1. cbn [Question_findAll_final lift].
  unfold bind at 1. rewrite questions_loop_candidates.
  rewrite (candidates_loop_no_word _ H). reflexivity.
Qed.

Lemma short_utterance_gets_the_fallback_witness :
  findMatchingAnswer (Available returnsDb) 7 " Hi ok " halves = (Ok fallback, halves).
Proof.
  apply (short_utterance_gets_the_fallback returnsDb 7 " Hi ok " halves). reflexivity.
Defined.

(* ------------------------------------------------------------------ *)
(** ** The utterance, up to case and surrounding white space           *)
(* ------------------------------------------------------------------ *)

Section Normalised.

Lemma lowerChar_idempotent (c : ascii) : Js.lowerChar (Js.lowerChar c) = Js.lowerChar c.
Proof. destruct c as [[] [] [] [] [] [] [] []]; reflexivity. Qed.

Lemma isSpace_lowerChar (c : ascii) : Js.isSpace (Js.lowerChar c) = Js.isSpace c.
Proof. destruct c as [[] [] [] [] [] [] [] []]; reflexivity. Qed.

Lemma toLowerCase_idempotent (s : string) :
  Js.toLowerCase (Js.toLowerCase s) = Js.toLowerCase s.
Proof.
  induction s as [|c s IH]; [reflexivity|]. simpl.
  now rewrite lowerChar_idempotent, IH.
Qed.

Lemma toLowerCase_append (a b : string) :
  Js.toLowerCase (a ++ b) = (Js.toLowerCase a ++ Js.toLowerCase b)%string.
Proof. induction a as [|c a IH]; [reflexivity|]. simpl. now rewrite IH. Qed.

Lemma toLowerCase_rev (s : string) : Js.toLowerCase (Js.rev s) = Js.rev (Js.toLowerCase s).
Proof.
  induction s as [|c s IH]; [reflexivity|].
  cbn [Js.toLowerCase]. now rewrite !str_rev_cons, toLowerCase_append, IH.
Qed.

Lemma toLowerCase_trimStart (s : string) :
  Js.toLowerCase (Js.trimStart s) = Js.trimStart (Js.toLowerCase s).
Proof.
  induction s as [|c s IH]; [reflexivity|].
  cbn [Js.toLowerCase Js.trimStart]. rewrite isSpace_lowerChar.
  destruct (Js.isSpace c); [exact IH | reflexivity].
Qed.

Lemma toLowerCase_trim (s : string) : Js.toLowerCase (Js.trim s) = Js.trim (Js.toLowerCase s).
Proof.
  unfold Js.trim.
  now rewrite toLowerCase_rev, toLowerCase_trimStart, toLowerCase_rev,
    toLowerCase_trimStart.
Qed.

Lemma findMatchingAnswer_same_lowerMessage (st : Storage) (agentId : uuid)
    (m1 m2 : string) (r : Rand) :
  Js.trim (Js.toLowerCase m1) = Js.trim (Js.toLowerCase m2) ->
  findMatchingAnswer st agentId m1 r = findMatchingAnswer st agentId m2 r.
Proof.
  intro H. unfold findMatchingAnswer, findMatchingAnswer_try. cbv zeta.
  now rewrite H.
Qed.

End Normalised.

(** X14: the matcher reads the utterance up to letter case and
    surrounding white space: lower-casing the utterance beforehand, or
    trimming it, gives the same result. *)
Theorem utterance_case_and_padding_do_not_matter (st : Storage) (agentId : uuid)
    (userMessage : string) (r : Rand) :
  findMatchingAnswer st agentId (Js.toLowerCase userMessage) r
  = findMatchingAnswer st agentId userMessage r
  /\
  findMatchingAnswer st agentId (Js.trim userMessage) r
  = findMatchingAnswer st agentId userMessage r.
Proof.
  split; apply findMatchingAnswer_same_lowerMessage.
  - now rewrite toLowerCase_idempotent.
  - now rewrite toLowerCase_trim, trim_idempotent.
Qed.

(* ------------------------------------------------------------------ *)
(** ** The rows the handlers write                                     *)
(* ------------------------------------------------------------------ *)

Section Rows.

(** The rows a run of [QuestionVariant.create] appends. *)
Lemma question_variants_created (question : uuid) (vs : list Variant.t) (db : Database) :
  let db' := fold_left
               (fun d variant => QuestionVariant_create d question (Variant.text variant))
               vs db in
  exists rows,
    QuestionVariants db' = QuestionVariants db ++ rows /\
    map qv_variant_text rows = map Variant.text vs /\
    Forall (fun v => qv_question_id v = question /\ qv_is_approved v = true) rows /\
    AnswerVariants db' = AnswerVariants db /\
    next_uuid db <= next_uuid db'.
Proof.
  revert db; induction vs as [|v vs IH]; intro db; cbv zeta.
  - exists []. rewrite app_nil_r. repeat split; auto.
  - cbn [fold_left].
    destruct (IH (QuestionVariant_create db question (Variant.text v)))
      as [rows [Q [T [F [A N]]]]].
    cbn [QuestionVariants AnswerVariants next_uuid QuestionVariant_create] in Q, A, N.
    eexists (_ :: rows). rewrite Q, A, <- app_assoc.
    split; [reflexivity|]. split; [cbn; now rewrite T|].
    split; [constructor; [split; reflexivity | exact F]|].
    split; [reflexivity | lia].
Qed.

Lemma answer_variants_created (answer : uuid) (vs : list Variant.t) (db : Database) :
  let db' := fold_left
               (fun d variant =>
                  AnswerVariant_create d answer (Variant.text variant) (Variant.html variant))
               vs db in
  exists rows,
    AnswerVariants db' = AnswerVariants db ++ rows /\
    map av_variant_text rows = map Variant.text vs /\
    map av_variant_html rows = map Variant.html vs /\
    Forall (fun v => av_answer_id v = answer /\ av_is_approved v = true) rows /\
    QuestionVariants db' = QuestionVariants db.
Proof.
  revert db; induction vs as [|v vs IH]; intro db; cbv zeta.
  - exists []. rewrite app_nil_r. repeat split; auto.
  - cbn [fold_left].
    destruct (IH (AnswerVariant_create db answer (Variant.text v) (Variant.html v)))
      as [rows [A [T [H [F Q]]]]].
    cbn [QuestionVariants AnswerVariants AnswerVariant_create] in Q, A.
    eexists (_ :: rows). rewrite Q, A, <- app_assoc.
    split; [reflexivity|]. split; [cbn; now rewrite T|]. split; [cbn; now rewrite H|].
    split; [constructor; [split; reflexivity | exact F] | reflexivity].
Qed.

Lemma filter_none {A} (p : A -> bool) (l : list A) :
  (forall x, In x l -> p x = false) -> filter p l = [].
Proof.
  intro H. induction l as [|x l IH]; [reflexivity|]. simpl.
  rewrite (H x (or_introl eq_refl)). apply IH. intros y Hy. apply H. now right.
Qed.

Lemma filter_all {A} (p : A -> bool) (l : list A) :
  (forall x, In x l -> p x = true) -> filter p l = l.
Proof.
  intro H. induction l as [|x l IH]; [reflexivity|]. simpl.
  rewrite (H x (or_introl eq_refl)). f_equal. apply IH. intros y Hy. apply H. now right.
Qed.

Lemma find_none_all {A} (p : A -> bool) (l : list A) :
  (forall x, In x l -> p x = false) -> find p l = None.
Proof.
  intro H. induction l as [|x l IH]; [reflexivity|]. simpl.
  rewrite (H x (or_introl eq_refl)). apply IH. intros y Hy. apply H. now right.
Qed.

Lemma find_app_skip {A} (p : A -> bool) (l1 l2 : list A) :
  (forall x, In x l2 -> p x = false) -> find p (l1 ++ l2) = find p l1.
Proof.
  intro H. induction l1 as [|x l1 IH]; simpl.
  - now apply find_none_all.
  - destruct (p x); [reflexivity | exact IH].
Qed.

Lemma find_app_new {A} (p : A -> bool) (l1 : list A) (x : A) :
  (forall y, In y l1 -> p y = false) -> p x = true -> find p (l1 ++ [x]) = Some x.
Proof.
  intros H Hx. induction l1 as [|y l1 IH]; simpl.
  - now rewrite Hx.
  - rewrite (H y (or_introl eq_refl)). apply IH. intros z Hz. apply H. now right.
Qed.

End Rows.

(* ------------------------------------------------------------------ *)
(** ** Creating a question                                             *)
(* ------------------------------------------------------------------ *)

Section Create.

Variables (db db' : Database) (nq : Question) (na : Answer)
          (rowsQ : list QuestionVariant) (rowsA : list AnswerVariant).

Hypothesis keys : wellKeyed db.
Hypothesis questions' : Questions db' = Questions db ++ [nq].
Hypothesis answers' : Answers db' = Answers db ++ [na].
Hypothesis qvariants' : QuestionVariants db' = QuestionVariants db ++ rowsQ.
Hypothesis avariants' : AnswerVariants db' = AnswerVariants db ++ rowsA.
Hypothesis nq_draft : q_status nq = Draft.
Hypothesis na_draft : a_status na = Draft.
Hypothesis rowsQ_new : Forall (fun v => qv_question_id v = next_uuid db) rowsQ.
Hypothesis rowsA_new : Forall (fun v => av_answer_id v = S (next_uuid db)) rowsA.

(** New rows that are drafts, or that hang on fresh keys, change nothing
    of what the matcher loads. *)
Lemma loadFinal_after_create (agentId : uuid) :
  loadFinal db' agentId = loadFinal db agentId.
Proof.
  destruct keys as [Kq Ka].
  unfold loadFinal. rewrite questions', flat_map_app. cbn [flat_map].
  rewrite nq_draft, andb_false_r. cbn [app]. rewrite ?app_nil_r.
  apply flat_map_ext_in. intros q Hq.
  destruct ((q_agent_id q =? agentId) && isFinal (q_status q)); [|reflexivity].
  assert (Hf : finalAnswerOf db' q = finalAnswerOf db q).
  { unfold finalAnswerOf. rewrite answers'. apply find_app_skip.
    intros x [Hx | []]. subst x. now rewrite na_draft, andb_false_r. }
  rewrite Hf. destruct (finalAnswerOf db q) as [a|] eqn:Ea; [|reflexivity].
  assert (Hqv : approvedQuestionVariants db' q = approvedQuestionVariants db q).
  { unfold approvedQuestionVariants. rewrite qvariants', filter_app.
    rewrite (filter_none _ rowsQ); [apply app_nil_r|].
    intros v Hv. rewrite Forall_forall in rowsQ_new. rewrite (rowsQ_new v Hv).
    specialize (Kq q Hq).
    destruct (Nat.eqb_spec (next_uuid db) (q_id q)); [lia | reflexivity]. }
  assert (Hav : approvedAnswerVariants db' a = approvedAnswerVariants db a).
  { unfold approvedAnswerVariants. rewrite avariants', filter_app.
    rewrite (filter_none _ rowsA); [apply app_nil_r|].
    intros v Hv. rewrite Forall_forall in rowsA_new. rewrite (rowsA_new v Hv).
    unfold finalAnswerOf in Ea. apply find_some in Ea. destruct Ea as [Hin _].
    destruct (Ka a Hin) as [Hlt _].
    destruct (Nat.eqb_spec (S (next_uuid db)) (a_id a)); [lia | reflexivity]. }
  now rewrite Hqv, Hav.
Qed.

End Create.

(** X15: a question that has just been created is a draft, and so is
    its answer; on a store whose keys are older than the next fresh key,
    the creation changes no answer of the matcher, for any agent,
    utterance and draws. *)
Theorem createQuestion_is_invisible (req : CreateRequest) (agents : list Agent)
    (db : Database) (r : Rand) (st' : Storage) (r' : Rand) :
  wellKeyed db ->
  createQuestion req agents (Available db) r = (201, st', r') ->
  exists db',
    st' = Available db' /\
    (exists q a,
        Question_findByPk db' (next_uuid db) = Some (q, Some a) /\
        q_agent_id q = params_agentId req /\
        question_text q = Js.trim (new_question_text req) /\
        answer_text a = Js.trim (new_answer_text req) /\
        q_status q = Draft /\ a_status a = Draft) /\
    (forall agentId userMessage rr,
        findMatchingAnswer (Available db') agentId userMessage rr
        = findMatchingAnswer (Available db) agentId userMessage rr).
Proof.
  intros Hkeys H. unfold createQuestion in H. cbv zeta in H.
  destruct (_ || _ || _); [discriminate H|].
  destruct (find _ agents); [|discriminate H].
  destruct (generateVariants _ "question" VNull r) as [[qvs|e] r1]; [|discriminate H].
  destruct (generateVariants _ "answer" _ r1) as [[avs|e] r2]; [|discriminate H].
  inversion H as [[Hst Hr]]; clear H Hr.
  set (db1 := Question_create db (params_agentId req) (Js.trim (new_question_text req))).
  set (db2 := Answer_create db1 (next_uuid db) (Js.trim (new_answer_text req))
                            (Js.trim (new_answer_html req))).
  set (db3 := fold_left (fun d variant =>
                           QuestionVariant_create d (next_uuid db) (Variant.text variant))
                        qvs db2).
  set (db4 := fold_left (fun d variant =>
                           AnswerVariant_create d (S (next_uuid db)) (Variant.text variant)
                                                (Variant.html variant))
                        avs db3).
  exists db4. split; [reflexivity|].
  destruct (create_question_variants_keep (next_uuid db) qvs db2) as [Q3 A3].
  destruct (create_answer_variants_keep (S (next_uuid db)) avs db3) as [Q4 A4].
  destruct (question_variants_created (next_uuid db) qvs db2) as [rowsQ [V3 [_ [F3 [W3 _]]]]].
  destruct (answer_variants_created (S (next_uuid db)) avs db3) as [rowsA [W4 [_ [_ [F4 V4]]]]].
  cbv zeta in Q3, A3, Q4, A4, V3, W3, V4, W4.
  fold db3 in Q3, A3, V3, W3, Q4, A4, V4, W4. fold db4 in Q4, A4, V4, W4.
  assert (HQ : Questions db4 = Questions db ++
                 [ {| q_id := next_uuid db; q_agent_id := params_agentId req;
                      question_text := Js.trim (new_question_text req);
                      q_status := Draft |} ])
    by (rewrite Q4, Q3; reflexivity).
  assert (HA : Answers db4 = Answers db ++
                 [ {| a_id := S (next_uuid db); a_question_id := next_uuid db;
                      answer_text := Js.trim (new_answer_text req);
                      answer_html := Js.trim (new_answer_html req);
                      a_status := Draft |} ])
    by (rewrite A4, A3; reflexivity).
  destruct Hkeys as [Kq Ka]. split.
  - unfold Question_findByPk. rewrite HQ, HA.
    rewrite find_app_new;
      [| intros y Hy; specialize (Kq y Hy);
         destruct (Nat.eqb_spec (q_id y) (next_uuid db)); [lia | reflexivity]
       | cbn; apply Nat.eqb_refl ].
    cbn [q_id]. rewrite find_app_new;
      [| intros y Hy; destruct (Ka y Hy) as [_ Hlt];
         destruct (Nat.eqb_spec (a_question_id y) (next_uuid db)); [lia | reflexivity]
       | cbn; apply Nat.eqb_refl ].
    eexists; eexists. split; [reflexivity|]. cbn. auto.
  - intros agentId userMessage rr. apply findMatchingAnswer_loaded.
    eapply (loadFinal_after_create db db4 _ _ rowsQ rowsA);
      [split; assumption | exact HQ | exact HA | | | reflexivity | reflexivity | | ].
    + rewrite V4, V3. reflexivity.
    + rewrite W4, W3. reflexivity.
    + eapply Forall_impl; [|exact F3]. now intros v [Hv _].
    + eapply Forall_impl; [|exact F4]. now intros v [Hv _].
Qed.

Lemma returnsDb_wellKeyed : wellKeyed returnsDb.
Proof.
  split; intros x [Hx | []]; subst x; cbn; lia.
Qed.

Lemma createQuestion_is_invisible_witness :
  exists db',
    fst (fst (createQuestion createRequest oneAgent (Available returnsDb) zeros)) = 201 /\
    (exists q a,
        Question_findByPk db' (next_uuid returnsDb) = Some (q, Some a) /\
        q_agent_id q = params_agentId createRequest /\
        question_text q = Js.trim (new_question_text createRequest) /\
        answer_text a = Js.trim (new_answer_text createRequest) /\
        q_status q = Draft /\ a_status a = Draft) /\
    (forall agentId userMessage rr,
        findMatchingAnswer (Available db') agentId userMessage rr
        = findMatchingAnswer (Available returnsDb) agentId userMessage rr).
Proof.
  destruct (createQuestion_is_invisible createRequest oneAgent returnsDb zeros
              (snd (fst (createQuestion createRequest oneAgent (Available returnsDb) zeros)))
              (snd (createQuestion createRequest oneAgent (Available returnsDb) zeros))
              returnsDb_wellKeyed)
    as [db' [_ [H1 H2]]].
  - vm_compute. reflexivity.
  - exists db'. split; [vm_compute; reflexivity|]. split; assumption.
Defined.

(* ------------------------------------------------------------------ *)
(** ** Chat sessions                                                   *)
(* ------------------------------------------------------------------ *)

Section Chat.

Lemma find_In_some {A} (p : A -> bool) (l : list A) (x : A) :
  In x l -> p x = true -> exists y, find p l = Some y.
Proof.
  intros Hin Hp. destruct (find p l) as [y|] eqn:E; [now exists y|].
  now rewrite (find_none _ _ E x Hin) in Hp.
Qed.

Lemma ended_none_active (user agent : uuid) (l : list ChatSession) :
  filter (ownActive user agent)
         (map (fun c => if ownActive user agent c then deactivate c else c) l) = [].
Proof.
  apply filter_none. intros x Hx. apply in_map_iff in Hx. destruct Hx as [c [Hc _]].
  subst x. destruct (ownActive user agent c) eqn:E; [|exact E].
  unfold ownActive, deactivate. cbn. apply andb_false_r.
Qed.

Lemma ended_keeps_ids (user agent : uuid) (l : list ChatSession) (x : ChatSession) :
  In x (map (fun c => if ownActive user agent c then deactivate c else c) l) ->
  exists c, In c l /\ cs_id x = cs_id c.
Proof.
  intro Hx. apply in_map_iff in Hx. destruct Hx as [c [Hc Hin]]. exists c.
  split; [exact Hin|]. subst x. now destruct (ownActive user agent c).
Qed.

(** The matcher returns a payload, whatever the store and the draws. *)
Lemma findMatchingAnswer_ok (st : Storage) (agentId : uuid) (userMessage : string)
    (r : Rand) :
  exists p r', findMatchingAnswer st agentId userMessage r = (Ok p, r').
Proof.
  unfold findMatchingAnswer, catch.
  destruct (findMatchingAnswer_try st agentId userMessage r) as [[p|e] r'].
  - now exists p, r'.
  - now exists technicalFallback, r'.
Qed.

Lemma trim_empty_blank (m : string) : truthy (VStr m) = false -> Js.trim m = "".
Proof. destruct m; [reflexivity | discriminate]. Qed.

End Chat.

(** X16: a chat that starts leaves the user exactly one active session
    with the agent, the new one, whatever sessions were open before; the
    sessions of the other users and with the other agents stay as they
    are, no message is touched, and the agent is a published one. *)
Theorem startChat_one_active_session (user agentId : uuid) (st : ChatStorage)
    (sid : option uuid) (st' : ChatStorage) :
  startChat user agentId st = (200, sid, st') ->
  exists s s',
    st = ChatUp s /\ st' = ChatUp s' /\ sid = Some (chat_uuid s) /\
    filter (ownActive user agentId) (ChatSessions s')
    = [ {| cs_id := chat_uuid s; cs_user_id := user; cs_agent_id := agentId;
           is_active := true |} ] /\
    (forall c, In c (ChatSessions s) -> ownActive user agentId c = false ->
               In c (ChatSessions s')) /\
    ChatMessages s' = ChatMessages s /\ content s' = content s /\
    (exists agent, In agent (Agents s) /\ ag_id agent = agentId /\ ag_status agent = Final).
Proof.
  intro H. unfold startChat in H. destruct st as [|s]; [discriminate H|].
  destruct (find _ (Agents s)) as [agent|] eqn:Ea; [|discriminate H].
  cbv zeta in H. inversion H; subst sid st'; clear H.
  eexists; eexists. split; [reflexivity|]. split; [reflexivity|].
  cbn [ChatSessions ChatMessages content cs_id].
  split; [reflexivity|]. split; [|split; [|split; [reflexivity | split; [reflexivity|]]]].
  - rewrite filter_app, ended_none_active. cbn [filter app].
    unfold ownActive at 1. cbn. now rewrite !Nat.eqb_refl.
  - intros c Hc Hown. apply in_or_app. left. apply in_map_iff. exists c.
    rewrite Hown. auto.
  - apply find_some in Ea. destruct Ea as [Hin Hc].
    apply andb_true_iff in Hc. destruct Hc as [Hid Hfin]. apply Nat.eqb_eq in Hid.
    exists agent. repeat split; [exact Hin | exact Hid |].
    destruct (ag_status agent); [discriminate Hfin | reflexivity].
Qed.

Lemma startChat_one_active_session_witness :
  exists s s',
    ChatUp chatStore = ChatUp s /\
    snd (startChat 3 7 (ChatUp chatStore)) = ChatUp s' /\
    snd (fst (startChat 3 7 (ChatUp chatStore))) = Some (chat_uuid s) /\
    filter (ownActive 3 7) (ChatSessions s')
    = [ {| cs_id := chat_uuid s; cs_user_id := 3; cs_agent_id := 7;
           is_active := true |} ] /\
    (forall c, In c (ChatSessions s) -> ownActive 3 7 c = false ->
               In c (ChatSessions s')) /\
    ChatMessages s' = ChatMessages s /\ content s' = content s /\
    (exists agent, In agent (Agents s) /\ ag_id agent = 7 /\ ag_status agent = Final).
Proof.
  apply (startChat_one_active_session 3 7 (ChatUp chatStore)). reflexivity.
Defined.

(** X17: a message that is accepted is recorded as an exchange: the
    session is an active session of the user, two messages are appended,
    the trimmed text of the user and the reply the matcher gives for the
    agent of that session on the content of the store; with fair draws
    the reply is the fallback or points into that content.  The sessions
    and the content stay as they are. *)
Theorem sendMessage_records_the_exchange (user sessionId : uuid) (message : value)
    (s : ChatStore) (r : Rand) (st' : ChatStorage) (r' : Rand) :
  fair r ->
  sendMessage user sessionId message (ChatUp s) r = (200, st', r') ->
  exists m session p s',
    message = VStr m /\ st' = ChatUp s' /\
    In session (ChatSessions s) /\ cs_id session = sessionId /\
    cs_user_id session = user /\ is_active session = true /\
    findMatchingAnswer (Available (content s)) (cs_agent_id session) (Js.trim m) r
    = (Ok p, r') /\
    (p = fallback \/ pointsInto (content s) (cs_agent_id session) p) /\
    ChatMessages s'
    = ChatMessages s ++
      [ {| cm_id := chat_uuid s; cm_session_id := sessionId; message_type := FromUser;
           message_text := Js.trim m; message_html := None;
           cm_question_id := None; cm_answer_id := None |};
        {| cm_id := S (chat_uuid s); cm_session_id := sessionId;
           message_type := FromAgent;
           message_text := text p; message_html := Some (html p);
           cm_question_id := question_id p; cm_answer_id := answer_id p |} ] /\
    ChatSessions s' = ChatSessions s /\ content s' = content s.
Proof.
  intros Hr H. unfold sendMessage in H. destruct message as [|m]; [discriminate H|].
  destruct (_ || _); [discriminate H|].
  destruct (find _ (ChatSessions s)) as [session|] eqn:Es; [|discriminate H].
  cbv zeta in H.
  destruct (find _ (Agents s)) as [agent|] eqn:Ea; [|discriminate H].
  destruct (findMatchingAnswer _ _ _ r) as [[p|e] r1] eqn:Ef; [|discriminate H].
  inversion H; subst st' r1; clear H.
  apply find_some in Es. destruct Es as [Hin Hc].
  apply andb_true_iff in Hc. destruct Hc as [Hc Hact].
  apply andb_true_iff in Hc. destruct Hc as [Hid Husr].
  apply Nat.eqb_eq in Hid. apply Nat.eqb_eq in Husr.
  apply find_some in Ea. destruct Ea as [_ Hag]. apply Nat.eqb_eq in Hag.
  rewrite Hag in Ef.
  exists m, session, p. eexists. split; [reflexivity|]. split; [reflexivity|].
  repeat (split; [assumption|]).
  split.
  - destruct (findMatchingAnswer_pointed _ _ _ _ _ _ Hr Ef) as [Hp | [Hp _]]; auto.
  - cbn [ChatMessages ChatSessions content chat_uuid ChatMessage_create].
    rewrite <- app_assoc. cbn [app]. auto.
Qed.

Lemma sendMessage_records_the_exchange_witness :
  exists m session p s',
    VStr "  What is your return policy? " = VStr m /\
    snd (fst (sendMessage 3 20 (VStr "  What is your return policy? ")
                          (ChatUp chatStore) halves)) = ChatUp s' /\
    In session (ChatSessions chatStore) /\ cs_id session = 20 /\
    cs_user_id session = 3 /\ is_active session = true /\
    findMatchingAnswer (Available (content chatStore)) (cs_agent_id session) (Js.trim m)
                       halves
    = (Ok p, snd (sendMessage 3 20 (VStr "  What is your return policy? ")
                              (ChatUp chatStore) halves)) /\
    (p = fallback \/ pointsInto (content chatStore) (cs_agent_id session) p) /\
    ChatMessages s'
    = ChatMessages chatStore ++
      [ {| cm_id := chat_uuid chatStore; cm_session_id := 20; message_type := FromUser;
           message_text := Js.trim m; message_html := None;
           cm_question_id := None; cm_answer_id := None |};
        {| cm_id := S (chat_uuid chatStore); cm_session_id := 20;
           message_type := FromAgent;
           message_text := text p; message_html := Some (html p);
           cm_question_id := question_id p; cm_answer_id := answer_id p |} ] /\
    ChatSessions s' = ChatSessions chatStore /\ content s' = content chatStore.
Proof.
  apply (sendMessage_records_the_exchange 3 20 (VStr "  What is your return policy? ")
           chatStore halves
           (snd (fst (sendMessage 3 20 (VStr "  What is your return policy? ")
                                  (ChatUp chatStore) halves)))
           (snd (sendMessage 3 20 (VStr "  What is your return policy? ")
                             (ChatUp chatStore) halves))
           halves_fair).
  vm_compute. reflexivity.
Defined.



(** X19: on a store whose session keys are older than the next fresh
    key, the session a start returns accepts every message that is not
    blank: the request succeeds, whatever the content and the draws. *)
Theorem started_session_accepts_messages (user agentId : uuid) (s : ChatStore)
    (sid : uuid) (st1 : ChatStorage) (m : string) (r : Rand) :
  (forall c, In c (ChatSessions s) -> cs_id c < chat_uuid s) ->
  startChat user agentId (ChatUp s) = (200, Some sid, st1) ->
  Js.trim m <> "" ->
  exists st2 r', sendMessage user sid (VStr m) st1 r = (200, st2, r').
Proof.
  intros Hkeys H Hm. unfold startChat in H.
  destruct (find _ (Agents s)) as [agent|] eqn:Ea; [|discriminate H].
  cbv zeta in H. inversion H; subst sid st1; clear H.
  unfold sendMessage.
  destruct (truthy (VStr m)) eqn:Et;
    [|exfalso; apply Hm; now apply trim_empty_blank].
  destruct (String.length (Js.trim m) =? 0) eqn:El;
    [exfalso; apply Hm; apply Nat.eqb_eq in El; now apply length_zero_empty|].
  cbn [negb orb ChatSessions cs_id].
  rewrite find_app_new.
  - cbv zeta. cbn [cs_agent_id Agents ChatMessage_create].
    apply find_some in Ea. destruct Ea as [Hin Hc].
    apply andb_true_iff in Hc. destruct Hc as [Hid _].
    rewrite (find_map_stable (fun a => ag_id a =? agentId));
      [|intro x; now destruct (ag_id x =? ag_id agent)].
    destruct (find_In_some (fun a => ag_id a =? agentId) (Agents s) agent Hin Hid)
      as [agent0 E0].
    rewrite E0. cbn [option_map].
    match goal with
    | |- context [findMatchingAnswer ?a ?b ?c ?d] =>
        destruct (findMatchingAnswer_ok a b c d) as [p [r' Ef]]
    end.
    rewrite Ef. eexists; eexists; reflexivity.
  - intros y Hy. apply ended_keeps_ids in Hy. destruct Hy as [c [Hc Hyc]].
    rewrite Hyc. specialize (Hkeys c Hc).
    destruct (Nat.eqb_spec (cs_id c) (chat_uuid s)); [lia | reflexivity].
  - cbn. now rewrite !Nat.eqb_refl.
Qed.

Lemma started_session_accepts_messages_witness :
  exists st2 r',
    sendMessage 3 22 (VStr "What is your return policy?")
                (snd (startChat 3 7 (ChatUp chatStore))) halves
    = (200, st2, r').
Proof.
  apply (started_session_accepts_messages 3 7 chatStore 22).
  - intros c [Hc | [Hc | []]]; subst c; cbn; lia.
  - reflexivity.
  - discriminate.
Defined.

(* ------------------------------------------------------------------ *)
(** ** A published question and its own text                           *)
(* ------------------------------------------------------------------ *)

Section OwnText.

Lemma calculateSimilarity_same (a : string) :
  words_of a <> [] -> (calculateSimilarity a a == 1)%Q.
Proof.
  intro H. unfold calculateSimilarity.
  destruct (words_of a) as [|w ws] eqn:E; [congruence|].
  cbn [List.length Nat.eqb orb]. cbv zeta.
  rewrite count_matches_self, Nat.max_id.
  unfold Qeq. cbn [Qnum Qden List.length].
  rewrite Zpos_of_nat by lia. lia.
Qed.

Lemma calculateSimilarity_le_one (a b : string) : (calculateSimilarity a b <= 1)%Q.
Proof.
  unfold calculateSimilarity.
  destruct (words_of a) as [|x xs] eqn:Ea; cbn [List.length Nat.eqb orb];
    [discriminate|].
  destruct (words_of b) as [|y ys] eqn:Eb; cbn [List.length Nat.eqb orb];
    [discriminate|].
  cbv zeta.
  pose proof (count_matches_le (x :: xs) (y :: ys)) as Hle.
  cbn [List.length] in Hle.
  unfold Qle; cbn [Qnum Qden].
  rewrite Zpos_of_nat by lia. lia.
Qed.

(** A published question with a published answer is loaded, with its
    own text as a candidate. *)
Lemma published_is_candidate (db : Database) (q : Question) (a : Answer) :
  In q (Questions db) -> q_status q = Final ->
  In a (Answers db) -> a_question_id a = q_id q -> a_status a = Final ->
  exists c,
    In c (candidates (loadFinal db (q_agent_id q))) /\
    candidateText c = question_text q.
Proof.
  intros Hq Hqs Ha Haq Has.
  destruct (find_In_some
              (fun x => (a_question_id x =? q_id q) && isFinal (a_status x))
              (Answers db) a Ha) as [a0 E0].
  { rewrite Haq, Has, Nat.eqb_refl. reflexivity. }
  exists {| c_question :=
              {| qw_row := q;
                 qw_answer := Some {| aw_row := a0;
                                      aw_variants := approvedAnswerVariants db a0 |};
                 qw_variants := approvedQuestionVariants db q |};
            c_answer := {| aw_row := a0; aw_variants := approvedAnswerVariants db a0 |};
            c_variant := None |}.
  split; [|reflexivity].
  unfold candidates. apply in_flat_map. eexists. split.
  - unfold loadFinal. apply in_flat_map. exists q. split; [exact Hq|].
    rewrite Hqs, Nat.eqb_refl. cbn [isFinal andb]. unfold finalAnswerOf. rewrite E0.
    left. reflexivity.
  - unfold candidatesOf. cbn [qw_answer]. left. reflexivity.
Qed.

Lemma own_text_is_answered (db : Database) (q : Question) (a : Answer)
    (userMessage : string) (r : Rand) :
  fair r ->
  In q (Questions db) -> q_status q = Final ->
  In a (Answers db) -> a_question_id a = q_id q -> a_status a = Final ->
  Js.trim (Js.toLowerCase userMessage) = Js.toLowerCase (question_text q) ->
  words_of (Js.toLowerCase (question_text q)) <> [] ->
  exists p r',
    findMatchingAnswer (Available db) (q_agent_id q) userMessage r = (Ok p, r') /\
    (score p == 1)%Q /\ pointsInto db (q_agent_id q) p.
Proof.
  intros Hr Hq Hqs Ha Haq Has Hmsg Hword.
  destruct (findMatchingAnswer_outcome db (q_agent_id q) userMessage r Hr)
    as [p [r' [E [_ Ho]]]].
  exists p, r'. split; [exact E|].
  destruct (published_is_candidate db q a Hq Hqs Ha Haq Has) as [c0 [Hc0 Ht0]].
  unfold outcome in Ho. cbv zeta in Ho. rewrite Hmsg in Ho.
  set (lowerMessage := Js.toLowerCase (question_text q)) in *.
  set (cands := candidates (loadFinal db (q_agent_id q))) in *.
  assert (Hs0 : (scoreOf lowerMessage c0 == 1)%Q).
  { unfold scoreOf. rewrite Ht0. now apply calculateSimilarity_same. }
  pose proof (winner_winnerOf lowerMessage cands) as Hw. unfold winnerOf in Hw.
  destruct (fst (winner lowerMessage cands)) as [c|].
  - destruct Hw as [Hs [_ Hfirst]].
    pose proof (firstBest_bound lowerMessage cands c c0 Hfirst Hc0) as Hle.
    rewrite Hs0 in Hle.
    assert (G : Qgtb (snd (winner lowerMessage cands)) (3 # 10) = true).
    { apply Qgtb_true. rewrite Hs. eapply Qlt_le_trans; [|exact Hle]. reflexivity. }
    rewrite G in Ho. destruct Ho as [Hqid [_ [Hsc _]]].
    assert (Hone : (score p == 1)%Q).
    { rewrite Hsc. apply Qle_antisym; [apply calculateSimilarity_le_one | exact Hle]. }
    split; [exact Hone|].
    destruct (findMatchingAnswer_pointed db (q_agent_id q) userMessage r p r' Hr E)
      as [Hp | [Hp _]]; [|exact Hp].
    rewrite Hp in Hqid. discriminate Hqid.
  - destruct Hw as [_ Hall]. specialize (Hall c0 Hc0). rewrite Hs0 in Hall.
    exfalso. revert Hall. apply Qlt_not_le. reflexivity.
Qed.

End OwnText.

(** X20: a published question with a published answer is found by its
    own text: with fair draws, an utterance that is the text of the
    question up to letter case and padding, and has a word of more than
    two characters, gets a payload of score 1 that points into the
    store. *)
Theorem published_question_is_found_by_its_text (db : Database) (q : Question)
    (a : Answer) (userMessage : string) (r : Rand) :
  fair r ->
  In q (Questions db) -> q_status q = Final ->
  In a (Answers db) -> a_question_id a = q_id q -> a_status a = Final ->
  Js.trim (Js.toLowerCase userMessage) = Js.toLowerCase (question_text q) ->
  words_of (Js.toLowerCase (question_text q)) <> [] ->
  exists p r',
    findMatchingAnswer (Available db) (q_agent_id q) userMessage r = (Ok p, r') /\
    (score p == 1)%Q /\ pointsInto db (q_agent_id q) p.
Proof. exact (own_text_is_answered db q a userMessage r). Qed.

Lemma published_question_is_found_by_its_text_witness :
  exists p r',
    findMatchingAnswer (Available returnsDb) 7 "  WHAT is your Return policy? " halves
    = (Ok p, r') /\
    (score p == 1)%Q /\ pointsInto returnsDb 7 p.
Proof.
  apply (published_question_is_found_by_its_text
           returnsDb
           {| q_id := 1; q_agent_id := 7;
              question_text := "What is your return policy?"; q_status := Final |}
           {| a_id := 2; a_question_id := 1;
              answer_text := "You can return items within 30 days.";
              answer_html := "<p>You can return items within 30 days.</p>";
              a_status := Final |}
           "  WHAT is your Return policy? " halves halves_fair).
  - left. reflexivity.
  - reflexivity.
  - left. reflexivity.
  - reflexivity.
  - reflexivity.
  - vm_compute. reflexivity.
  - vm_compute. discriminate.
Defined.

(* ------------------------------------------------------------------ *)
(** ** Publishing and withdrawing a question                           *)
(* ------------------------------------------------------------------ *)

Section StatusRoute.

Lemma filter_map_fixed {A} (p : A -> bool) (f : A -> A) (l : list A) :
  (forall x, In x l -> p (f x) = p x) ->
  (forall x, In x l -> p x = true -> f x = x) ->
  filter p (map f l) = filter p l.
Proof.
  intros H1 H2. induction l as [|x l IH]; [reflexivity|]. cbn [map filter].
  rewrite (H1 x (or_introl eq_refl)).
  rewrite IH;
    [| intros y Hy; apply H1; now right
     | intros y Hy Hp; apply H2; [now right | exact Hp] ].
  destruct (p x) eqn:E; [|reflexivity].
  now rewrite (H2 x (or_introl eq_refl) E).
Qed.

Lemma find_map_fixed {A} (p : A -> bool) (f : A -> A) (l : list A) :
  (forall x, In x l -> p (f x) = p x) ->
  (forall x, In x l -> p x = true -> f x = x) ->
  find p (map f l) = find p l.
Proof.
  intros H1 H2. induction l as [|x l IH]; [reflexivity|]. cbn [map find].
  rewrite (H1 x (or_introl eq_refl)).
  destruct (p x) eqn:E.
  - now rewrite (H2 x (or_introl eq_refl) E).
  - apply IH; [intros y Hy; apply H1; now right
               | intros y Hy Hp; apply H2; [now right | exact Hp]].
Qed.

Lemma NoDup_map_eq {A B} (f : A -> B) (l : list A) (x y : A) :
  NoDup (map f l) -> In x l -> In y l -> f x = f y -> x = y.
Proof.
  induction l as [|z l IH]; [intros _ []|].
  cbn [map]. intros Hnd Hx Hy Hf. inversion Hnd as [|? ? Hnot Hnd']; subst.
  destruct Hx as [Hx | Hx], Hy as [Hy | Hy].
  - congruence.
  - subst z. exfalso. apply Hnot. rewrite Hf. now apply in_map.
  - subst z. exfalso. apply Hnot. rewrite <- Hf. now apply in_map.
  - now apply IH.
Qed.

Variables (db : Database) (id : uuid) (status : Status).

(** The store after the two updates of the route; [answer] is the answer
    the question was loaded with. *)
Local Notation "'after' answer" :=
  (match answer with
   | Some answer => Answer_setStatus (Question_setStatus db id status) (a_id answer) status
   | None => Question_setStatus db id status
   end) (at level 10).

Lemma setStatus_tables (answer : option Answer) :
  Questions (after answer) = Questions (Question_setStatus db id status) /\
  QuestionVariants (after answer) = QuestionVariants db /\
  AnswerVariants (after answer) = AnswerVariants db.
Proof. destruct answer; repeat split; reflexivity. Qed.

Lemma setStatus_other_questions (answer : option Answer) :
  Questions (withoutQuestion id (after answer)) = Questions (withoutQuestion id db).
Proof.
  cbn [Questions withoutQuestion].
  destruct (setStatus_tables answer) as [-> _]. cbn [Questions Question_setStatus].
  apply filter_map_fixed.
  - intros x _. destruct (q_id x =? id) eqn:E; cbn [q_id]; now rewrite E.
  - intros x _ Hx. apply negb_true_iff in Hx. now rewrite Hx.
Qed.

Hypothesis answer_keys : NoDup (map a_id (Answers db)).

Lemma setStatus_other_answers (answer : option Answer) (q : Question) :
  (forall a, answer = Some a -> In a (Answers db) /\ a_question_id a = id) ->
  q_id q <> id ->
  finalAnswerOf (after answer) q = finalAnswerOf db q.
Proof.
  intros Hanswer Hq. destruct answer as [a|]; [|reflexivity].
  destruct (Hanswer a eq_refl) as [Ha Haq].
  unfold finalAnswerOf. cbn [Answers Answer_setStatus Question_setStatus].
  assert (Hsame : forall x, In x (Answers db) -> a_id x = a_id a ->
                    (a_question_id x =? q_id q) = false).
  { intros x Hx Hid. rewrite (NoDup_map_eq a_id (Answers db) x a answer_keys Hx Ha Hid).
    rewrite Haq. apply Nat.eqb_neq. congruence. }
  apply find_map_fixed.
  - intros x Hx. destruct (Nat.eqb_spec (a_id x) (a_id a)) as [Hid | _]; [|reflexivity].
    cbn [a_question_id a_status]. now rewrite (Hsame x Hx Hid).
  - intros x Hx Hp. destruct (Nat.eqb_spec (a_id x) (a_id a)) as [Hid | _]; [|reflexivity].
    now rewrite (Hsame x Hx Hid) in Hp.
Qed.

Lemma loadFinal_setStatus_others (answer : option Answer) (agentId : uuid) :
  (forall a, answer = Some a -> In a (Answers db) /\ a_question_id a = id) ->
  loadFinal (withoutQuestion id (after answer)) agentId
  = loadFinal (withoutQuestion id db) agentId.
Proof.
  intro Hanswer. unfold loadFinal. rewrite setStatus_other_questions.
  apply flat_map_ext_in. intros q Hq.
  cbn [Questions withoutQuestion] in Hq. apply filter_In in Hq. destruct Hq as [_ Hq].
  apply negb_true_iff, Nat.eqb_neq in Hq.
  destruct ((q_agent_id q =? agentId) && isFinal (q_status q)); [|reflexivity].
  change (finalAnswerOf (withoutQuestion id (after answer)) q)
    with (finalAnswerOf (after answer) q).
  change (finalAnswerOf (withoutQuestion id db) q) with (finalAnswerOf db q).
  rewrite (setStatus_other_answers answer q Hanswer Hq).
  destruct (finalAnswerOf db q) as [a|]; [|reflexivity].
  unfold approvedAnswerVariants, approvedQuestionVariants.
  cbn [QuestionVariants AnswerVariants withoutQuestion].
  destruct (setStatus_tables answer) as [_ [-> ->]]. reflexivity.
Qed.

End StatusRoute.

(** What a successful status update has found and written. *)
Lemma updateQuestionStatus_inv (req : StatusRequest) (st st' : Storage) :
  updateQuestionStatus req st = (200, st') ->
  exists db status q answer,
    st = Available db /\
    validStatus (status_body_status req) = Some status /\
    find (fun x => q_id x =? status_params_id req) (Questions db) = Some q /\
    find (fun x => a_question_id x =? q_id q) (Answers db) = answer /\
    q_id q = status_params_id req /\
    st' = Available
            match answer with
            | Some answer =>
                Answer_setStatus (Question_setStatus db (status_params_id req) status)
                                 (a_id answer) status
            | None => Question_setStatus db (status_params_id req) status
            end.
Proof.
  intro H. unfold updateQuestionStatus in H.
  destruct (validStatus _) as [status|]; [|discriminate H].
  destruct st as [|db]; [discriminate H|].
  unfold Question_findByPk in H.
  destruct (find _ (Questions db)) as [q|] eqn:Eq; [|discriminate H].
  pose proof (find_some _ _ Eq) as [_ Hid]. apply Nat.eqb_eq in Hid.
  cbv zeta in H. rewrite Hid in H.
  exists db, status, q, (find (fun x => a_question_id x =? q_id q) (Answers db)).
  rewrite Hid.
  destruct (find _ (Answers db)) as [a|]; inversion H; auto 10.
Qed.

(** X21: a status update that succeeds carried the status [Draft] or
    [Final], and writes it to the question and to the answer the
    question is loaded with, together: loaded again, both carry it, with
    their texts as before.  The other questions and the two tables of
    variants stay as they are. *)
Theorem updateQuestionStatus_sets_question_and_answer (req : StatusRequest)
    (st st' : Storage) :
  updateQuestionStatus req st = (200, st') ->
  exists db db' status q answer,
    st = Available db /\ st' = Available db' /\
    validStatus (status_body_status req) = Some status /\
    Question_findByPk db (status_params_id req) = Some (q, answer) /\
    Question_findByPk db' (status_params_id req)
    = Some ({| q_id := q_id q; q_agent_id := q_agent_id q;
               question_text := question_text q; q_status := status |},
            option_map
              (fun a => {| a_id := a_id a; a_question_id := a_question_id a;
                           answer_text := answer_text a; answer_html := answer_html a;
                           a_status := status |})
              answer) /\
    (forall x, In x (Questions db) -> q_id x <> status_params_id req ->
               In x (Questions db')) /\
    QuestionVariants db' = QuestionVariants db /\
    AnswerVariants db' = AnswerVariants db.
Proof.
  intro H. apply updateQuestionStatus_inv in H.
  destruct H as [db [status [q [answer [Hst [Hv [Eq [Ea [Hid Hst']]]]]]]]].
  eexists db, _, status, q, answer.
  split; [exact Hst|]. split; [exact Hst'|]. split; [exact Hv|].
  destruct (setStatus_tables db (status_params_id req) status answer) as [HQ [HV HW]].
  split; [|split; [|split; [|split; assumption]]].
  - unfold Question_findByPk. now rewrite Eq, Ea.
  - unfold Question_findByPk. rewrite HQ. cbn [Questions Question_setStatus].
    rewrite (find_map_stable (fun x => q_id x =? status_params_id req));
      [|intro x; destruct (q_id x =? status_params_id req) eqn:E; cbn [q_id]; exact E].
    rewrite Eq. cbn [option_map]. rewrite Hid, Nat.eqb_refl. cbn [q_id]. f_equal. f_equal.
    rewrite <- Hid, <- Ea. destruct (find _ (Answers db)) as [a|] eqn:Ea'.
    + cbn [Answers Answer_setStatus Question_setStatus].
      rewrite (find_map_stable (fun x => a_question_id x =? q_id q));
        [|intro x; now destruct (a_id x =? a_id a)].
      rewrite Ea'. cbn [option_map]. now rewrite Nat.eqb_refl.
    + cbn [Answers Question_setStatus]. now rewrite Ea'.
  - intros x Hx Hne. rewrite HQ. cbn [Questions Question_setStatus].
    apply in_map_iff. exists x. split; [|exact Hx].
    destruct (Nat.eqb_spec (q_id x) (status_params_id req)); [contradiction | reflexivity].
Qed.

Lemma updateQuestionStatus_sets_question_and_answer_witness :
  exists db db' status q answer,
    Available returnsDb = Available db /\
    snd (updateQuestionStatus {| status_params_id := 1; status_body_status := VStr "Draft" |}
                              (Available returnsDb)) = Available db' /\
    validStatus (VStr "Draft") = Some status /\
    Question_findByPk db 1 = Some (q, answer) /\
    Question_findByPk db' 1
    = Some ({| q_id := q_id q; q_agent_id := q_agent_id q;
               question_text := question_text q; q_status := status |},
            option_map
              (fun a => {| a_id := a_id a; a_question_id := a_question_id a;
                           answer_text := answer_text a; answer_html := answer_html a;
                           a_status := status |})
              answer) /\
    (forall x, In x (Questions db) -> q_id x <> 1 -> In x (Questions db')) /\
    QuestionVariants db' = QuestionVariants db /\
    AnswerVariants db' = AnswerVariants db.
Proof.
  apply (updateQuestionStatus_sets_question_and_answer
           {| status_params_id := 1; status_body_status := VStr "Draft" |}
           (Available returnsDb)).
  reflexivity.
Defined.

(** X22: on a store whose answers have distinct keys, a status update
    is local to its question: for every agent, utterance and draws the
    matcher, with that question left out, answers as before; and after a
    withdrawal to [Draft] it answers as if the question were not in the
    store. *)
Theorem updateQuestionStatus_is_local (req : StatusRequest) (db db' : Database) :
  NoDup (map a_id (Answers db)) ->
  updateQuestionStatus req (Available db) = (200, Available db') ->
  (forall agentId userMessage r,
      findMatchingAnswer (Available (withoutQuestion (status_params_id req) db'))
                         agentId userMessage r
      = findMatchingAnswer (Available (withoutQuestion (status_params_id req) db))
                           agentId userMessage r) /\
  (status_body_status req = VStr "Draft" ->
   forall agentId userMessage r,
     findMatchingAnswer (Available db') agentId userMessage r
     = findMatchingAnswer (Available (withoutQuestion (status_params_id req) db))
                          agentId userMessage r).
Proof.
  intros Hkeys H. apply updateQuestionStatus_inv in H.
  destruct H as [db0 [status [q [answer [Hst [Hv [Eq [Ea [Hid Hst']]]]]]]]].
  injection Hst as Hdb. subst db0. injection Hst' as Hdb'. subst db'.
  assert (Hanswer : forall a, answer = Some a ->
                      In a (Answers db) /\ a_question_id a = status_params_id req).
  { intros a Hsome. rewrite Hsome in Ea. apply find_some in Ea.
    destruct Ea as [Hin Hc]. apply Nat.eqb_eq in Hc. split; [exact Hin | congruence]. }
  pose proof (fun agentId =>
                loadFinal_setStatus_others db (status_params_id req) status Hkeys
                  answer agentId Hanswer) as Hothers.
  split.
  - intros agentId userMessage r. apply findMatchingAnswer_loaded. apply Hothers.
  - intros Hdraft agentId userMessage r. apply findMatchingAnswer_loaded.
    rewrite <- Hothers. symmetry. apply loadFinal_withoutQuestion.
    rewrite Hdraft in Hv. cbn in Hv. injection Hv as Hv. subst status.
    intros x Hx Hxid.
    destruct (setStatus_tables db (status_params_id req) Draft answer) as [HQ _].
    rewrite HQ in Hx. cbn [Questions Question_setStatus] in Hx.
    apply in_map_iff in Hx. destruct Hx as [x0 [Hx0 _]].
    destruct (Nat.eqb_spec (q_id x0) (status_params_id req)) as [Heq | Hne];
      subst x; [reflexivity | contradiction].
Qed.

Lemma updateQuestionStatus_is_local_witness :
  (forall agentId userMessage r,
      findMatchingAnswer
        (Available (withoutQuestion 1 (Question_setStatus
                                         (Answer_setStatus returnsDb 2 Draft) 1 Draft)))
        agentId userMessage r
      = findMatchingAnswer (Available (withoutQuestion 1 returnsDb))
                           agentId userMessage r) /\
  (VStr "Draft" = VStr "Draft" ->
   forall agentId userMessage r,
     findMatchingAnswer
       (Available (Question_setStatus (Answer_setStatus returnsDb 2 Draft) 1 Draft))
       agentId userMessage r
     = findMatchingAnswer (Available (withoutQuestion 1 returnsDb))
                          agentId userMessage r).
Proof.
  apply (updateQuestionStatus_is_local
           {| status_params_id := 1; status_body_status := VStr "Draft" |} returnsDb).
  - repeat constructor. intros [].
  - vm_compute. reflexivity.
Defined.

(** X23: publishing makes a question answerable: after a status update
    to [Final] of a question that has an answer, with fair draws, an
    utterance that is the text of the question up to letter case and
    padding, and has a word of more than two characters, gets a payload
    of score 1 that points into the store. *)
Theorem publishing_makes_a_question_answerable (req : StatusRequest)
    (db db' : Database) (q : Question) (a : Answer) (userMessage : string) (r : Rand) :
  fair r ->
  updateQuestionStatus req (Available db) = (200, Available db') ->
  status_body_status req = VStr "Final" ->
  Question_findByPk db (status_params_id req) = Some (q, Some a) ->
  Js.trim (Js.toLowerCase userMessage) = Js.toLowerCase (question_text q) ->
  words_of (Js.toLowerCase (question_text q)) <> [] ->
  exists p r',
    findMatchingAnswer (Available db') (q_agent_id q) userMessage r = (Ok p, r') /\
    (score p == 1)%Q /\ pointsInto db' (q_agent_id q) p.
Proof.
  intros Hr H Hfinal Hfound Hmsg Hword. apply updateQuestionStatus_inv in H.
  destruct H as [db0 [status [q0 [answer [Hst [Hv [Eq [Ea [Hid Hst']]]]]]]]].
  injection Hst as Hdb. subst db0. injection Hst' as Hdb'. subst db'.
  rewrite Hfinal in Hv. cbn in Hv. injection Hv as Hv. subst status.
  unfold Question_findByPk in Hfound. rewrite Eq, Ea in Hfound.
  injection Hfound as Hq0 Hanswer. subst q0. rewrite Hanswer in Ea |- *.
  apply find_some in Eq. destruct Eq as [Hq _].
  apply find_some in Ea. destruct Ea as [Ha Haq]. apply Nat.eqb_eq in Haq.
  apply (own_text_is_answered _
           {| q_id := q_id q; q_agent_id := q_agent_id q;
              question_text := question_text q; q_status := Final |}
           {| a_id := a_id a; a_question_id := a_question_id a;
              answer_text := answer_text a; answer_html := answer_html a;
              a_status := Final |}
           userMessage r Hr); try reflexivity; try assumption.
  - cbn [Questions Answer_setStatus Question_setStatus].
    apply in_map_iff. exists q. split; [|exact Hq]. now rewrite Hid, Nat.eqb_refl.
  - cbn [Answers Answer_setStatus Question_setStatus].
    apply in_map_iff. exists a. split; [|exact Ha]. now rewrite Nat.eqb_refl.
Qed.

Lemma publishing_makes_a_question_answerable_witness :
  exists p r',
    findMatchingAnswer
      (Available (Answer_setStatus (Question_setStatus draftsDb 1 Final) 2 Final))
      7 "what is your return policy?" halves
    = (Ok p, r') /\
    (score p == 1)%Q /\
    pointsInto (Answer_setStatus (Question_setStatus draftsDb 1 Final) 2 Final) 7 p.
Proof.
  apply (publishing_makes_a_question_answerable
           {| status_params_id := 1; status_body_status := VStr "Final" |}
           draftsDb
           (Answer_setStatus (Question_setStatus draftsDb 1 Final) 2 Final)
           {| q_id := 1; q_agent_id := 7;
              question_text := "What is your return policy?"; q_status := Draft |}
           {| a_id := 2; a_question_id := 1;
              answer_text := "You can return items within 30 days.";
              answer_html := "<p>You can return items within 30 days.</p>";
              a_status := Final |}
           "what is your return policy?" halves halves_fair).
  - vm_compute. reflexivity.
  - reflexivity.
  - vm_compute. reflexivity.
  - vm_compute. reflexivity.
  - vm_compute. discriminate.
Defined.

(* ------------------------------------------------------------------ *)
(** ** The variants after an update                                    *)
(* ------------------------------------------------------------------ *)

Section Regenerated.

Lemma filter_negb_nil {A} (p : A -> bool) (l : list A) :
  filter p (filter (fun x => negb (p x)) l) = [].
Proof.
  apply filter_none. intros x Hx. apply filter_In in Hx. destruct Hx as [_ Hx].
  now apply negb_true_iff in Hx.
Qed.

Lemma filter_negb_same {A} (p : A -> bool) (l : list A) :
  filter (fun x => negb (p x)) (filter (fun x => negb (p x)) l)
  = filter (fun x => negb (p x)) l.
Proof.
  apply filter_all. intros x Hx. apply filter_In in Hx. now destruct Hx.
Qed.

(** A table from which the rows of one key were deleted and to which
    rows of that key were appended: the rows of the key are the new
    ones, the others are the old ones. *)
Lemma replaced_rows {A} (p : A -> bool) (old new : list A) :
  Forall (fun x => p x = true) new ->
  filter p (filter (fun x => negb (p x)) old ++ new) = new /\
  filter (fun x => negb (p x)) (filter (fun x => negb (p x)) old ++ new)
  = filter (fun x => negb (p x)) old.
Proof.
  intro H. rewrite Forall_forall in H. rewrite !filter_app. split.
  - rewrite filter_negb_nil. cbn [app]. now apply filter_all.
  - rewrite filter_negb_same, (filter_none _ new); [apply app_nil_r|].
    intros x Hx. now rewrite (H x Hx).
Qed.

End Regenerated.

(** X24: an update that succeeds replaces the variants: the question
    variants of the question are, in order, the texts [generateVariants]
    returned for the new question text, and the variants of its answer
    the texts and markups returned for the new answer, all approved; the
    rows they had before are gone, and the variants of the other
    questions and answers stay as they are. *)
Theorem updateQuestion_replaces_the_variants
    (req : UpdateRequest) (st : Storage) (r : Rand) (db' : Database) (r' : Rand) :
  updateQuestion req st r = (200, Available db', r') ->
  exists db q a questionVariants answerVariants r1,
    st = Available db /\
    Question_findByPk db (params_id req) = Some (q, Some a) /\
    generateVariants (VStr (Js.trim (body_question_text req))) "question" VNull r
    = (Ok questionVariants, r1) /\
    generateVariants (VStr (Js.trim (body_answer_text req))) "answer"
                     (VStr (Js.trim (body_answer_html req))) r1
    = (Ok answerVariants, r') /\
    (let mine := filter (fun v => qv_question_id v =? params_id req)
                        (QuestionVariants db') in
     map qv_variant_text mine = map Variant.text questionVariants /\
     Forall (fun v => qv_is_approved v = true) mine) /\
    (let mine := filter (fun v => av_answer_id v =? a_id a) (AnswerVariants db') in
     map av_variant_text mine = map Variant.text answerVariants /\
     map av_variant_html mine = map Variant.html answerVariants /\
     Forall (fun v => av_is_approved v = true) mine) /\
    filter (fun v => negb (qv_question_id v =? params_id req)) (QuestionVariants db')
    = filter (fun v => negb (qv_question_id v =? params_id req)) (QuestionVariants db) /\
    filter (fun v => negb (av_answer_id v =? a_id a)) (AnswerVariants db')
    = filter (fun v => negb (av_answer_id v =? a_id a)) (AnswerVariants db).
Proof.
  intro H. unfold updateQuestion in H. cbv zeta in H.
  destruct (_ || _ || _); [discriminate H|].
  destruct st as [|db]; [discriminate H|].
  destruct (Question_findByPk db (params_id req)) as [[question answer]|] eqn:Ef;
    [|discriminate H].
  destruct (enumStatus _) as [new_status|]; [|discriminate H].
  destruct answer as [answer|]; [|discriminate H].
  destruct (generateVariants _ "question" VNull r) as [[qvs|e] r1] eqn:Gq;
    [|discriminate H].
  destruct (generateVariants _ "answer" _ r1) as [[avs|e] r2] eqn:Ga; [|discriminate H].
  injection H as Hdb Hr. subst r2.
  assert (Hid : q_id question = params_id req).
  { unfold Question_findByPk in Ef.
    destruct (find _ (Questions db)) as [q0|] eqn:Eq; [|discriminate Ef].
    injection Ef as Hq _. subst q0. apply find_some in Eq. destruct Eq as [_ Hc].
    now apply Nat.eqb_eq in Hc. }
  exists db, question, answer, qvs, avs, r1.
  split; [reflexivity|]. split; [exact Ef|].
  split; [reflexivity|]. split; [exact Ga|].
  match type of Hdb with
  | fold_left ?f avs (fold_left ?g qvs ?d) = _ =>
      destruct (question_variants_created (q_id question) qvs d)
        as [rowsQ [V5 [T5 [F5 [W5 _]]]]];
      destruct (answer_variants_created (a_id answer) avs (fold_left g qvs d))
        as [rowsA [W6 [T6 [H6 [F6 V6]]]]]
  end.
  cbv zeta in V5, W5, V6, W6. rewrite V5 in V6. rewrite W5 in W6. rewrite Hdb in V6, W6.
  cbn [QuestionVariants AnswerVariants AnswerVariant_destroy QuestionVariant_destroy
       Answer_update Question_update] in V6, W6.
  rewrite Hid in V6.
  assert (FQ : Forall (fun v => (qv_question_id v =? params_id req) = true) rowsQ).
  { eapply Forall_impl; [|exact F5]. intros v [Hv _]. rewrite Hv, Hid.
    apply Nat.eqb_refl. }
  assert (FA : Forall (fun v => (av_answer_id v =? a_id answer) = true) rowsA).
  { eapply Forall_impl; [|exact F6]. intros v [Hv _]. rewrite Hv. apply Nat.eqb_refl. }
  destruct (replaced_rows (fun v => qv_question_id v =? params_id req)
              (QuestionVariants db) rowsQ FQ) as [Q1 Q2].
  destruct (replaced_rows (fun v => av_answer_id v =? a_id answer)
              (AnswerVariants db) rowsA FA) as [A1 A2].
  cbv zeta. rewrite V6, W6, Q1, Q2, A1, A2.
  repeat split; try assumption.
  - eapply Forall_impl; [|exact F5]. now intros v [_ Hv].
  - eapply Forall_impl; [|exact F6]. now intros v [_ Hv].
Qed.

Lemma updateQuestion_replaces_the_variants_witness :
  exists db q a questionVariants answerVariants r1,
    Available returnsDb = Available db /\
    Question_findByPk db (params_id editRequest) = Some (q, Some a) /\
    generateVariants (VStr (Js.trim (body_question_text editRequest))) "question" VNull
                     zeros
    = (Ok questionVariants, r1) /\
    generateVariants (VStr (Js.trim (body_answer_text editRequest))) "answer"
                     (VStr (Js.trim (body_answer_html editRequest))) r1
    = (Ok answerVariants, snd (updateQuestion editRequest (Available returnsDb) zeros)) /\
    (let mine := filter (fun v => qv_question_id v =? params_id editRequest)
                        (QuestionVariants editedDb) in
     map qv_variant_text mine = map Variant.text questionVariants /\
     Forall (fun v => qv_is_approved v = true) mine) /\
    (let mine := filter (fun v => av_answer_id v =? a_id a) (AnswerVariants editedDb) in
     map av_variant_text mine = map Variant.text answerVariants /\
     map av_variant_html mine = map Variant.html answerVariants /\
     Forall (fun v => av_is_approved v = true) mine) /\
    filter (fun v => negb (qv_question_id v =? params_id editRequest))
           (QuestionVariants editedDb)
    = filter (fun v => negb (qv_question_id v =? params_id editRequest))
             (QuestionVariants db) /\
    filter (fun v => negb (av_answer_id v =? a_id a)) (AnswerVariants editedDb)
    = filter (fun v => negb (av_answer_id v =? a_id a)) (AnswerVariants db).
Proof.
  apply (updateQuestion_replaces_the_variants
           editRequest (Available returnsDb) zeros editedDb
           (snd (updateQuestion editRequest (Available returnsDb) zeros))).
  vm_compute. reflexivity.
Defined.



(* ------------------------------------------------------------------ *)
(** ** The guards                                                      *)
(* ------------------------------------------------------------------ *)

(** X26: the role guards split the users: [ensureUser] lets a request
    pass exactly when [ensureAdmin] or [ensureDemoUser] does, no request
    passes both of these, and each of the four guards that read the
    user answers 401 when there is none. *)
Theorem role_guards_split_the_users (req : Request) :
  (ensureUser req = Next <-> ensureAdmin req = Next \/ ensureDemoUser req = Next) /\
  ~ (ensureAdmin req = Next /\ ensureDemoUser req = Next) /\
  (req_user req = None <->
   ensureAdmin req = Responded 401 /\ ensureDemoUser req = Responded 401 /\
   ensureUser req = Responded 401 /\ ensureActiveUser req = Responded 401).
Proof.
  unfold ensureUser, ensureAdmin, ensureDemoUser, ensureActiveUser.
  destruct (req_user req) as [u|].
  - cbv zeta. cbn [existsb].
    destruct (String.eqb_spec (role u) "Administrator") as [Ha | Ha];
      destruct (String.eqb_spec (role u) "Demo User") as [Hd | Hd];
      cbn [orb negb];
      (split; [split; [intro H; try discriminate H; auto
                      | intros [H | H]; try discriminate H; reflexivity]
              | split; [intros [H1 H2]; try discriminate H1; try discriminate H2
                       | split; [intro H; discriminate H
                                | intros [H _]; discriminate H]]]).
    rewrite Ha in Hd. discriminate Hd.
  - split; [split; [intro H; discriminate H | intros [H | H]; discriminate H]|].
    split; [intros [H _]; discriminate H|].
    split; auto.
Qed.
